(** * ET expert-matching tool: scoring, ranking, synthesis and seeded generation

    A shallow embedding of [scoring.py], [generation.py] and the synthesis
    step of [app.py], with the properties the design document states about
    them.

    Conventions of the embedding:
    - Python [str] values are Rocq strings; the text handled here is ASCII,
      where [str.lower], [re] character classes and UTF-8 encoding act
      byte by byte.
    - Python [int] values are [Z].  In a request and in an expert record
      the hourly rate and the budget are integers (the request form yields
      the budget from an integer slider); the lines of the scorer that read
      them ask for no integers, and are also given on arbitrary numbers
      ([Scoring.rate_block]).
    - Python [float] arithmetic in the scorer is read as exact rational
      arithmetic over [Q]: binary64 rounding error is not part of the model.
    - A [set] of strings is a [gset string], a [dict] keyed by expert id a
      [gmap string _].  Python does not fix the iteration order of a set; the
      scorer only ever consumes sets through [len], membership, truth value
      and [sorted], and so does the model.
    - What a call reads of the process it runs in is passed to it as a
      [world]: the date of the clock, and the order in which a set is
      iterated over, which [str] follows when a set is made part of a seed.
    - A loop that Python does not bound, the one of [_randbelow], is run
      with a number of tries, and a computation that draws yields [None]
      when a loop needs more: the call returns a value when some number of
      tries yields it.
    - A dictionary entry that the code reads with [.get(key) or default] is a
      [field]: the key may be missing, hold [None], or hold a value. *)

From Stdlib Require Import String Ascii List ZArith QArith Qround Lia Lqa.
From Stdlib Require Import Permutation Sorted DecimalString.
From stdpp Require Import gmap strings list.

Local Open Scope string_scope.
Local Open Scope list_scope.

(** ** Python strings *)

Module PyStr.

Definition code (c : ascii) : nat := nat_of_ascii c.

Definition is_digit (c : ascii) : bool :=
  (48 <=? code c)%nat && (code c <=? 57)%nat.

Definition is_upper (c : ascii) : bool :=
  (65 <=? code c)%nat && (code c <=? 90)%nat.

Definition is_lower (c : ascii) : bool :=
  (97 <=? code c)%nat && (code c <=? 122)%nat.

(** The class [[a-zA-Z0-9]]. *)
Definition is_alnum (c : ascii) : bool :=
  is_lower c || is_upper c || is_digit c.

Definition lower_char (c : ascii) : ascii :=
  if is_upper c then ascii_of_nat (code c + 32) else c.

Definition upper_char (c : ascii) : ascii :=
  if is_lower c then ascii_of_nat (code c - 32) else c.

(** [s.lower()] *)
Fixpoint lower (s : string) : string :=
  match s with
  | EmptyString => EmptyString
  | String c s' => String (lower_char c) (lower s')
  end.

(** [sep.join(parts)] *)
Fixpoint join (sep : string) (parts : list string) : string :=
  match parts with
  | [] => ""
  | [p] => p
  | p :: rest => p +:+ sep +:+ join sep rest
  end.

(** [t in s] on strings: [t] occurs in [s] as a contiguous substring. *)
Fixpoint contains (t s : string) : bool :=
  String.prefix t s ||
  match s with
  | EmptyString => false
  | String _ s' => contains t s'
  end.

(** [re.findall(r"[a-zA-Z0-9]+", s)]: the maximal runs of letters and
    digits, left to right.  [run] is the run being read. *)
Fixpoint alnum_runs (run : string) (s : string) : list string :=
  match s with
  | EmptyString => match run with EmptyString => [] | _ => [run] end
  | String c s' =>
      if is_alnum c then alnum_runs (run +:+ String c EmptyString) s'
      else match run with
           | EmptyString => alnum_runs EmptyString s'
           | _ => run :: alnum_runs EmptyString s'
           end
  end.

Definition findall_alnum (s : string) : list string :=
  alnum_runs EmptyString s.

(** [sorted(xs)] on strings: ascending code-point order. *)
Fixpoint insert_sorted (x : string) (l : list string) : list string :=
  match l with
  | [] => [x]
  | y :: l' => if String.leb x y then x :: l else y :: insert_sorted x l'
  end.

Definition sorted (l : list string) : list string :=
  foldr insert_sorted [] l.

(** [x in xs] on a list of strings. *)
Definition mem (x : string) (l : list string) : bool :=
  existsb (String.eqb x) l.

(** [str(z)] for an integer. *)
Definition str_of_Z (z : Z) : string :=
  DecimalString.NilZero.string_of_int (Z.to_int z).

(** The ASCII characters [str.strip] removes. *)
Definition is_space (c : ascii) : bool :=
  (9 <=? code c)%nat && (code c <=? 13)%nat ||
  (28 <=? code c)%nat && (code c <=? 32)%nat.

Fixpoint lstrip (s : string) : string :=
  match s with
  | EmptyString => EmptyString
  | String c s' => if is_space c then lstrip s' else s
  end.

Fixpoint rstrip (s : string) : string :=
  match s with
  | EmptyString => EmptyString
  | String c s' =>
      match rstrip s' with
      | EmptyString => if is_space c then EmptyString else String c EmptyString
      | r => String c r
      end
  end.

(** [s.strip()] *)
Definition strip (s : string) : string := rstrip (lstrip s).

(** [s.capitalize()] *)
Definition capitalize (s : string) : string :=
  match s with
  | EmptyString => EmptyString
  | String c s' => String (upper_char c) (lower s')
  end.

Definition newline : ascii := ascii_of_nat 10.

(** [s.replace("\n", " ")] *)
Fixpoint replace_newlines (s : string) : string :=
  match s with
  | EmptyString => EmptyString
  | String c s' =>
      String (if Ascii.eqb c newline then " "%char else c) (replace_newlines s')
  end.

(** [s[start:stop]] for [0 <= start] *)
Definition slice (start stop : nat) (s : string) : string :=
  String.substring start (stop - start) s.

End PyStr.

(** ** Data model *)

(** An entry of a Python dictionary read with [d.get(key)]. *)
Inductive field (A : Type) : Type :=
| Missing
| Null
| Val (a : A).
Arguments Missing {A}.
Arguments Null {A}.
Arguments Val {A} a.

(** [d.get(key) or default], for a value type whose falsy values are
    recognised by [falsy]. *)
Definition get_or {A : Type} (falsy : A -> bool) (f : field A) (default : A) : A :=
  match f with
  | Val a => if falsy a then default else a
  | _ => default
  end.

Definition falsy_list {A : Type} (l : list A) : bool :=
  match l with [] => true | _ => false end.

Definition falsy_str (s : string) : bool :=
  match s with EmptyString => true | _ => false end.

Definition falsy_int (z : Z) : bool := (z =? 0)%Z.

(** The request. *)
Record criteria : Type := {
  industries : field (list string);
  functions : field (list string);
  levels : field (list string);
  free_text : field string;
  budget : field Z;
  geography : field string;
  profile_text : field string;
  linkedin_url : field string
}.

(** A credential entry is a list of strings or a single string, the two
    cases [_flatten_credentials] distinguishes with [isinstance]. *)
Inductive cred_val : Type :=
| CList (items : list string)
| CStr (s : string).

Record credentials_t : Type := {
  education : cred_val;
  formerCompanies : cred_val;
  notableProjects : cred_val;
  publications : cred_val
}.

(** A candidate.  [None] in an optional entry stands for a missing key, which
    [expert.get(key)] turns into [None]; list entries default to the empty
    list and the rate to 0, as in [expert.get(key, default)]. *)
Record expert : Type := {
  eid : option string;
  ename : option string;
  industryTags : list string;
  functionTags : list string;
  roleLevel : option string;
  ratePerHour : Z;
  yearsExperience : option Z;
  expertiseSummary : string;
  topicKeywords : list string;
  credentials : credentials_t;
  complianceFlags : list string
}.

(** ** Numbers of the scorer *)

Module PyNum.

Local Open Scope Q_scope.

Definition Qltb (a b : Q) : bool :=
  match Qcompare a b with Lt => true | _ => false end.

(** [min(a, b)]: the first argument unless the second is smaller. *)
Definition py_min (a b : Q) : Q := if Qltb b a then b else a.

(** [max(a, b)]: the first argument unless the second is greater. *)
Definition py_max (a b : Q) : Q := if Qltb a b then b else a.

(** Rounding to the nearest integer, ties to the even one. *)
Definition round_half_even (q : Q) : Z :=
  let f := Qfloor q in
  match Qcompare (q - inject_Z f)%Q (1 # 2)%Q with
  | Lt => f
  | Gt => (f + 1)%Z
  | Eq => if Z.even f then f else (f + 1)%Z
  end.

(** [round(q, 1)], taken on the exact value.  A total that is an odd
    multiple of 0.05 is a tie here and goes to the even tenth; the binary64
    number nearest to it lies on one side of the tie, and Python rounds it
    to that side. *)
Definition py_round1 (q : Q) : Q := round_half_even (q * 10) # 10.

(** [len(xs)] as a number. *)
Definition of_len (n : nat) : Q := inject_Z (Z.of_nat n).

End PyNum.

(** ** scoring.py *)

Module Scoring.

Import PyNum.

Definition STOPWORDS : gset string :=
  list_to_set
    [ "the"; "and"; "or"; "to"; "for"; "with"; "a"; "an"; "of"; "in"; "on";
      "by"; "is"; "are"; "from"; "that"; "this"; "we"; "our"; "their";
      "they"; "as"; "at"; "be"; "it"; "into"; "across"; "within"; "around";
      "over"; "need"; "looking"; "seeking" ].

Definition _tokenize (text : string) : list string :=
  match text with
  | EmptyString => []
  | _ =>
      let tokens := PyStr.findall_alnum (PyStr.lower text) in
      List.filter
        (fun t => negb (bool_decide (t ∈ STOPWORDS)) && (2 <? String.length t)%nat)
        tokens
  end.

Definition cred_parts (v : cred_val) : list string :=
  match v with
  | CList items => items
  | CStr s => [s]
  end.

Definition _flatten_credentials (e : expert) : string :=
  let cred := credentials e in
  let parts :=
    cred_parts (education cred) ++ cred_parts (formerCompanies cred) ++
    cred_parts (notableProjects cred) ++ cred_parts (publications cred) in
  PyStr.lower (PyStr.join " " parts).

(** The running total and the reasons collected so far. *)
Definition acc : Type := Q * list string.

(** [min(cap, cap * (len(overlap) / max(1, len(wanted))))] *)
Definition partial_credit (cap : Q) (overlap wanted : gset string) : Q :=
  py_min cap (cap * (of_len (size overlap) / of_len (Nat.max 1 (size wanted))))%Q.

Definition listed (n : nat) (s : gset string) : string :=
  PyStr.join ", " (take n (PyStr.sorted (elements s))).

Definition listed_all (s : gset string) : string :=
  PyStr.join ", " (PyStr.sorted (elements s)).

(** [set(criteria.get(key) or [])] *)
Definition wanted_set (f : field (list string)) : gset string :=
  list_to_set (get_or falsy_list f []).

Definition industry_signal (c : criteria) (e : expert) (a : acc) : acc :=
  let '(score, reasons) := a in
  let industries := wanted_set (industries c) in
  if decide (industries = ∅) then a
  else
    let overlap := industries ∩ list_to_set (industryTags e) in
    let industry_score := partial_credit 25 overlap industries in
    let score := (score + industry_score)%Q in
    if decide (overlap = ∅)
    then ((score - 12)%Q,
          reasons ++ ["Industry mismatch: no overlap with requested industries."])
    else (score, reasons ++ ["Industry match: " +:+ listed_all overlap +:+ "."]).

Definition function_signal (c : criteria) (e : expert) (a : acc) : acc :=
  let '(score, reasons) := a in
  let functions := wanted_set (functions c) in
  if decide (functions = ∅) then a
  else
    let overlap := functions ∩ list_to_set (functionTags e) in
    let function_score := partial_credit 25 overlap functions in
    let score := (score + function_score)%Q in
    if decide (overlap = ∅) then (score, reasons)
    else (score, reasons ++ ["Function match: " +:+ listed_all overlap +:+ "."]).

Definition level_signal (c : criteria) (e : expert) (a : acc) : acc :=
  let '(score, reasons) := a in
  let levels := wanted_set (levels c) in
  if decide (levels = ∅) then a
  else
    match roleLevel e with
    | Some lvl =>
        if decide (lvl ∈ levels)
        then ((score + 10)%Q, reasons ++ ["Role level match: " +:+ lvl +:+ "."])
        else a
    | None => a
    end.

Definition free_tokens (c : criteria) : gset string :=
  list_to_set (_tokenize (get_or falsy_str (free_text c) "")).

Definition expert_tokens (e : expert) : gset string :=
  list_to_set (_tokenize (expertiseSummary e)) ∪
  list_to_set (map PyStr.lower (topicKeywords e)).

Definition keyword_signal (c : criteria) (e : expert) (a : acc) : acc :=
  let '(score, reasons) := a in
  let free_tokens := free_tokens c in
  let keyword_overlap := free_tokens ∩ expert_tokens e in
  if decide (free_tokens = ∅) then a
  else
    let keyword_score := partial_credit 30 keyword_overlap free_tokens in
    let score := (score + keyword_score)%Q in
    if decide (keyword_overlap = ∅) then (score, reasons)
    else (score, reasons ++ ["Keyword overlap: " +:+ listed 6 keyword_overlap +:+ "."]).

(** [[t for t in free_tokens if t in cred_text]] *)
Definition cred_hits (c : criteria) (e : expert) : list string :=
  let cred_text := _flatten_credentials e in
  List.filter (fun t => PyStr.contains t cred_text) (elements (free_tokens c)).

(** Some free-text token occurs in the credential text: [cred_hits] is not
    empty. *)
Definition substring_hit (c : criteria) (e : expert) : bool :=
  existsb (fun t => PyStr.contains t (_flatten_credentials e)) (elements (free_tokens c)).

Definition credential_signal (c : criteria) (e : expert) (a : acc) : acc :=
  let '(score, reasons) := a in
  match cred_hits c e with
  | [] => a
  | hits =>
      ((score + 10)%Q,
       reasons ++ ["Credential signal: " +:+ listed 5 (list_to_set hits) +:+ "."])
  end.

Definition profile_signal (c : criteria) (e : expert) (a : acc) : acc :=
  let '(score, reasons) := a in
  let profile_tokens : gset string :=
    list_to_set (_tokenize (get_or falsy_str (profile_text c) "")) in
  if decide (profile_tokens = ∅) then a
  else
    let profile_overlap := profile_tokens ∩ expert_tokens e in
    let profile_score := partial_credit 10 profile_overlap profile_tokens in
    let score := (score + profile_score)%Q in
    if decide (profile_overlap = ∅) then (score, reasons)
    else (score, reasons ++ ["Profile match: " +:+ listed 6 profile_overlap +:+ "."]).

(** [criteria.get("budget") or 500] *)
Definition effective_budget (c : criteria) : Z :=
  get_or falsy_int (budget c) 500%Z.

(** [10 * min(1.0, (rate - budget) / max(1, budget))] *)
Definition rate_penalty (rate budget : Z) : Q :=
  (10 * py_min 1 (inject_Z (rate - budget) / inject_Z (Z.max 1 budget)))%Q.

Definition rate_signal (c : criteria) (e : expert) (a : acc) : acc :=
  let '(score, reasons) := a in
  let budget := effective_budget c in
  let rate := ratePerHour e in
  if (budget <? rate)%Z
  then ((score - rate_penalty rate budget)%Q,
        reasons ++ ["Rate above budget; slight penalty applied."])
  else a.

(** Lines 119-124 of [score_expert] on a rate and a budget that are any
    numbers: the code asks for no integers, and a request that does not
    come from the form may state a fractional budget.  [rate_signal] is the
    case of the integers that the request form and the expert file hold. *)
Definition rate_penalty_of (rate budget : Q) : Q :=
  (10 * py_min 1 ((rate - budget) / py_max 1 budget))%Q.

Definition rate_block (rate budget : Q) (a : acc) : acc :=
  let '(score, reasons) := a in
  if Qltb budget rate
  then ((score - rate_penalty_of rate budget)%Q,
        reasons ++ ["Rate above budget; slight penalty applied."])
  else a.

(** [max(0, min(100, round(score, 1)))] *)
Definition clamp_score (score : Q) : Q :=
  py_max 0 (py_min 100 (py_round1 score)).

(** The running total before the final rounding and clamping. *)
Definition raw_score (c : criteria) (e : expert) : acc :=
  rate_signal c e
    (profile_signal c e
      (credential_signal c e
        (keyword_signal c e
          (level_signal c e
            (function_signal c e
              (industry_signal c e (0%Q, []))))))).

Definition score_expert (c : criteria) (e : expert) : Q * list string :=
  let '(score, reasons) := raw_score c e in
  (clamp_score score, reasons).

End Scoring.

(** ** Ranking: [rank_experts] and the list sort it relies on *)

(** An entry of a ranking: the dictionary with keys ["expert"], ["score"] and
    ["match_reasons"]. *)
Record ranked_entry : Type := {
  r_expert : expert;
  r_score : Q;
  r_reasons : list string
}.

Module Ranking.

Import PyNum.

(** [xs.sort(key=lambda r: r["score"], reverse=True)].  Python's sort is
    stable, also with [reverse=True]: entries with equal keys keep their
    original order.  [insert_desc] puts [x], which precedes every element of
    [l] in the input, in front of the first entry whose score is not
    greater than its own. *)
Fixpoint insert_desc (x : ranked_entry) (l : list ranked_entry) : list ranked_entry :=
  match l with
  | [] => [x]
  | y :: l' =>
      if Qltb (r_score x) (r_score y) then y :: insert_desc x l' else x :: l
  end.

Definition sort_by_score_desc (l : list ranked_entry) : list ranked_entry :=
  foldr insert_desc [] l.

(** The entries whose score is [v], in the order of the list. *)
Definition with_score (v : Q) (l : list ranked_entry) : list ranked_entry :=
  List.filter (fun x => Qeq_bool (r_score x) v) l.

(** [x] comes no later than [y] in a descending ranking. *)
Definition score_ge (x y : ranked_entry) : Prop := (r_score y <= r_score x)%Q.

Definition rank_entry (c : criteria) (e : expert) : ranked_entry :=
  let '(score, reasons) := Scoring.score_expert c e in
  {| r_expert := e; r_score := score; r_reasons := reasons |}.

Definition rank_experts (c : criteria) (experts : list expert) : list ranked_entry :=
  sort_by_score_desc (map (rank_entry c) experts).

End Ranking.

(** ** app.py: history bonus and synthesis *)

(** One recommendation inside an agency response. *)
Record recommendation : Type := {
  rec_id : option string;
  fit_reason : option string
}.

Record agency_response : Type := {
  agency_name : option string;
  recommended_experts : list recommendation
}.

(** The ["tags"] entry of a stored interview. *)
Record history_item : Type := {
  h_industries : list string;
  h_functions : list string;
  h_topics : list string
}.

Module Synthesis.

Import PyNum.

(** [str(x)] for an optional string: [None] prints as ["None"]. *)
Definition str_opt (o : option string) : string :=
  match o with Some s => s | None => "None" end.

Definition overlap_count (tags : gset string) (others : list string) : Z :=
  Z.of_nat (size (tags ∩ list_to_set others)).

Definition _history_bonus (e : expert) (recent_history : list history_item) : Z :=
  match recent_history with
  | [] => 0
  | _ =>
      let industry_tags : gset string := list_to_set (industryTags e) in
      let function_tags : gset string := list_to_set (functionTags e) in
      let topic_tags : gset string := list_to_set (map PyStr.lower (topicKeywords e)) in
      let bonus :=
        foldl (fun bonus item =>
                 bonus + 2 * overlap_count industry_tags (h_industries item)
                       + 2 * overlap_count function_tags (h_functions item)
                       + overlap_count topic_tags (map PyStr.lower (h_topics item)))%Z
              0%Z recent_history in
      Z.min 10 bonus
  end.

(** The two dictionaries filled by the loop over the agency responses. *)
Definition mentions_t : Type := gmap string Z * gmap string (list string).

Definition note_recommendation (agency : agency_response)
    (m : mentions_t) (rec : recommendation) : mentions_t :=
  let '(agency_mentions, agency_reasons) := m in
  match rec_id rec with
  | None => m
  | Some "" => m
  | Some expert_id =>
      let reason := str_opt (agency_name agency) +:+ ": " +:+ str_opt (fit_reason rec) in
      (<[expert_id := (default 0%Z (agency_mentions !! expert_id) + 1)%Z]> agency_mentions,
       <[expert_id := default [] (agency_reasons !! expert_id) ++ [reason]]> agency_reasons)
  end.

Definition collect_mentions (agency_responses : list agency_response) : mentions_t :=
  foldl (fun m agency => foldl (note_recommendation agency) m (recommended_experts agency))
        (∅, ∅) agency_responses.

(** [{item["expert"]["id"]: item["score"] for item in ranked}]; [None] when
    an entry's expert has no ["id"] key ([KeyError]). *)
Fixpoint base_scores_of (ranked : list ranked_entry) (acc : gmap string Q)
    : option (gmap string Q) :=
  match ranked with
  | [] => Some acc
  | item :: rest =>
      match eid (r_expert item) with
      | Some i => base_scores_of rest (<[i := r_score item]> acc)
      | None => None
      end
  end.

(** The body of the loop over the pool, for an expert whose id is [i]. *)
Definition compile_entry (m : mentions_t) (base_scores : gmap string Q)
    (recent_history : list history_item) (e : expert) (i : string) : ranked_entry :=
  let '(agency_mentions, agency_reasons) := m in
  let base := default 0%Q (base_scores !! i) in
  let agency_bonus := Z.min 15 (5 * default 0%Z (agency_mentions !! i)) in
  let history_bonus := _history_bonus e recent_history in
  let final_score :=
    Scoring.clamp_score (base + inject_Z agency_bonus + inject_Z history_bonus)%Q in
  let reasons1 :=
    if (agency_bonus =? 0)%Z then []
    else ("Agency recommendations: " +:+ PyStr.str_of_Z (default 0%Z (agency_mentions !! i)))
           :: default [] (agency_reasons !! i) in
  let reasons2 :=
    if (history_bonus =? 0)%Z then reasons1
    else reasons1 ++ ["Aligned with past interview history tags."] in
  {| r_expert := e;
     r_score := final_score;
     r_reasons := match reasons2 with [] => ["Matches core criteria."] | _ => reasons2 end |}.

(** The loop over the pool; [None] when an expert has no ["id"] key. *)
Fixpoint compile_all (m : mentions_t) (base_scores : gmap string Q)
    (recent_history : list history_item) (experts : list expert)
    : option (list ranked_entry) :=
  match experts with
  | [] => Some []
  | e :: rest =>
      match eid e with
      | Some i =>
          match compile_all m base_scores recent_history rest with
          | Some compiled => Some (compile_entry m base_scores recent_history e i :: compiled)
          | None => None
          end
      | None => None
      end
  end.

Definition _synthesize_recommendations (c : criteria) (experts : list expert)
    (ranked : list ranked_entry) (agency_responses : list agency_response)
    (recent_history : list history_item) : option (list ranked_entry) :=
  let m := collect_mentions agency_responses in
  match base_scores_of ranked ∅ with
  | None => None
  | Some base_scores =>
      match compile_all m base_scores recent_history experts with
      | Some compiled => Some (Ranking.sort_by_score_desc compiled)
      | None => None
      end
  end.

End Synthesis.

(** ** hashlib.md5 (RFC 1321) *)

Module MD5.

Local Open Scope Z_scope.

Definition mask32 (x : Z) : Z := Z.land x 0xffffffff.

Definition add32 (x y : Z) : Z := mask32 (x + y).

Definition not32 (x : Z) : Z := Z.lxor x 0xffffffff.

Definition rotl32 (x n : Z) : Z :=
  mask32 (Z.lor (Z.shiftl x n) (Z.shiftr x (32 - n))).

(** The per-round shift amounts. *)
Definition SHIFTS : list Z :=
  [ 7; 12; 17; 22; 7; 12; 17; 22; 7; 12; 17; 22; 7; 12; 17; 22;
    5; 9; 14; 20; 5; 9; 14; 20; 5; 9; 14; 20; 5; 9; 14; 20;
    4; 11; 16; 23; 4; 11; 16; 23; 4; 11; 16; 23; 4; 11; 16; 23;
    6; 10; 15; 21; 6; 10; 15; 21; 6; 10; 15; 21; 6; 10; 15; 21 ].

(** [K[i] = floor(2^32 * abs(sin(i + 1)))] *)
Definition K : list Z :=
  [ 0xd76aa478; 0xe8c7b756; 0x242070db; 0xc1bdceee;
    0xf57c0faf; 0x4787c62a; 0xa8304613; 0xfd469501;
    0x698098d8; 0x8b44f7af; 0xffff5bb1; 0x895cd7be;
    0x6b901122; 0xfd987193; 0xa679438e; 0x49b40821;
    0xf61e2562; 0xc040b340; 0x265e5a51; 0xe9b6c7aa;
    0xd62f105d; 0x02441453; 0xd8a1e681; 0xe7d3fbc8;
    0x21e1cde6; 0xc33707d6; 0xf4d50d87; 0x455a14ed;
    0xa9e3e905; 0xfcefa3f8; 0x676f02d9; 0x8d2a4c8a;
    0xfffa3942; 0x8771f681; 0x6d9d6122; 0xfde5380c;
    0xa4beea44; 0x4bdecfa9; 0xf6bb4b60; 0xbebfbc70;
    0x289b7ec6; 0xeaa127fa; 0xd4ef3085; 0x04881d05;
    0xd9d4d039; 0xe6db99e5; 0x1fa27cf8; 0xc4ac5665;
    0xf4292244; 0x432aff97; 0xab9423a7; 0xfc93a039;
    0x655b59c3; 0x8f0ccc92; 0xffeff47d; 0x85845dd1;
    0x6fa87e4f; 0xfe2ce6e0; 0xa3014314; 0x4e0811a1;
    0xf7537e82; 0xbd3af235; 0x2ad7d2bb; 0xeb86d391 ].

Definition nthZ (l : list Z) (i : nat) : Z := nth i l 0.

(** The message as bytes: [s.encode("utf-8")] on ASCII text. *)
Definition bytes_of_string (s : string) : list Z :=
  map (fun c => Z.of_nat (nat_of_ascii c)) (list_ascii_of_string s).

(** [n] as [k] little-endian bytes. *)
Fixpoint le_bytes (k : nat) (n : Z) : list Z :=
  match k with
  | O => []
  | S k' => Z.land n 0xff :: le_bytes k' (Z.shiftr n 8)
  end.

(** Padding: a 1 bit, zeros up to 56 modulo 64, then the bit length on 64
    bits, little-endian. *)
Definition pad (msg : list Z) : list Z :=
  let len := Z.of_nat (length msg) in
  let zeros := Z.to_nat ((55 - len) mod 64) in
  msg ++ [0x80] ++ repeat 0 zeros ++ le_bytes 8 (Z.land (8 * len) 0xffffffffffffffff).

Fixpoint word_le (bs : list Z) : Z :=
  match bs with
  | [] => 0
  | b :: bs' => b + 256 * word_le bs'
  end.

(** Little-endian 32-bit words of a byte sequence. *)
Fixpoint words_of (n : nat) (bs : list Z) : list Z :=
  match n with
  | O => []
  | S n' => word_le (take 4 bs) :: words_of n' (drop 4 bs)
  end.

Definition state : Type := Z * Z * Z * Z.

Definition step (M : list Z) (st : state) (i : nat) : state :=
  let '(A, B, C, D) := st in
  let '(F, g) :=
    if (i <? 16)%nat then (Z.lor (Z.land B C) (Z.land (not32 B) D), i)
    else if (i <? 32)%nat then (Z.lor (Z.land D B) (Z.land (not32 D) C), (5 * i + 1) mod 16)%nat
    else if (i <? 48)%nat then (Z.lxor (Z.lxor B C) D, (3 * i + 5) mod 16)%nat
    else (Z.lxor C (Z.lor B (not32 D)), (7 * i) mod 16)%nat in
  let F := add32 (add32 (add32 F A) (nthZ K i)) (nthZ M g) in
  (D, add32 B (rotl32 F (nthZ SHIFTS i)), B, C).

Definition process_block (st : state) (block : list Z) : state :=
  let M := words_of 16 block in
  let '(A, B, C, D) := foldl (step M) st (seq 0 64) in
  let '(a0, b0, c0, d0) := st in
  (add32 a0 A, add32 b0 B, add32 c0 C, add32 d0 D).

Fixpoint process (nblocks : nat) (st : state) (bs : list Z) : state :=
  match nblocks with
  | O => st
  | S n' => process n' (process_block st (take 64 bs)) (drop 64 bs)
  end.

Definition init : state := (0x67452301, 0xefcdab89, 0x98badcfe, 0x10325476).

Definition digest (msg : list Z) : list Z :=
  let padded := pad msg in
  let '(A, B, C, D) := process (length padded / 64) init padded in
  le_bytes 4 A ++ le_bytes 4 B ++ le_bytes 4 C ++ le_bytes 4 D.

Definition hex_digit (n : Z) : ascii :=
  nth (Z.to_nat n) (list_ascii_of_string "0123456789abcdef") "0"%char.

Fixpoint hex_of_bytes (bs : list Z) : string :=
  match bs with
  | [] => EmptyString
  | b :: bs' => String (hex_digit (b / 16)) (String (hex_digit (b mod 16)) (hex_of_bytes bs'))
  end.

(** [hashlib.md5(s.encode("utf-8")).hexdigest()] *)
Definition hexdigest (s : string) : string :=
  hex_of_bytes (digest (bytes_of_string s)).

End MD5.

(** ** random.Random: the Mersenne Twister MT19937 as CPython seeds and draws it *)

Module PyRandom.

Local Open Scope Z_scope.

Definition N : nat := 624.
Definition M : nat := 397.
Definition MATRIX_A : Z := 0x9908b0df.
Definition UPPER_MASK : Z := 0x80000000.
Definition LOWER_MASK : Z := 0x7fffffff.

Definition mask32 (x : Z) : Z := Z.land x 0xffffffff.

(** The generator: the 624 state words and the index of the next one. *)
Record rng : Type := { mt : list Z; mti : nat }.

Definition word (st : list Z) (i : nat) : Z := nth i st 0.

(** [init_genrand(s)] *)
Fixpoint init_genrand_from (k : nat) (i : nat) (prev : Z) : list Z :=
  match k with
  | O => []
  | S k' =>
      let x := mask32 (1812433253 * Z.lxor prev (Z.shiftr prev 30) + Z.of_nat i) in
      x :: init_genrand_from k' (S i) x
  end.

Definition init_genrand (s : Z) : list Z :=
  mask32 s :: init_genrand_from (N - 1) 1 (mask32 s).

(** After the increment of [i] in [init_by_array]: wrap around at [N]. *)
Definition wrap (st : list Z) (i : nat) : list Z * nat :=
  if (N <=? i)%nat then (<[0%nat := word st (N - 1)]> st, 1%nat) else (st, i).

Fixpoint key_loop (k : nat) (key : list Z) (st : list Z) (i j : nat) : list Z * nat :=
  match k with
  | O => (st, i)
  | S k' =>
      let prev := word st (i - 1) in
      let x := mask32 (Z.lxor (word st i) (Z.lxor prev (Z.shiftr prev 30) * 1664525)
                       + nth j key 0 + Z.of_nat j) in
      let '(st, i) := wrap (<[i := x]> st) (S i) in
      let j := if (length key <=? S j)%nat then O else S j in
      key_loop k' key st i j
  end.

Fixpoint final_loop (k : nat) (st : list Z) (i : nat) : list Z :=
  match k with
  | O => st
  | S k' =>
      let prev := word st (i - 1) in
      let x := mask32 (Z.lxor (word st i) (Z.lxor prev (Z.shiftr prev 30) * 1566083941)
                       - Z.of_nat i) in
      let '(st, i) := wrap (<[i := x]> st) (S i) in
      final_loop k' st i
  end.

Definition init_by_array (key : list Z) : list Z :=
  let st := init_genrand 19650218 in
  let '(st, i) := key_loop (Nat.max N (length key)) key st 1 0 in
  let st := final_loop (N - 1) st i in
  <[0%nat := 0x80000000]> st.

(** The 32-bit words of a non-negative integer, least significant first;
    at least one word. *)
Fixpoint key_words (fuel : nat) (a : Z) : list Z :=
  match fuel with
  | O => []
  | S fuel' =>
      if a <? 0x100000000 then [a]
      else mask32 a :: key_words fuel' (Z.shiftr a 32)
  end.

(** [random.Random(seed)] for an integer seed. *)
Definition Random (seed : Z) : rng :=
  let a := Z.abs seed in
  {| mt := init_by_array (key_words (S (Z.to_nat (Z.log2 a))) a); mti := N |}.

(** Regeneration of the 624 words, in place. *)
Definition twist_at (st : list Z) (kk : nat) : list Z :=
  let y := Z.lor (Z.land (word st kk) UPPER_MASK)
                 (Z.land (word st ((kk + 1) mod N)) LOWER_MASK) in
  let mag := if Z.odd y then MATRIX_A else 0 in
  <[kk := Z.lxor (Z.lxor (word st ((kk + M) mod N)) (Z.shiftr y 1)) mag]> st.

Definition twist (st : list Z) : list Z := foldl twist_at st (seq 0 N).

Definition temper (y : Z) : Z :=
  let y := Z.lxor y (Z.shiftr y 11) in
  let y := Z.lxor y (Z.land (Z.shiftl y 7) 0x9d2c5680) in
  let y := Z.lxor y (Z.land (Z.shiftl y 15) 0xefc60000) in
  Z.lxor y (Z.shiftr y 18).

(** [genrand_uint32] *)
Definition genrand_uint32 (g : rng) : Z * rng :=
  let '(st, i) := if (N <=? mti g)%nat then (twist (mt g), O) else (mt g, mti g) in
  (temper (word st i), {| mt := st; mti := S i |}).

(** [getrandbits(k)] for [0 < k <= 32] *)
Definition getrandbits (k : Z) (g : rng) : Z * rng :=
  let '(y, g) := genrand_uint32 g in (Z.shiftr y (32 - k), g).

Definition bit_length (n : Z) : Z := if n =? 0 then 0 else Z.log2 n + 1.

(** *** Drawing: computations that thread the generator

    [_randbelow] draws until the value is below the bound, and nothing in
    Python bounds the number of draws this takes.  A computation is
    therefore given the number of draws, [tries], that each such loop may
    make, and yields [None] when a loop would need more.  The call returns
    [a] when some number of tries yields [a]; every greater number then
    yields [a] as well. *)

Definition draw (A : Type) : Type := nat -> rng -> option (A * rng).

Definition ret {A : Type} (a : A) : draw A := fun _ g => Some (a, g).

Definition bind {A B : Type} (m : draw A) (k : A -> draw B) : draw B :=
  fun tries g => match m tries g with
                 | Some (a, g') => k a tries g'
                 | None => None
                 end.

(** [r = getrandbits(k); while r >= n: r = getrandbits(k)] *)
Fixpoint randbelow_loop (tries : nat) (k n : Z) (g : rng) : option (Z * rng) :=
  match tries with
  | O => None
  | S tries' =>
      let '(r, g') := getrandbits k g in
      if r <? n then Some (r, g') else randbelow_loop tries' k n g'
  end.

(** [_randbelow(n)] for [0 < n <= 2^32] *)
Definition randbelow (n : Z) : draw Z :=
  fun tries => randbelow_loop tries (bit_length n) n.

(** [randint(a, b)] *)
Definition randint (a b : Z) : draw Z :=
  bind (randbelow (b - a + 1)) (fun r => ret (a + r)).

(** [x[i], x[j] = x[j], x[i]] *)
Definition swap {A : Type} (x : list A) (i j : nat) : list A :=
  match x !! i, x !! j with
  | Some xi, Some xj => <[j := xi]> (<[i := xj]> x)
  | _, _ => x
  end.

(** The loop of [shuffle]: [for i in reversed(range(1, len(x)))]; [i] runs
    from [n] down to 1. *)
Fixpoint shuffle_from {A : Type} (n : nat) (x : list A) : draw (list A) :=
  match n with
  | O => ret x
  | S i' =>
      bind (randbelow (Z.of_nat n + 1))
           (fun j => shuffle_from i' (swap x n (Z.to_nat j)))
  end.

(** [shuffle(x)] *)
Definition shuffle {A : Type} (x : list A) : draw (list A) :=
  shuffle_from (length x - 1) x.

(** [choice(seq)] for a non-empty sequence; [d] fills the type. *)
Definition choice {A : Type} (d : A) (seq : list A) : draw A :=
  bind (randbelow (Z.of_nat (length seq))) (fun i => ret (nth (Z.to_nat i) seq d)).

(** [random()] is [(a * 2^26 + b) / 2^53] for [a], [b] the top 27 and 26
    bits of two draws.  The float 0.4 is [3602879701896397 / 2^53], so
    [random() < 0.4] compares the numerators. *)
Definition random_numerator : draw Z :=
  fun _ g =>
    let '(a, g) := genrand_uint32 g in
    let '(b, g) := genrand_uint32 g in
    Some (Z.shiftr a 5 * 67108864 + Z.shiftr b 6, g).

Definition random_below_0_4 : draw bool :=
  bind random_numerator (fun n => ret (n <? 3602879701896397)).

End PyRandom.

(** ** generation.py *)

(** A calendar date, as [datetime.utcnow().date()] yields it. *)
Record date : Type := { year : Z; month : Z; day : Z }.

(** What a call can read of the process it runs in, besides its
    arguments: the clock, and the order in which a set of strings is
    iterated over, which follows from the salt that the process gives to the
    built-in [hash] and is a rearrangement of the members of the set. *)
Record world : Type := {
  utc_today : date;                              (* [datetime.utcnow().date()] *)
  iteration_order : gset string -> list string   (* [list(s)] for a set [s] *)
}.

(** An argument of [_stable_seed]: [None], a string, an integer, the request
    dictionary, a date, a list of strings, a set of strings, a list of sets
    of strings, or a dictionary with one key that holds a set of strings. *)
Inductive part : Type :=
| PNone
| PStr (s : string)
| PInt (z : Z)
| PCriteria (c : criteria)
| PDate (d : date)
| PList (l : list string)
| PSet (s : gset string)
| PSets (l : list (gset string))
| PDictSet (key : string) (s : gset string).

Module Json.

Definition dquote : string := String (ascii_of_nat 34) EmptyString.

Definition hex_digit (n : nat) : ascii :=
  nth n (list_ascii_of_string "0123456789abcdef") "0"%char.

(** The escape [\u00XX]. *)
Definition u_escape (n : nat) : string :=
  "\u00" +:+ String (hex_digit (n / 16)) (String (hex_digit (n mod 16)) EmptyString).

(** [json.dumps] escapes the quote, the backslash and every character
    outside the printable range from space to tilde. *)
Definition escape_char (c : ascii) : string :=
  let n := PyStr.code c in
  if (n =? 34)%nat then "\" +:+ dquote
  else if (n =? 92)%nat then "\\"
  else if (n =? 10)%nat then "\n"
  else if (n =? 13)%nat then "\r"
  else if (n =? 9)%nat then "\t"
  else if (n =? 8)%nat then "\b"
  else if (n =? 12)%nat then "\f"
  else if (n <? 32)%nat || (126 <? n)%nat then u_escape n
  else String c EmptyString.

Fixpoint escape (s : string) : string :=
  match s with
  | EmptyString => EmptyString
  | String c s' => escape_char c +:+ escape s'
  end.

Definition of_str (s : string) : string := dquote +:+ escape s +:+ dquote.

Definition of_list (l : list string) : string :=
  "[" +:+ PyStr.join ", " (map of_str l) +:+ "]".

(** One ["key": value] item, absent when the key is missing. *)
Definition item {A : Type} (key : string) (enc : A -> string) (f : field A) : list string :=
  match f with
  | Missing => []
  | Null => [of_str key +:+ ": null"]
  | Val a => [of_str key +:+ ": " +:+ enc a]
  end.

(** [json.dumps(criteria, sort_keys=True)]: the items in key order. *)
Definition dumps (c : criteria) : string :=
  "{" +:+
  PyStr.join ", "
    (item "budget" PyStr.str_of_Z (budget c) ++
     item "free_text" of_str (free_text c) ++
     item "functions" of_list (functions c) ++
     item "geography" of_str (geography c) ++
     item "industries" of_list (industries c) ++
     item "levels" of_list (levels c) ++
     item "linkedin_url" of_str (linkedin_url c) ++
     item "profile_text" of_str (profile_text c)) +:+
  "}".

End Json.

Module Seed.

Local Open Scope Z_scope.

(** [n] in decimal, padded with zeros to [width] digits. *)
Definition zero_pad (width : nat) (n : Z) : string :=
  let s := PyStr.str_of_Z n in
  string_of_list_ascii (repeat "0"%char (width - String.length s)) +:+ s.

(** [str(d)] for a date: [YYYY-MM-DD]. *)
Definition str_of_date (d : date) : string :=
  zero_pad 4 (year d) +:+ "-" +:+ zero_pad 2 (month d) +:+ "-" +:+ zero_pad 2 (day d).

(** The escape [\xNN]. *)
Definition x_escape (n : nat) : string :=
  "\x" +:+ String (Json.hex_digit (n / 16)) (String (Json.hex_digit (n mod 16)) EmptyString).

Definition repr_char (quote : ascii) (c : ascii) : string :=
  let n := PyStr.code c in
  if Ascii.eqb c quote || (n =? 92)%nat then String "\" (String c EmptyString)
  else if (n =? 9)%nat then "\t"
  else if (n =? 10)%nat then "\n"
  else if (n =? 13)%nat then "\r"
  else if (n <? 32)%nat || (n =? 127)%nat then x_escape n
  else String c EmptyString.

(** [repr(s)] for a string: in single quotes, or in double quotes when the
    string holds a single quote and no double quote. *)
Definition repr (s : string) : string :=
  let quote :=
    if PyStr.contains "'" s && negb (PyStr.contains Json.dquote s)
    then ascii_of_nat 34 else "'"%char in
  String quote (PyStr.join "" (map (repr_char quote) (list_ascii_of_string s)))
    +:+ String quote EmptyString.

(** [str(s)] for a set of strings: its members in the order in which the
    process iterates over it. *)
Definition str_of_set (w : world) (s : gset string) : string :=
  match iteration_order w s with
  | [] => "set()"
  | members => "{" +:+ PyStr.join ", " (map repr members) +:+ "}"
  end.

(** [str(l)] for a list of sets of strings. *)
Definition str_of_sets (w : world) (l : list (gset string)) : string :=
  "[" +:+ PyStr.join ", " (map (str_of_set w) l) +:+ "]".

(** [json.dumps(l, sort_keys=True)] for a list of sets of strings: a set is
    not serializable, so that only the empty list is; [None] stands for the
    [TypeError]. *)
Definition dumps_sets (l : list (gset string)) : option string :=
  match l with
  | [] => Some "[]"
  | _ :: _ => None
  end.

(** [json.dumps(d, sort_keys=True)] for a dictionary that holds a set:
    always the [TypeError]. *)
Definition dumps_dict_set (key : string) (s : gset string) : option string := None.

(** [str(d)] for the dictionary [{key: s}]. *)
Definition str_of_dict_set (w : world) (key : string) (s : gset string) : string :=
  "{" +:+ repr key +:+ ": " +:+ str_of_set w s +:+ "}".

(** A dictionary or a list goes through [json.dumps] with sorted keys, and
    through [str] when that raises; every other part goes through [str]. *)
Definition _normalize_part (w : world) (p : part) : string :=
  match p with
  | PCriteria c => Json.dumps c
  | PList l => Json.of_list l
  | PSets l =>
      match dumps_sets l with
      | Some text => text
      | None => str_of_sets w l
      end
  | PDictSet key s =>
      match dumps_dict_set key s with
      | Some text => text
      | None => str_of_dict_set w key s
      end
  | PStr s => s
  | PInt z => PyStr.str_of_Z z
  | PDate d => str_of_date d
  | PNone => "None"
  | PSet s => str_of_set w s
  end.

(** The parts whose text no process state enters: all but the sets and
    the lists and dictionaries that hold one. *)
Definition plain (p : part) : bool :=
  match p with
  | PSet _ => false
  | PSets l => falsy_list l
  | PDictSet _ _ => false
  | _ => true
  end.

Definition is_none (p : part) : bool :=
  match p with PNone => true | _ => false end.

(** [[_normalize_part(p) for p in parts if p is not None]] *)
Definition canonical_strings (w : world) (parts : list part) : list string :=
  map (_normalize_part w) (List.filter (fun p => negb (is_none p)) parts).

(** ["|".join(...)] *)
Definition joined (w : world) (parts : list part) : string :=
  PyStr.join "|" (canonical_strings w parts).

(** The separator does not occur in [s]. *)
Definition sep_free (s : string) : bool := negb (PyStr.contains "|" s).

Definition hex_value (c : ascii) : Z :=
  let n := Z.of_nat (PyStr.code c) in
  if PyStr.is_digit c then n - 48 else n - 87.

(** [int(s, 16)] on lower-case hexadecimal digits. *)
Definition int16 (s : string) : Z :=
  foldl (fun acc c => 16 * acc + hex_value c) 0 (list_ascii_of_string s).

Definition _stable_seed (w : world) (parts : list part) : Z :=
  let digest := MD5.hexdigest (joined w parts) in
  int16 (PyStr.slice 0 12 digest).

End Seed.

Module Generation.

Import PyRandom.

Notation "'let*' x ':=' m 'in' k" := (bind m (fun x => k))
  (at level 10, x name, m at level 100, k at level 200).

Definition STOPWORDS : gset string :=
  list_to_set
    [ "the"; "and"; "or"; "to"; "for"; "with"; "a"; "an"; "of"; "in"; "on";
      "by"; "is"; "are"; "from"; "that"; "this"; "we"; "our"; "their";
      "they"; "as"; "at"; "be"; "it"; "into"; "across"; "within"; "around";
      "over"; "need"; "looking"; "seeking" ].

Definition _tokenize (text : string) : list string :=
  match text with
  | EmptyString => []
  | _ =>
      let tokens := PyStr.findall_alnum (PyStr.lower text) in
      List.filter
        (fun t => negb (bool_decide (t ∈ STOPWORDS)) && (2 <? String.length t)%nat)
        tokens
  end.

Definition lines (ls : list string) : string :=
  PyStr.join (String PyStr.newline EmptyString) ls.

Definition opt_part (o : option string) : part :=
  match o with Some s => PStr s | None => PNone end.

Definition str_opt (o : option string) : string :=
  match o with Some s => s | None => "None" end.

Definition str_opt_Z (o : option Z) : string :=
  match o with Some z => PyStr.str_of_Z z | None => "None" end.

(** [for item in items: if item not in themes: themes.append(item)] *)
Definition append_new (themes items : list string) : list string :=
  foldl (fun themes item => if PyStr.mem item themes then themes else themes ++ [item])
        themes items.

(** [criteria.get("free_text", "")], with [None] read as no text. *)
Definition free_text_or_empty (c : criteria) : string :=
  match free_text c with Val s => s | _ => "" end.

Definition _pick_themes (c : criteria) (e : expert) (max_themes : nat)
    : draw (list string) :=
  let themes := get_or falsy_list (functions c) [] in
  let themes := append_new themes (get_or falsy_list (industries c) []) in
  let themes := append_new themes (_tokenize (free_text_or_empty c)) in
  let themes := append_new themes (topicKeywords e) in
  let* themes := shuffle themes in
  ret (take max_themes themes).

(** [themes.insert(0, refine_text.strip().capitalize()); themes = themes[:4]]
    when [refine_text] is not empty. *)
Definition refine_themes (refine_text : string) (themes : list string) : list string :=
  match refine_text with
  | EmptyString => themes
  | _ => take 4 (PyStr.capitalize (PyStr.strip refine_text) :: themes)
  end.

(** [xs = shuffled(xs)[: randint(lo, hi)]] *)
Definition shuffled_prefix (xs : list string) (lo hi : Z) : draw (list string) :=
  let* xs := shuffle xs in
  let* n := randint lo hi in
  ret (take (Z.to_nat n) xs).

Fixpoint mapM {A B : Type} (f : A -> draw B) (l : list A) : draw (list B) :=
  match l with
  | [] => ret []
  | x :: l' => let* y := f x in let* ys := mapM f l' in ret (y :: ys)
  end.

Record section : Type := {
  s_theme : string;
  s_rationale : string;
  s_questions : list string;
  s_followups : list string
}.

Definition main_section (depth : string) (theme : string) : draw section :=
  let base_questions :=
    [ "What are the top value drivers in " +:+ theme +:+ " today?";
      "How do you structure decision criteria for " +:+ theme +:+ " initiatives?";
      "What data or metrics are essential to manage " +:+ theme +:+ " performance?";
      "Where do teams typically underestimate effort in " +:+ theme +:+ "?";
      "How should leaders sequence improvements in " +:+ theme +:+ "?";
      "What are the most common failure modes in " +:+ theme +:+ "?" ] in
  let* base_questions := shuffle base_questions in
  let q_count := if String.eqb depth "High-level" then 3%nat else 5%nat in
  let selected := take q_count base_questions in
  let followups :=
    [ "Can you share an illustrative example and the key outcomes?";
      "What would you measure in the first 30 days?";
      "How did you align incentives across teams?";
      "What was the fastest lever to change?" ] in
  let* followups := shuffle followups in
  ret {| s_theme := theme;
         s_rationale := "Prioritized due to relevance to " +:+ theme +:+ " and the stated request.";
         s_questions := selected;
         s_followups := take 2 followups |}.

Definition section_lines (s : section) : list string :=
  ["### Theme: " +:+ s_theme s; "- Rationale: " +:+ s_rationale s] ++
  map (fun q => "- Q: " +:+ q) (s_questions s) ++
  map (fun f => "- Follow-up: " +:+ f) (s_followups s) ++
  [""].

Definition script_body (c : criteria) (e : expert) (depth refine_text : string)
    : draw string :=
  let industries := PyStr.join ", " (get_or falsy_list (industries c) ["General"]) in
  let functions := PyStr.join ", " (get_or falsy_list (functions c) ["General"]) in
  let levels := PyStr.join ", " (get_or falsy_list (levels c) ["Any level"]) in
  let* objectives := shuffled_prefix
    [ "Validate practical experience across " +:+ industries +:+ ".";
      "Understand key " +:+ functions +:+ " levers and trade-offs.";
      "Capture constraints and risks for " +:+ levels +:+ " roles.";
      "Collect actionable benchmarks and illustrative metrics.";
      "Identify follow-on experts and sources." ] 3 5 in
  let* themes := _pick_themes c e 4 in
  let themes := refine_themes refine_text themes in
  let* qualification_questions := shuffled_prefix
    [ "Describe your direct responsibility for the relevant scope.";
      "What is the most recent project you led in this domain?";
      "Which geographies and segments were in scope?";
      "What were the top constraints or risks you faced?";
      "How did you avoid conflicts of interest or sensitive topics?";
      "What metrics did you personally own or review?";
      "Which stakeholders were decisive in the outcome?";
      "What was out of scope that we should avoid here?";
      "What would be a red-flag sign that this approach fails?";
      "Which trade-offs were most material to decision making?" ] 6 9 in
  let* main_sections := mapM (main_section depth) themes in
  let* wrap_up := shuffled_prefix
    [ "What metrics or artifacts should we request to validate assumptions?";
      "Who else should we speak with to triangulate this topic?";
      "What signals would change your recommendation?";
      "What is the most important watch-out for this engagement?";
      "Any final compliance reminders or boundaries we should respect?" ] 3 5 in
  ret (lines
    (["# Expert Interview Script: " +:+ str_opt (ename e); ""; "## Interview Objective"] ++
     map (fun obj => "- " +:+ obj) objectives ++
     [""; "## 1) Filtering / Qualification (first 8-10 min)"] ++
     map (fun q => "- Q: " +:+ q) qualification_questions ++
     ["- Red flags to watch: lack of direct ownership, outdated experience, or compliance gaps.";
      "- Follow-ups: clarify scope, recency, and avoided topics.";
      "";
      "## 2) Main Business Topics"] ++
     concat (map section_lines main_sections) ++
     ["## 3) Wrap-up"] ++
     map (fun q => "- Q: " +:+ q) wrap_up ++
     ["- Request metrics or artifacts (clean, non-confidential).";
      "- Suggested next experts: peer function lead, adjacent industry operator.";
      "- Compliance reminder: avoid confidential or MNPI details."])).

(** The result of a drawing computation run on a fresh generator, as a
    function of the number of tries that each [_randbelow] loop may make. *)
Definition run {A : Type} (seed : Z) (m : draw A) : nat -> option A :=
  fun tries => option_map fst (m tries (Random seed)).

Definition generate_script (w : world) (c : criteria) (e : expert) (length_minutes : Z)
    (tone depth refine_text : string) : nat -> option string :=
  let seed :=
    Seed._stable_seed w
      [opt_part (eid e); PCriteria c; PInt length_minutes; PStr tone; PStr depth;
       PStr refine_text] in
  run seed (script_body c e depth refine_text).

(** *** generate_transcript *)

Definition q_templates : list (string -> string) :=
  [ (fun theme => "Consultant: How would you describe the current state of " +:+ theme +:+ "?");
    (fun theme => "Consultant: What are the top two levers you see in " +:+ theme +:+ "?");
    (fun theme => "Consultant: Where do teams lose time or money in " +:+ theme +:+ "?");
    (fun theme => "Consultant: What metrics do you track for " +:+ theme +:+ "?") ].

Definition a_templates : list (Z -> Z -> string) :=
  [ (fun num num2 =>
       "Expert: In my experience, the biggest driver is alignment between teams and clear ownership. We saw illustrative gains of "
       +:+ PyStr.str_of_Z num +:+ "% when governance was tightened.");
    (fun num num2 =>
       "Expert: The baseline varies, but a reasonable illustrative range is "
       +:+ PyStr.str_of_Z num +:+ "-" +:+ PyStr.str_of_Z num2 +:+ "%. The key is sequencing the work.");
    (fun num num2 =>
       "Expert: The first 30 days should focus on data quality and quick wins. We typically measured cycle time and cost-to-serve.");
    (fun num num2 =>
       "Expert: I would avoid any competitor-sensitive details, but broadly the pattern is consistent across operators.") ].

(** One pass of the inner loop: a question, an answer and, with
    probability 0.4, a clarification exchange. *)
Definition turn (theme : string) : draw (list string) :=
  let* q := choice (fun _ => "") q_templates in
  let* n1 := randint 5 25 in
  let* d := randint 5 20 in
  let n2 := (n1 + d)%Z in
  let* a := choice (fun _ _ => "") a_templates in
  let* clarify := random_below_0_4 in
  ret ([q theme; a n1 n2] ++
       if clarify
       then [ "Consultant: Can you clarify the constraint behind that?";
              "Expert: Constraints were usually resource bandwidth and change management; we kept efforts scoped to non-confidential data." ]
       else []).

Definition theme_turns (depth : string) (theme : string) : draw (list string) :=
  let turns := if String.eqb depth "High-level" then 2%nat else 3%nat in
  let* ts := mapM (fun _ => turn theme) (seq 0 turns) in
  ret (concat ts ++ [""]).

Definition transcript_body (c : criteria) (e : expert) (tone depth refine_text : string)
    : draw string :=
  let* themes := _pick_themes c e 4 in
  let themes := refine_themes refine_text themes in
  let intro :=
    [ "Consultant: Thanks for joining today. We will keep this high level and avoid confidential specifics.";
      "Expert: Happy to help. I'll stay within compliance boundaries: "
      +:+ PyStr.join ", " (complianceFlags e) +:+ "." ] in
  let* blocks := mapM (theme_turns depth) themes in
  let body :=
    intro ++ [""] ++ concat blocks ++
    [ "Consultant: Any final caveats or compliance reminders?";
      "Expert: Yes, please avoid confidential client info and MNPI; I can provide generalized patterns and illustrative figures only." ] in
  let opening :=
    if String.eqb tone "Friendly"
    then ["Consultant: Appreciate you taking the time to share your experience."]
    else if String.eqb tone "Assertive"
    then ["Consultant: We will keep this focused and time-boxed."]
    else [] in
  ret (lines (opening ++ body)).

Definition generate_transcript (w : world) (c : criteria) (e : expert)
    (script_text tone depth refine_text : string) : nat -> option string :=
  let seed :=
    Seed._stable_seed w
      [opt_part (eid e); PCriteria c; PStr script_text; PStr tone; PStr depth;
       PStr refine_text] in
  run seed (transcript_body c e tone depth refine_text).

(** *** _extract_metrics

    The pattern is [(\d{1,3}(?:\.\d+)?)(%|x|k|m)?].  A match starts at a
    digit and takes, greedily: up to three digits; then a dot with all the
    digits after it, when at least one digit follows the dot; then one of
    the four suffix characters when it comes next. *)

Fixpoint digits_prefix (s : list ascii) : nat :=
  match s with
  | c :: s' => if PyStr.is_digit c then S (digits_prefix s') else 0
  | [] => 0
  end.

Definition is_suffix_char (c : ascii) : bool :=
  PyStr.mem (String c EmptyString) ["%"; "x"; "k"; "m"].

(** Length of [(?:\.\d+)?] at the head of [s]. *)
Definition fraction_len (s : list ascii) : nat :=
  match s with
  | "."%char :: s' =>
      match digits_prefix s' with
      | O => 0
      | n => S n
      end
  | _ => 0
  end.

(** Length of [(%|x|k|m)?] at the head of [s]. *)
Definition suffix_len (s : list ascii) : nat :=
  match s with
  | c :: _ => if is_suffix_char c then 1 else 0
  | [] => 0
  end.

(** Length of the match of the pattern at the head of [s], if any. *)
Definition match_len (s : list ascii) : option nat :=
  match Nat.min 3 (digits_prefix s) with
  | O => None
  | d =>
      let f := fraction_len (drop d s) in
      Some (d + f + suffix_len (drop (d + f) s))
  end.

(** The strings the pattern can match: one to three digits, then possibly
    a dot with at least one digit, then possibly a suffix character. *)
Definition value_shape (v : list ascii) : Prop :=
  exists d f u : list ascii,
    v = d ++ f ++ u /\
    (1 <= length d <= 3)%nat /\ Forall (fun c => PyStr.is_digit c = true) d /\
    (f = [] \/
     exists f', f = "."%char :: f' /\ f' <> [] /\
                Forall (fun c => PyStr.is_digit c = true) f') /\
    (u = [] \/ exists c, u = [c] /\ is_suffix_char c = true).

(** [re.finditer]: the matches left to right, each search resuming where
    the previous match ended.  [skip] counts the characters of the current
    match still to be passed over; [pos] is the index of the head of [s].
    The result lists [(match.start(), match.end())]. *)
Fixpoint scan (skip pos : nat) (s : list ascii) : list (nat * nat) :=
  match s with
  | [] => []
  | _ :: s' =>
      match skip with
      | S skip' => scan skip' (S pos) s'
      | O =>
          match match_len s with
          | Some n => (pos, pos + n) :: scan (n - 1) (S pos) s'
          | None => scan 0 (S pos) s'
          end
      end
  end.

Definition finditer (text : string) : list (nat * nat) :=
  scan 0 0 (list_ascii_of_string text).

Record metric : Type := { value : string; context : string }.

Definition metric_at (transcript_text : string) (m : nat * nat) : metric :=
  let '(m_start, m_end) := m in
  let start := (m_start - 40)%nat in
  let stop := Nat.min (String.length transcript_text) (m_end + 40) in
  let snippet := PyStr.replace_newlines (PyStr.slice start stop transcript_text) in
  {| value := PyStr.slice m_start m_end transcript_text;
     context := PyStr.strip snippet |}.

Definition _extract_metrics (transcript_text : string) : list metric :=
  match transcript_text with
  | EmptyString => []
  | _ => map (metric_at transcript_text) (finditer transcript_text)
  end.

(** *** summarize_interview *)

Record insight : Type := { i_theme : string; i_bullets : list string }.

Record tags_t : Type := {
  t_industries : list string;
  t_functions : list string;
  t_levels : list string;
  t_topics : list string
}.

Record summary : Type := {
  executive_summary : list string;
  credibility_bullets : list string;
  credibility_paragraph : string;
  insights_by_theme : list insight;
  open_questions : list string;
  next_steps : list string;
  metrics : list metric;
  tags : tags_t
}.

(** [', '.join(xs[:3])] for the former companies: the first three items of
    a list, or the first three characters of a string. *)
Definition first_three (v : cred_val) : string :=
  match v with
  | CList items => PyStr.join ", " (take 3 items)
  | CStr s =>
      PyStr.join ", "
        (map (fun ch => String ch EmptyString) (take 3 (list_ascii_of_string s)))
  end.

Definition theme_insight (theme : string) : draw insight :=
  let* bullets := shuffled_prefix
    [ "Primary value driver in " +:+ theme +:+ " is process clarity and ownership.";
      "Sequencing changes in " +:+ theme +:+ " reduces risk and rework.";
      "Metrics discipline is critical to sustain " +:+ theme +:+ " improvements." ] 2 3 in
  ret {| i_theme := theme; i_bullets := bullets |}.

Definition summary_body (c : criteria) (e : expert) (transcript_text : string)
    : draw summary :=
  let* themes := _pick_themes c e 5 in
  let* exec_bullets := shuffled_prefix
    [ "Expert has direct ownership experience aligned with the request.";
      "Insights reflect operational realities and trade-offs in execution.";
      "Illustrative metrics suggest material impact if levers are applied.";
      "Clear constraints and compliance boundaries were reinforced.";
      "Follow-on expert suggestions can deepen validation.";
      "Prioritize data quality and change management early.";
      "Stakeholder alignment is the most common blocker." ] 5 7 in
  let credibility_bullets :=
    [ "Role level: " +:+ str_opt (roleLevel e) +:+ " with "
      +:+ str_opt_Z (yearsExperience e) +:+ " years.";
      "Industries covered: " +:+ PyStr.join ", " (industryTags e) +:+ ".";
      "Key credentials: " +:+ first_three (formerCompanies (credentials e)) +:+ "." ] in
  let credibility_paragraph :=
    str_opt (ename e) +:+
    " appears highly relevant based on direct scope ownership and recent leadership experience. Responses were consistent and bounded by compliance." in
  let* insights := mapM theme_insight themes in
  let* open_questions := shuffled_prefix
    [ "What baseline metrics should be prioritized for benchmarking?";
      "Which constraints are unique to the target client context?";
      "What is the feasible timeline for impact realization?";
      "Which stakeholders will resist change and why?" ] 3 4 in
  let* next_steps := shuffled_prefix
    [ "Validate themes with a peer expert in an adjacent industry.";
      "Collect anonymized metrics or public benchmarks for triangulation.";
      "Draft a hypothesis tree for the top two levers.";
      "Plan a follow-up with the expert to test open questions." ] 3 4 in
  ret {| executive_summary := exec_bullets;
         credibility_bullets := credibility_bullets;
         credibility_paragraph := credibility_paragraph;
         insights_by_theme := insights;
         open_questions := open_questions;
         next_steps := next_steps;
         metrics := _extract_metrics transcript_text;
         tags := {| t_industries := get_or falsy_list (industries c) [];
                    t_functions := get_or falsy_list (functions c) [];
                    t_levels := get_or falsy_list (levels c) [];
                    t_topics := themes |} |}.

(** [summarize_interview] reads the clock: [today] is the value of
    [datetime.utcnow().date()] at the time of the call. *)
Definition summarize_interview (w : world) (c : criteria) (e : expert)
    (script_text transcript_text : string) : nat -> option summary :=
  let seed :=
    Seed._stable_seed w
      [opt_part (eid e); PCriteria c; PStr script_text; PStr transcript_text;
       PDate (utc_today w)] in
  run seed (summary_body c e transcript_text).

End Generation.

(** ** The credential signal as the design document words it *)

Module SpecReading.

(** The document's "substring-independent token match", read as a
    whole-token match: a free-text token counts when it is one of the words
    (maximal runs of letters and digits) of the credential blob, not when
    it merely occurs inside a longer word. *)
Definition whole_token_hits (c : criteria) (e : expert) : list string :=
  List.filter
    (fun t => PyStr.mem t (PyStr.findall_alnum (Scoring._flatten_credentials e)))
    (elements (Scoring.free_tokens c)).

End SpecReading.

(** ** Sample data

    The request and the two candidates of the design document's scenario,
    and variations on them. *)

Module Samples.

Definition no_credentials : credentials_t :=
  {| education := CList []; formerCompanies := CList [];
     notableProjects := CList []; publications := CList [] |}.

Definition request : criteria :=
  {| industries := Val ["SaaS"]; functions := Val ["Strategy"]; levels := Val [];
     free_text := Val "pricing"; budget := Val 300%Z; geography := Val "Any";
     profile_text := Val ""; linkedin_url := Val "" |}.

(** The same request with no industry constraint. *)
Definition request_any_industry : criteria :=
  {| industries := Val []; functions := Val ["Strategy"]; levels := Val [];
     free_text := Val "pricing"; budget := Val 300%Z; geography := Val "Any";
     profile_text := Val ""; linkedin_url := Val "" |}.

(** The same request with a budget of 0. *)
Definition request_zero_budget : criteria :=
  {| industries := Val ["SaaS"]; functions := Val ["Strategy"]; levels := Val [];
     free_text := Val "pricing"; budget := Val 0%Z; geography := Val "Any";
     profile_text := Val ""; linkedin_url := Val "" |}.

Definition candidate_a : expert :=
  {| eid := Some "exp-a"; ename := Some "Candidate A";
     industryTags := ["SaaS"]; functionTags := ["Strategy"];
     roleLevel := Some "VP"; ratePerHour := 250; yearsExperience := Some 12%Z;
     expertiseSummary := "SaaS pricing and packaging"; topicKeywords := ["Pricing"];
     credentials := no_credentials; complianceFlags := ["No MNPI"] |}.

Definition candidate_b : expert :=
  {| eid := Some "exp-b"; ename := Some "Candidate B";
     industryTags := []; functionTags := ["Strategy"];
     roleLevel := Some "Director"; ratePerHour := 600; yearsExperience := Some 8%Z;
     expertiseSummary := "Operations"; topicKeywords := [];
     credentials := no_credentials; complianceFlags := [] |}.

(** A candidate with no tag in common with the request, priced at the
    budget. *)
Definition candidate_c : expert :=
  {| eid := Some "exp-c"; ename := Some "Candidate C";
     industryTags := ["Retail"]; functionTags := ["Finance"];
     roleLevel := Some "Manager"; ratePerHour := 300; yearsExperience := Some 5%Z;
     expertiseSummary := "Store finance"; topicKeywords := [];
     credentials := no_credentials; complianceFlags := [] |}.

(** Candidate C at 400 an hour. *)
Definition candidate_c400 : expert :=
  {| eid := Some "exp-c4"; ename := Some "Candidate C";
     industryTags := ["Retail"]; functionTags := ["Finance"];
     roleLevel := Some "Manager"; ratePerHour := 400; yearsExperience := Some 5%Z;
     expertiseSummary := "Store finance"; topicKeywords := [];
     credentials := no_credentials; complianceFlags := [] |}.

(** A request for ["art"] and a candidate whose credentials mention
    Dartmouth: the three letters occur inside the longer word only. *)
Definition request_art : criteria :=
  {| industries := Val []; functions := Val []; levels := Val [];
     free_text := Val "art"; budget := Val 500%Z; geography := Val "Any";
     profile_text := Val ""; linkedin_url := Val "" |}.

Definition candidate_dartmouth : expert :=
  {| eid := Some "exp-d"; ename := Some "Candidate D";
     industryTags := []; functionTags := [];
     roleLevel := Some "VP"; ratePerHour := 300; yearsExperience := Some 20%Z;
     expertiseSummary := "Supply chain"; topicKeywords := [];
     credentials :=
       {| education := CList ["Dartmouth College"]; formerCompanies := CStr "Acme";
          notableProjects := CList []; publications := CList [] |};
     complianceFlags := [] |}.

Definition pool : list expert := [candidate_b; candidate_c; candidate_a; candidate_c400].

(** Two agencies; both recommend candidate B, one entry carries no id. *)
Definition agencies : list agency_response :=
  [ {| agency_name := Some "NEXUS";
       recommended_experts :=
         [ {| rec_id := Some "exp-b"; fit_reason := Some "Strong match on industry and function." |};
           {| rec_id := None; fit_reason := Some "Recent leadership experience with similar scope." |} ] |};
    {| agency_name := Some "PRIME";
       recommended_experts :=
         [ {| rec_id := Some "exp-b"; fit_reason := None |};
           {| rec_id := Some "exp-c"; fit_reason := Some "Strong match on industry and function." |} ] |} ].

Definition history : list history_item :=
  [ {| h_industries := ["SaaS"]; h_functions := ["Strategy"]; h_topics := ["pricing"] |} ].

Definition script_text : string := "# Expert Interview Script: Candidate A".

Definition transcript_text : string :=
  "Expert: We saw illustrative gains of 12% when governance was tightened.".

(** Two runs of one process image on consecutive days. *)
Definition monday : world :=
  {| utc_today := {| year := 2026; month := 11; day := 2 |};
     iteration_order := elements |}.


(** A later run on the same Monday, in another process, which iterates
    over its sets the other way round. *)
Definition monday_restarted : world :=
  {| utc_today := {| year := 2026; month := 11; day := 2 |};
     iteration_order := fun s => reverse (elements s) |}.

(** The number of tries given to the sample runs. *)
Definition tries : nat := 64.

End Samples.

Module MoreSamples.

(** A request that asks for nothing: the free text holds stop words only. *)
Definition request_empty : criteria :=
  {| industries := Missing; functions := Null; levels := Val [];
     free_text := Val "the and"; budget := Missing; geography := Missing;
     profile_text := Missing; linkedin_url := Missing |}.

End MoreSamples.

(** ** app.py: storing a ranking and reading it back *)

(** A stored entry of a ranking: the dictionary with keys ["id"], ["score"]
    and ["match_reasons"]; [None] stands for a missing key. *)
Record stored_entry : Type := {
  s_id : option string;
  s_score : option Q;
  s_reasons : option (list string)
}.

Module Persistence.

(** [_serialize_ranked]; [None] when an entry's expert has no ["id"] key
    ([KeyError]). *)
Fixpoint _serialize_ranked (ranked : list ranked_entry) : option (list stored_entry) :=
  match ranked with
  | [] => Some []
  | item :: rest =>
      match eid (r_expert item) with
      | Some i =>
          match _serialize_ranked rest with
          | Some data =>
              Some ({| s_id := Some i; s_score := Some (r_score item);
                       s_reasons := Some (r_reasons item) |} :: data)
          | None => None
          end
      | None => None
      end
  end.

(** [{expert["id"]: expert for expert in experts}]: a later expert replaces
    an earlier one with the same id; [None] when an expert has no ["id"]
    key. *)
Fixpoint expert_map_of (experts : list expert) (acc : gmap string expert)
    : option (gmap string expert) :=
  match experts with
  | [] => Some acc
  | e :: rest =>
      match eid e with
      | Some i => expert_map_of rest (<[i := e]> acc)
      | None => None
      end
  end.

(** The loop of [_deserialize_ranked]: an entry without an id, or with an id
    that no expert has, is skipped. *)
Fixpoint restore (expert_map : gmap string expert) (serialized : list stored_entry)
    : list ranked_entry :=
  match serialized with
  | [] => []
  | item :: rest =>
      match s_id item ≫= (fun i => expert_map !! i) with
      | Some e =>
          {| r_expert := e;
             r_score := default 0%Q (s_score item);
             r_reasons := default [] (s_reasons item) |} :: restore expert_map rest
      | None => restore expert_map rest
      end
  end.

(** [_deserialize_ranked(serialized, experts)]; [serialized] may be [None],
    which [serialized or []] reads as the empty list. *)
Definition _deserialize_ranked (serialized : option (list stored_entry))
    (experts : list expert) : option (list ranked_entry) :=
  match expert_map_of experts ∅ with
  | Some expert_map =>
      Some (Ranking.sort_by_score_desc (restore expert_map (default [] serialized)))
  | None => None
  end.

End Persistence.

(** ** app.py: the terms of a pasted profile *)

Module Profile.

Definition PROFILE_STOPWORDS : gset string :=
  list_to_set
    [ "the"; "and"; "or"; "to"; "for"; "with"; "a"; "an"; "of"; "in"; "on";
      "by"; "is"; "are"; "from"; "that"; "this"; "we"; "our"; "their";
      "they"; "as"; "at"; "be"; "it"; "into"; "across"; "within"; "around";
      "over" ].

(** The tokens kept by [_summarize_profile_text], in the order of the text. *)
Definition profile_tokens (text : string) : list string :=
  List.filter
    (fun t => negb (bool_decide (t ∈ PROFILE_STOPWORDS)) && (2 <? String.length t)%nat)
    (PyStr.findall_alnum (PyStr.lower text)).

(** [counts[token] = counts.get(token, 0) + 1] on a dictionary, which keeps
    its keys in the order of their first insertion: a key that is there
    keeps its place, a new key goes to the end. *)
Fixpoint bump (token : string) (counts : list (string * Z)) : list (string * Z) :=
  match counts with
  | [] => [(token, 1%Z)]
  | (k, n) :: rest =>
      if String.eqb k token then (k, (n + 1)%Z) :: rest else (k, n) :: bump token rest
  end.

Definition count_tokens (tokens : list string) : list (string * Z) :=
  foldl (fun counts token => bump token counts) [] tokens.

(** [sorted(counts.items(), key=lambda item: item[1], reverse=True)]: the
    sort is stable, so items with equal counts keep the order of the
    dictionary. *)
Fixpoint insert_by_count (x : string * Z) (l : list (string * Z)) : list (string * Z) :=
  match l with
  | [] => [x]
  | y :: l' => if (x.2 <? y.2)%Z then y :: insert_by_count x l' else x :: l
  end.

Definition sort_by_count_desc (l : list (string * Z)) : list (string * Z) :=
  foldr insert_by_count [] l.

Definition _summarize_profile_text (text : string) (max_terms : nat) : list string :=
  match text with
  | EmptyString => []
  | _ =>
      let counts := count_tokens (profile_tokens text) in
      let ranked := sort_by_count_desc counts in
      map fst (take max_terms ranked)
  end.

End Profile.

(** * Properties *)

(** ** Numbers: comparison, clamping, rounding *)

Section NumFacts.

Import PyNum.
Local Open Scope Q_scope.

Lemma Qltb_spec (a b : Q) : reflect (a < b) (Qltb a b).
Proof.
  unfold Qltb. destruct (Qcompare a b) eqn:E; constructor.
  - apply Qeq_alt in E. lra.
  - by apply Qlt_alt.
  - apply Qgt_alt in E. lra.
Qed.

Lemma py_min_cases (a b : Q) :
  (b < a /\ py_min a b = b) \/ (a <= b /\ py_min a b = a).
Proof. unfold py_min. destruct (Qltb_spec b a); [left | right]; split; auto; lra. Qed.

Lemma py_max_cases (a b : Q) :
  (a < b /\ py_max a b = b) \/ (b <= a /\ py_max a b = a).
Proof. unfold py_max. destruct (Qltb_spec a b); [left | right]; split; auto; lra. Qed.

(** The clamp returns 0, 100 or its argument rounded, and the last only
    when that lies strictly between the two. *)
Lemma clamp_score_cases (s : Q) :
  Scoring.clamp_score s = 0 \/ Scoring.clamp_score s = 100 \/
  (Scoring.clamp_score s = py_round1 s /\ 0 < py_round1 s < 100).
Proof.
  unfold Scoring.clamp_score.
  destruct (py_min_cases 100 (py_round1 s)) as [[H1 ->] | [H1 ->]].
  - destruct (py_max_cases 0 (py_round1 s)) as [[H2 ->] | [H2 ->]]; auto.
  - right; left. unfold py_max. destruct (Qltb_spec 0 100) as [_ | H]; [done | lra].
Qed.

Lemma clamp_score_bounds (s : Q) : 0 <= Scoring.clamp_score s <= 100.
Proof.
  destruct (clamp_score_cases s) as [-> | [-> | [-> H]]]; lra.
Qed.

Lemma tenth_bounds (k : Z) : 0 < k # 10 < 100 -> (0 <= k <= 1000)%Z.
Proof. unfold Qlt; simpl. lia. Qed.

(** A clamped score is a whole number of tenths between 0 and 100. *)
Lemma clamp_score_tenths (s : Q) :
  exists k : Z, (0 <= k <= 1000)%Z /\ Scoring.clamp_score s == k # 10.
Proof.
  destruct (clamp_score_cases s) as [-> | [-> | [-> H]]].
  - exists 0%Z. split; [lia | reflexivity].
  - exists 1000%Z. split; [lia | reflexivity].
  - exists (round_half_even (s * 10)). split; [| reflexivity].
    by apply tenth_bounds.
Qed.

(** Rounding moves a number by at most half a tenth. *)
Lemma round_half_even_close (q : Q) :
  inject_Z (round_half_even q) - (1 # 2) <= q <= inject_Z (round_half_even q) + (1 # 2).
Proof.
  unfold round_half_even.
  pose proof (Qfloor_le q) as Hlo. pose proof (Qlt_floor q) as Hhi.
  rewrite inject_Z_plus in Hhi. change (inject_Z 1) with 1 in Hhi.
  destruct (Qcompare (q - inject_Z (Qfloor q)) (1 # 2)) eqn:E.
  - apply Qeq_alt in E.
    destruct (Z.even (Qfloor q)); rewrite ?inject_Z_plus;
      change (inject_Z 1) with 1; lra.
  - apply Qlt_alt in E. lra.
  - apply Qgt_alt in E. rewrite inject_Z_plus. change (inject_Z 1) with 1. lra.
Qed.

Lemma py_round1_close (q : Q) : py_round1 q - (1 # 20) <= q <= py_round1 q + (1 # 20).
Proof.
  pose proof (round_half_even_close (q * 10)) as H.
  unfold py_round1.
  assert (E : round_half_even (q * 10) # 10 == inject_Z (round_half_even (q * 10)) / 10).
  { rewrite Qmake_Qdiv. reflexivity. }
  rewrite E. split.
  - apply Qmult_le_r with (z := 10); [lra |]. field_simplify. lra.
  - apply Qmult_le_r with (z := 10); [lra |]. field_simplify. lra.
Qed.

End NumFacts.

(** ** The scorer *)

Section ScoringFacts.

Import PyNum Scoring.
Local Open Scope Q_scope.

(** No credit for an empty overlap. *)
Lemma partial_credit_empty (cap : Q) (wanted : gset string) :
  0 < cap -> partial_credit cap ∅ wanted == 0.
Proof.
  intros Hcap. unfold partial_credit.
  rewrite size_empty. change (of_len 0) with 0.
  set (d := of_len _).
  assert (E : cap * (0 / d) == 0) by (unfold Qdiv; ring).
  destruct (py_min_cases cap (cap * (0 / d))) as [[_ ->] | [H _]]; [done | lra].
Qed.

Lemma effective_budget_val (c : criteria) (b : Z) :
  budget c = Val b -> b <> 0%Z -> effective_budget c = b.
Proof.
  intros Hb Hnz. unfold effective_budget, get_or, falsy_int. rewrite Hb.
  destruct (Z.eqb_spec b 0); [done | reflexivity].
Qed.

Lemma rate_signal_within (c : criteria) (e : expert) (a : acc) :
  (ratePerHour e <= effective_budget c)%Z -> rate_signal c e a = a.
Proof.
  intros H. unfold rate_signal. destruct a as [score reasons].
  destruct (Z.ltb_spec (effective_budget c) (ratePerHour e)); [lia | reflexivity].
Qed.

(** At twice a budget of at least 1 the overshoot ratio is 1 and the
    penalty is the whole 10 points. *)
Lemma rate_penalty_double (b : Z) : (0 < b)%Z -> rate_penalty (2 * b) b == 10.
Proof.
  intros Hb. unfold rate_penalty.
  replace (2 * b - b)%Z with b by lia. rewrite Z.max_r by lia.
  assert (E : inject_Z b / inject_Z b == 1).
  { apply Qmult_inv_r. unfold Qeq, inject_Z; simpl. lia. }
  destruct (py_min_cases 1 (inject_Z b / inject_Z b)) as [[H _] | [_ ->]]; lra.
Qed.

End ScoringFacts.

Section ScoringClaims.

Import PyNum Scoring.
Local Open Scope Q_scope.

(** C3 (score bounds).  For every request and every candidate the score
    returned by [score_expert] lies between 0 and 100 and is a whole number
    of tenths; it is the running total rounded to one decimal place and
    clamped, so that strictly inside the range it differs from the running
    total by at most 0.05. *)
Theorem score_expert_bounds (c : criteria) (e : expert) :
  let s := (score_expert c e).1 in
  0 <= s <= 100 /\
  (exists k : Z, (0 <= k <= 1000)%Z /\ s == k # 10) /\
  s = py_max 0 (py_min 100 (py_round1 (raw_score c e).1)) /\
  (0 < s < 100 -> s - (1 # 20) <= (raw_score c e).1 <= s + (1 # 20)).
Proof.
  unfold score_expert. destruct (raw_score c e) as [score reasons]. simpl.
  split; [apply clamp_score_bounds |].
  split; [apply clamp_score_tenths |].
  split; [reflexivity |].
  intros Hs.
  destruct (clamp_score_cases score) as [E | [E | [E _]]]; rewrite E in *; try lra.
  apply py_round1_close.
Qed.

(** C5 (mismatch asymmetry).  With a non-empty industry constraint and no
    overlap, the industry signal takes 12 points off the running total and
    reports the mismatch; with a non-empty function constraint and no
    overlap, the function signal leaves the running total and the reasons
    as they were; with no industry constraint, the industry signal does
    nothing at all. *)
Theorem mismatch_asymmetry (c : criteria) (e : expert) (score : Q) (reasons : list string) :
  (wanted_set (industries c) <> ∅ ->
   wanted_set (industries c) ∩ list_to_set (industryTags e) = ∅ ->
   (industry_signal c e (score, reasons)).1 == score - 12 /\
   (industry_signal c e (score, reasons)).2 =
     reasons ++ ["Industry mismatch: no overlap with requested industries."]) /\
  (wanted_set (functions c) <> ∅ ->
   wanted_set (functions c) ∩ list_to_set (functionTags e) = ∅ ->
   (function_signal c e (score, reasons)).1 == score /\
   (function_signal c e (score, reasons)).2 = reasons) /\
  (wanted_set (industries c) = ∅ ->
   industry_signal c e (score, reasons) = (score, reasons)).
Proof.
  split; [| split].
  - intros Hne Hov. unfold industry_signal.
    destruct (decide (wanted_set (industries c) = ∅)) as [|_]; [done |].
    rewrite Hov. destruct (decide (∅ = ∅)) as [_|]; [| done]. simpl.
    split; [| reflexivity].
    rewrite (partial_credit_empty 25) by lra. ring.
  - intros Hne Hov. unfold function_signal.
    destruct (decide (wanted_set (functions c) = ∅)) as [|_]; [done |].
    rewrite Hov. destruct (decide (∅ = ∅)) as [_|]; [| done]. simpl.
    split; [| reflexivity].
    rewrite (partial_credit_empty 25) by lra. ring.
  - intros He. unfold industry_signal.
    destruct (decide (wanted_set (industries c) = ∅)); done.
Qed.

Lemma mismatch_asymmetry_witness :
  ((industry_signal Samples.request Samples.candidate_c (0, [])).1 == 0 - 12 /\
   (function_signal Samples.request Samples.candidate_c (0, [])).1 == 0) /\
  industry_signal Samples.request_any_industry Samples.candidate_c (0, []) = (0, []).
Proof.
  split.
  - destruct (mismatch_asymmetry Samples.request Samples.candidate_c 0 []) as (H1 & H2 & _).
    split.
    + apply H1; [apply (bool_decide_unpack _) | apply (bool_decide_unpack _)];
        vm_compute; exact I.
    + apply H2; [apply (bool_decide_unpack _) | apply (bool_decide_unpack _)];
        vm_compute; exact I.
  - destruct (mismatch_asymmetry Samples.request_any_industry Samples.candidate_c 0 [])
      as (_ & _ & H3).
    apply H3. apply (bool_decide_unpack _). vm_compute. exact I.
Defined.

Lemma rate_block_within (rate budget : Q) (a : acc) :
  rate <= budget -> rate_block rate budget a = a.
Proof.
  intros H. unfold rate_block. destruct a as [score reasons].
  destruct (Qltb_spec budget rate); [lra | reflexivity].
Qed.

(** The overshoot ratio at twice the budget: 1 for a budget of at least 1,
    the budget itself under 1, where [max(1, budget)] is 1. *)
Lemma overshoot_at_double (budget : Q) :
  0 < budget ->
  (2 * budget - budget) / py_max 1 budget == (if Qltb 1 budget then 1 else budget).
Proof.
  intros Hpos. unfold py_max.
  destruct (Qltb_spec 1 budget).
  - field. lra.
  - field.
Qed.

Lemma rate_penalty_of_double (budget : Q) :
  0 < budget ->
  rate_penalty_of (2 * budget) budget == 10 * py_min 1 (if Qltb 1 budget then 1 else budget).
Proof.
  intros Hpos. unfold rate_penalty_of.
  pose proof (overshoot_at_double budget Hpos) as E. revert E.
  generalize ((2 * budget - budget) / py_max 1 budget). intros r E.
  destruct (py_min_cases 1 r) as [[H1 ->] | [H1 ->]];
    destruct (py_min_cases 1 (if Qltb 1 budget then 1 else budget)) as [[H2 ->] | [H2 ->]];
    lra.
Qed.

Lemma rate_penalty_of_compat (r1 r2 b : Q) :
  r1 == r2 -> rate_penalty_of r1 b == rate_penalty_of r2 b.
Proof.
  intros E. unfold rate_penalty_of.
  assert (E' : (r1 - b) / py_max 1 b == (r2 - b) / py_max 1 b) by (by rewrite E).
  revert E'. generalize ((r1 - b) / py_max 1 b) ((r2 - b) / py_max 1 b). intros x y E'.
  destruct (py_min_cases 1 x) as [[H1 ->] | [H1 ->]];
    destruct (py_min_cases 1 y) as [[H2 ->] | [H2 ->]]; lra.
Qed.

(** On integers the two readings of the rate lines agree. *)
Lemma rate_signal_is_rate_block (c : criteria) (e : expert) (a : acc) :
  (rate_signal c e a).1 ==
    (rate_block (inject_Z (ratePerHour e)) (inject_Z (effective_budget c)) a).1 /\
  (rate_signal c e a).2 =
    (rate_block (inject_Z (ratePerHour e)) (inject_Z (effective_budget c)) a).2.
Proof.
  unfold rate_signal, rate_block. destruct a as [score reasons].
  set (b := effective_budget c). set (r := ratePerHour e).
  destruct (Z.ltb_spec b r) as [Hlt | Hge];
    destruct (Qltb_spec (inject_Z b) (inject_Z r)) as [Hq | Hq];
    rewrite <- ?Zlt_Qlt, <- ?Zle_Qle in Hq; try lia; [| done].
  cbn [fst snd]. split; [| reflexivity].
  assert (E : rate_penalty r b == rate_penalty_of (inject_Z r) (inject_Z b)).
  { unfold rate_penalty, rate_penalty_of.
    assert (Em : inject_Z (Z.max 1 b) == py_max 1 (inject_Z b)).
    { destruct (py_max_cases 1 (inject_Z b)) as [[H ->] | [H ->]].
      - change 1 with (inject_Z 1) in H. rewrite <- Zlt_Qlt in H.
        by rewrite Z.max_r by lia.
      - change 1 with (inject_Z 1) in H. rewrite <- Zle_Qle in H.
        by rewrite Z.max_l by lia. }
    assert (En : inject_Z (r - b) == inject_Z r - inject_Z b).
    { unfold Z.sub. rewrite inject_Z_plus, inject_Z_opp. ring. }
    assert (Ex : inject_Z (r - b) / inject_Z (Z.max 1 b)
                 == (inject_Z r - inject_Z b) / py_max 1 (inject_Z b))
      by (by rewrite Em, En).
    revert Ex. generalize (inject_Z (r - b) / inject_Z (Z.max 1 b))
      ((inject_Z r - inject_Z b) / py_max 1 (inject_Z b)). intros x y Ex.
    destruct (py_min_cases 1 x) as [[H1 ->] | [H1 ->]];
      destruct (py_min_cases 1 y) as [[H2 ->] | [H2 ->]]; lra. }
  rewrite E. reflexivity.
Qed.

(** C7, as worded (for any positive budget), fails under a budget of 1,
    where [max(1, budget)] is 1 and not the budget: with a budget of 0.5 a
    candidate priced at 1.0, twice the budget, loses 5 points, not 10. *)
Lemma penalty_under_unit_budget :
  0 < 1 # 2 /\ 1 == 2 * (1 # 2) /\
  (rate_block 1 (1 # 2) (0, [])).1 == 0 - 5 /\
  ~ (rate_block 1 (1 # 2) (0, [])).1 == 0 - 10.
Proof.
  split; [reflexivity |]. split; [reflexivity |].
  split; [vm_compute; reflexivity |].
  vm_compute. discriminate.
Qed.

(** C7, as the code has it (budget penalty boundaries).  A candidate priced
    at the budget, or under it, is left untouched by the rate lines, whatever
    the budget.  A candidate priced at twice a budget of at least 1 loses
    exactly 10 points and gets the rate reason; under a budget of 1 the loss
    at twice the budget stays below 10.  The numbers need not be integers;
    on the integers of a request and of an expert the rate lines are
    [rate_signal]. *)
Theorem budget_penalty_boundaries (rate budget score : Q) (reasons : list string) :
  (rate == budget -> rate_block rate budget (score, reasons) = (score, reasons)) /\
  (rate <= budget -> rate_block rate budget (score, reasons) = (score, reasons)) /\
  (1 <= budget -> rate == 2 * budget ->
   (rate_block rate budget (score, reasons)).1 == score - 10 /\
   (rate_block rate budget (score, reasons)).2 =
     reasons ++ ["Rate above budget; slight penalty applied."]) /\
  (0 < budget < 1 -> rate == 2 * budget ->
   0 < rate_penalty_of rate budget < 10 /\
   (rate_block rate budget (score, reasons)).2 =
     reasons ++ ["Rate above budget; slight penalty applied."]) /\
  (forall (c : criteria) (e : expert),
     rate = inject_Z (ratePerHour e) -> budget = inject_Z (effective_budget c) ->
     (rate_signal c e (score, reasons)).1 == (rate_block rate budget (score, reasons)).1 /\
     (rate_signal c e (score, reasons)).2 = (rate_block rate budget (score, reasons)).2).
Proof.
  split; [intros E; apply rate_block_within; lra |].
  split; [apply rate_block_within |].
  split; [| split].
  - intros Hb Hr. unfold rate_block.
    destruct (Qltb_spec budget rate); [| lra]. cbn [fst snd].
    split; [| reflexivity].
    rewrite (rate_penalty_of_compat _ _ _ Hr), rate_penalty_of_double by lra.
    destruct (Qltb_spec 1 budget).
    + destruct (py_min_cases 1 1) as [[H _] | [_ ->]]; lra.
    + assert (E : budget == 1) by lra.
      destruct (py_min_cases 1 budget) as [[_ ->] | [_ ->]]; lra.
  - intros Hb Hr. unfold rate_block.
    destruct (Qltb_spec budget rate); [| lra]. cbn [fst snd].
    split; [| reflexivity].
    rewrite (rate_penalty_of_compat _ _ _ Hr), rate_penalty_of_double by lra.
    destruct (Qltb_spec 1 budget); [lra |].
    destruct (py_min_cases 1 budget) as [[_ ->] | [H ->]]; lra.
  - intros c e -> ->. apply rate_signal_is_rate_block.
Qed.

Lemma budget_penalty_boundaries_witness :
  (rate_block 3 (3 # 2) (0, [])).1 == 0 - 10 /\
  rate_block 300 300 (0, []) = (0, []) /\
  (rate_signal Samples.request Samples.candidate_b (0, [])).1
    == (rate_block 600 300 (0, [])).1.
Proof.
  split; [| split].
  - apply (budget_penalty_boundaries 3 (3 # 2) 0 []); [unfold Qle; simpl; lia | reflexivity].
  - apply (proj1 (budget_penalty_boundaries 300 300 0 [])). reflexivity.
  - apply (budget_penalty_boundaries 600 300 0 [] ) with (c := Samples.request)
      (e := Samples.candidate_b); reflexivity.
Defined.

(** C8 (budget defaulting).  When the budget is missing, [None] or 0, the
    budget the scorer works with is 500: a candidate priced at 500 or less,
    for instance at 400, gets no rate penalty, and one priced above 500 is
    penalised against 500. *)
Theorem budget_default (c : criteria) (e : expert) (score : Q) (reasons : list string) :
  budget c = Missing \/ budget c = Null \/ budget c = Val 0%Z ->
  effective_budget c = 500%Z /\
  ((ratePerHour e <= 500)%Z -> rate_signal c e (score, reasons) = (score, reasons)) /\
  (ratePerHour e = 400%Z -> rate_signal c e (score, reasons) = (score, reasons)) /\
  ((500 < ratePerHour e)%Z ->
   rate_signal c e (score, reasons) =
     (score - rate_penalty (ratePerHour e) 500,
      reasons ++ ["Rate above budget; slight penalty applied."])).
Proof.
  intros Hb.
  assert (Heff : effective_budget c = 500%Z).
  { unfold effective_budget. destruct Hb as [-> | [-> | ->]]; reflexivity. }
  split; [exact Heff |].
  split; [| split].
  - intros Hr. apply rate_signal_within. lia.
  - intros Hr. apply rate_signal_within. lia.
  - intros Hr. unfold rate_signal. rewrite Heff.
    destruct (Z.ltb_spec 500 (ratePerHour e)); [reflexivity | lia].
Qed.

Lemma budget_default_witness :
  effective_budget Samples.request_zero_budget = 500%Z /\
  rate_signal Samples.request_zero_budget Samples.candidate_c400 (0, []) = (0, []).
Proof.
  destruct (budget_default Samples.request_zero_budget Samples.candidate_c400 0 [])
    as (H1 & _ & H3 & _).
  - right; right; reflexivity.
  - split; [exact H1 | apply H3; reflexivity].
Defined.

End ScoringClaims.

Section CredentialClaims.

Import PyNum Scoring.
Local Open Scope Q_scope.

Lemma cred_hits_nil (c : criteria) (e : expert) :
  cred_hits c e = [] <-> substring_hit c e = false.
Proof.
  unfold cred_hits, substring_hit.
  induction (elements (free_tokens c)) as [| t l IH]; simpl; [done |].
  destruct (PyStr.contains t (_flatten_credentials e)); simpl; [split; discriminate | exact IH].
Qed.

(** C6, as the code has it (credential signal).  The signal adds a flat 10
    points, once, exactly when some free-text token occurs in the flattened
    lower-cased credential text as a substring, inside a longer word or
    not; otherwise it changes neither the total nor the reasons. *)
Theorem credential_signal_substring (c : criteria) (e : expert)
    (score : Q) (reasons : list string) :
  (substring_hit c e = true <->
   exists t, t ∈ free_tokens c /\ PyStr.contains t (_flatten_credentials e) = true) /\
  (credential_signal c e (score, reasons)).1 =
    (if substring_hit c e then score + 10 else score) /\
  (credential_signal c e (score, reasons)).2 =
    (if substring_hit c e
     then reasons ++ ["Credential signal: " +:+ listed 5 (list_to_set (cred_hits c e)) +:+ "."]
     else reasons).
Proof.
  split.
  - unfold substring_hit. rewrite existsb_exists. split.
    + intros (t & Hin & Ht). exists t. split; [| done].
      apply elem_of_elements. by apply list_elem_of_In.
    + intros (t & Hin & Ht). exists t. split; [| done].
      apply list_elem_of_In. by apply elem_of_elements.
  - unfold credential_signal.
    destruct (cred_hits c e) as [| h hs] eqn:E.
    + apply cred_hits_nil in E. rewrite E. done.
    + destruct (substring_hit c e) eqn:Hs; [done |].
      apply cred_hits_nil in Hs. congruence.
Qed.

(** C6, as worded (whole-token match), fails: for the request ["art"] and
    credentials that mention Dartmouth no free-text token is a word of the
    credential text, and the signal still adds its 10 points. *)
Lemma credential_signal_not_whole_token :
  ~ (forall (c : criteria) (e : expert) (score : Q) (reasons : list string),
       (credential_signal c e (score, reasons)).1 == score + 10 <->
       SpecReading.whole_token_hits c e <> []).
Proof.
  intros H.
  destruct (H Samples.request_art Samples.candidate_dartmouth 0 []) as [H1 _].
  apply H1; [| by vm_compute].
  vm_compute. reflexivity.
Qed.

End CredentialClaims.

(** ** The stable descending sort *)

Section SortFacts.

Import PyNum Ranking.
Local Open Scope Q_scope.

Lemma insert_desc_perm (x : ranked_entry) (l : list ranked_entry) :
  Permutation (insert_desc x l) (x :: l).
Proof.
  induction l as [| y l IH]; simpl; [reflexivity |].
  destruct (Qltb (r_score x) (r_score y)); [| reflexivity].
  rewrite IH. apply perm_swap.
Qed.

Lemma sort_by_score_desc_perm (l : list ranked_entry) :
  Permutation (sort_by_score_desc l) l.
Proof.
  induction l as [| x l IH]; simpl; [reflexivity |].
  rewrite insert_desc_perm. by constructor.
Qed.

Lemma insert_desc_hd (x y : ranked_entry) (l : list ranked_entry) :
  score_ge y x -> HdRel score_ge y l -> HdRel score_ge y (insert_desc x l).
Proof.
  intros Hyx Hl. destruct l as [| z l]; simpl; [by constructor |].
  destruct (Qltb (r_score x) (r_score z)); constructor; [| done].
  by inversion Hl.
Qed.

Lemma insert_desc_sorted (x : ranked_entry) (l : list ranked_entry) :
  Sorted score_ge l -> Sorted score_ge (insert_desc x l).
Proof.
  induction 1 as [| y l Hs IH Hhd]; simpl; [repeat constructor |].
  destruct (Qltb_spec (r_score x) (r_score y)) as [Hlt | Hge].
  - constructor; [exact IH |]. apply insert_desc_hd; [| done].
    unfold score_ge. lra.
  - constructor; [by constructor |]. constructor. unfold score_ge. lra.
Qed.

Lemma sort_by_score_desc_sorted (l : list ranked_entry) :
  Sorted score_ge (sort_by_score_desc l).
Proof.
  induction l as [| x l IH]; simpl; [constructor | by apply insert_desc_sorted].
Qed.

(** Every entry scores at least as much as every entry after it. *)
Lemma sort_by_score_desc_strongly_sorted (l : list ranked_entry) :
  StronglySorted score_ge (sort_by_score_desc l).
Proof.
  apply Sorted_StronglySorted; [| apply sort_by_score_desc_sorted].
  intros x y z. unfold score_ge. lra.
Qed.

(** Inserting passes over strictly greater scores only, so the entries of
    any one score keep their order, with the new entry in front. *)
Lemma with_score_insert_desc (v : Q) (x : ranked_entry) (l : list ranked_entry) :
  with_score v (insert_desc x l) = with_score v (x :: l).
Proof.
  induction l as [| y l IH]; [reflexivity |].
  simpl. destruct (Qltb_spec (r_score x) (r_score y)) as [Hlt | Hge]; [| reflexivity].
  unfold with_score in *. simpl in *. rewrite IH.
  destruct (Qeq_bool (r_score x) v) eqn:Ex; [| reflexivity].
  destruct (Qeq_bool (r_score y) v) eqn:Ey; [| reflexivity].
  apply Qeq_bool_iff in Ex, Ey. lra.
Qed.

Lemma sort_by_score_desc_stable (v : Q) (l : list ranked_entry) :
  with_score v (sort_by_score_desc l) = with_score v l.
Proof.
  induction l as [| x l IH]; [reflexivity |].
  simpl. rewrite with_score_insert_desc.
  unfold with_score in *. simpl. by rewrite IH.
Qed.

End SortFacts.

(** ** Ranking and synthesis *)

Section RankingClaims.

Import PyNum Ranking Synthesis.
Local Open Scope Q_scope.

Lemma rank_entry_expert (c : criteria) (e : expert) : r_expert (rank_entry c e) = e.
Proof. unfold rank_entry. by destruct (Scoring.score_expert c e). Qed.

Lemma map_rank_entry_expert (c : criteria) (experts : list expert) :
  map r_expert (map (rank_entry c) experts) = experts.
Proof.
  induction experts as [| e l IH]; simpl; [done |].
  by rewrite rank_entry_expert, IH.
Qed.

(** The dictionary of base scores: it exists when every ranked expert has
    an id, and it has no entry for an id that the ranking does not show. *)
Lemma base_scores_of_some (ranked : list ranked_entry) (acc : gmap string Q) :
  Forall (fun item => is_Some (eid (r_expert item))) ranked ->
  exists bs, base_scores_of ranked acc = Some bs /\
    forall i, (forall item, In item ranked -> eid (r_expert item) <> Some i) ->
              bs !! i = acc !! i.
Proof.
  intros H. revert acc. induction H as [| item l [j Hj] _ IH]; intros acc; simpl.
  - exists acc. done.
  - rewrite Hj. destruct (IH (<[j := r_score item]> acc)) as (bs & Hbs & Habs).
    exists bs. split; [done |]. intros i Hi.
    rewrite Habs by (intros it Hit; apply Hi; by right).
    apply lookup_insert_ne. intros ->. by apply (Hi item); [left |].
Qed.

(** The loop over the pool: one entry per expert, in pool order. *)
Lemma compile_all_some (m : mentions_t) (bs : gmap string Q)
    (hist : list history_item) (experts : list expert) :
  Forall (fun e => is_Some (eid e)) experts ->
  exists compiled, compile_all m bs hist experts = Some compiled /\
    map r_expert compiled = experts /\
    forall e i, In e experts -> eid e = Some i -> In (compile_entry m bs hist e i) compiled.
Proof.
  induction 1 as [| e l [j Hj] _ (compiled & Hc & Hmap & Hin)]; simpl.
  - exists []. done.
  - rewrite Hj, Hc. exists (compile_entry m bs hist e j :: compiled).
    split; [done |]. split.
    + simpl. rewrite Hmap. f_equal. unfold compile_entry. by destruct m.
    + intros e' i [<- | He'] Hi.
      * left. congruence.
      * right. by apply Hin.
Qed.

(** Only the entry under the expert's own id is read from the base scores. *)
Lemma compile_entry_absent (m : mentions_t) (bs : gmap string Q)
    (hist : list history_item) (e : expert) (i : string) :
  bs !! i = None -> compile_entry m bs hist e i = compile_entry m ∅ hist e i.
Proof.
  intros H. unfold compile_entry. destruct m. by rewrite H, lookup_empty.
Qed.

(** C4 (ranking totality and order).  [rank_experts] returns the entries of
    the pool's experts, one per expert, none dropped or duplicated, each
    entry scoring at least as much as every later one.  When every expert
    of the pool and of the base ranking has an id,
    [_synthesize_recommendations] returns a list with the same two
    properties, in which an expert whose id the base ranking does not show
    has the entry computed from a base score of 0. *)
Theorem ranking_total_and_ordered (c : criteria) (experts : list expert)
    (ranked : list ranked_entry) (agency_responses : list agency_response)
    (recent_history : list history_item) :
  (Permutation (rank_experts c experts) (map (rank_entry c) experts) /\
   Permutation (map r_expert (rank_experts c experts)) experts /\
   StronglySorted score_ge (rank_experts c experts)) /\
  (Forall (fun e => is_Some (eid e)) experts ->
   Forall (fun item => is_Some (eid (r_expert item))) ranked ->
   exists out,
     _synthesize_recommendations c experts ranked agency_responses recent_history
       = Some out /\
     Permutation (map r_expert out) experts /\
     StronglySorted score_ge out /\
     forall e i, In e experts -> eid e = Some i ->
       (forall item, In item ranked -> eid (r_expert item) <> Some i) ->
       In (compile_entry (collect_mentions agency_responses) ∅ recent_history e i) out).
Proof.
  split.
  - unfold rank_experts. split; [apply sort_by_score_desc_perm |].
    split; [| apply sort_by_score_desc_strongly_sorted].
    rewrite sort_by_score_desc_perm. by rewrite map_rank_entry_expert.
  - intros Hpool Hranked. unfold _synthesize_recommendations.
    destruct (base_scores_of_some ranked ∅ Hranked) as (bs & -> & Habs).
    destruct (compile_all_some (collect_mentions agency_responses) bs recent_history
                experts Hpool) as (compiled & -> & Hmap & Hin).
    exists (sort_by_score_desc compiled). split; [done |].
    split; [by rewrite sort_by_score_desc_perm, Hmap |].
    split; [apply sort_by_score_desc_strongly_sorted |].
    intros e i He Hi Habsent.
    apply (Permutation_in _ (Permutation_sym (sort_by_score_desc_perm compiled))).
    rewrite <- (compile_entry_absent _ bs); [by apply Hin |].
    rewrite Habs by done. apply lookup_empty.
Qed.

Lemma ranking_total_and_ordered_witness :
  Forall (fun e => is_Some (eid e)) Samples.pool /\
  Forall (fun item => is_Some (eid (r_expert item)))
         (rank_experts Samples.request [Samples.candidate_a; Samples.candidate_b]) /\
  exists out,
    _synthesize_recommendations Samples.request Samples.pool
      (rank_experts Samples.request [Samples.candidate_a; Samples.candidate_b])
      Samples.agencies Samples.history = Some out /\
    Permutation (map r_expert out) Samples.pool /\
    StronglySorted score_ge out.
Proof.
  assert (Hpool : Forall (fun e => is_Some (eid e)) Samples.pool).
  { repeat constructor; eexists; reflexivity. }
  assert (Hranked : Forall (fun item => is_Some (eid (r_expert item)))
            (rank_experts Samples.request [Samples.candidate_a; Samples.candidate_b])).
  { apply List.Forall_forall. intros item Hitem. unfold rank_experts in Hitem.
    apply (Permutation_in _ (sort_by_score_desc_perm _)) in Hitem.
    simpl in Hitem. destruct Hitem as [<- | [<- | []]];
      rewrite rank_entry_expert; eexists; reflexivity. }
  split; [exact Hpool |]. split; [exact Hranked |].
  destruct (ranking_total_and_ordered Samples.request Samples.pool
              (rank_experts Samples.request [Samples.candidate_a; Samples.candidate_b])
              Samples.agencies Samples.history) as [_ H].
  destruct (H Hpool Hranked) as (out & Hout & Hperm & Hsorted & _).
  exists out. auto.
Defined.

(** C9 (tie stability).  For every score [v], the entries of score [v]
    appear in the result of [rank_experts] in the order their experts have
    in the pool; and when every expert of the pool and of the base ranking
    has an id, the entries of final score [v] appear in the result of
    [_synthesize_recommendations] in the order of the pool as well. *)
Theorem ranking_tie_stability (c : criteria) (experts : list expert)
    (ranked : list ranked_entry) (agency_responses : list agency_response)
    (recent_history : list history_item) :
  (forall v, with_score v (rank_experts c experts)
             = with_score v (map (rank_entry c) experts)) /\
  (Forall (fun e => is_Some (eid e)) experts ->
   Forall (fun item => is_Some (eid (r_expert item))) ranked ->
   exists compiled out,
     map r_expert compiled = experts /\
     _synthesize_recommendations c experts ranked agency_responses recent_history
       = Some out /\
     Permutation out compiled /\
     forall v, with_score v out = with_score v compiled).
Proof.
  split.
  - intros v. apply sort_by_score_desc_stable.
  - intros Hpool Hranked. unfold _synthesize_recommendations.
    destruct (base_scores_of_some ranked ∅ Hranked) as (bs & -> & _).
    destruct (compile_all_some (collect_mentions agency_responses) bs recent_history
                experts Hpool) as (compiled & -> & Hmap & _).
    exists compiled, (sort_by_score_desc compiled).
    split; [done |]. split; [done |].
    split; [apply sort_by_score_desc_perm |].
    intros v. apply sort_by_score_desc_stable.
Qed.

Lemma ranking_tie_stability_witness :
  map (fun x => eid (r_expert x)) (with_score 0 (rank_experts Samples.request Samples.pool))
    = [Some "exp-c"; Some "exp-c4"] /\
  exists compiled out,
    map r_expert compiled = Samples.pool /\
    _synthesize_recommendations Samples.request Samples.pool [] Samples.agencies []
      = Some out /\
    forall v, with_score v out = with_score v compiled.
Proof.
  destruct (ranking_tie_stability Samples.request Samples.pool [] Samples.agencies [])
    as [H1 H2].
  split.
  - rewrite H1. vm_compute. reflexivity.
  - destruct H2 as (compiled & out & Hmap & Hout & _ & Hst).
    + repeat constructor; eexists; reflexivity.
    + constructor.
    + exists compiled, out. auto.
Defined.

End RankingClaims.

(** ** Metrics extraction *)

Section MetricsFacts.

Import Generation.

Local Notation "'digit' c" := (PyStr.is_digit c = true) (at level 10, c at level 9).

Lemma digits_prefix_take (s : list ascii) (k : nat) :
  k <= digits_prefix s -> length (take k s) = k /\ Forall (fun c => digit c) (take k s).
Proof.
  revert k. induction s as [| c s IH]; intros k Hk; simpl in Hk.
  - assert (k = 0) as -> by lia. done.
  - destruct k as [| k]; [done |]. simpl.
    destruct (PyStr.is_digit c) eqn:Hc; [| lia].
    destruct (IH k ltac:(lia)) as [Hlen Hall]. split; [by rewrite Hlen |].
    by constructor.
Qed.



Lemma fraction_len_shape (s : list ascii) :
  let f := take (fraction_len s) s in
  length f = fraction_len s /\
  (f = [] \/ exists f', f = "."%char :: f' /\ f' <> [] /\ Forall (fun c => digit c) f').
Proof.
  unfold fraction_len. destruct s as [| c s]; [by split; [| left] |].
  destruct (Ascii.eqb_spec c "."%char) as [-> | Hne].
  - destruct (digits_prefix s) as [| n] eqn:Hn; [by split; [| left] |].
    destruct (digits_prefix_take s (S n) ltac:(lia)) as [Hlen Hall].
    simpl. split; [by rewrite Hlen |]. right. eexists. split; [done |].
    split; [| done]. intros E. rewrite E in Hlen. done.
  - destruct c as [[] [] [] [] [] [] [] []]; by split; [| left].
Qed.

Lemma suffix_len_shape (s : list ascii) :
  let u := take (suffix_len s) s in
  length u = suffix_len s /\ (u = [] \/ exists c, u = [c] /\ is_suffix_char c = true).
Proof.
  unfold suffix_len. destruct s as [| c s]; [by split; [| left] |].
  destruct (is_suffix_char c) eqn:Hc; simpl.
  - split; [done |]. right. by exists c.
  - by split; [| left].
Qed.

Lemma match_len_some (s : list ascii) (n : nat) :
  match_len s = Some n ->
  let d := Nat.min 3 (digits_prefix s) in
  let f := fraction_len (drop d s) in
  1 <= d /\ n = d + f + suffix_len (drop (d + f) s).
Proof.
  unfold match_len. destruct (Nat.min 3 (digits_prefix s)) as [| d] eqn:Hd; [done |].
  intros [= <-]. simpl. split; [lia | done].
Qed.


(** What a match covers has the shape of a value, and is not empty. *)
Lemma match_len_shape (s : list ascii) (n : nat) :
  match_len s = Some n -> 1 <= n /\ n <= length s /\ value_shape (take n s).
Proof.
  intros H. apply match_len_some in H. cbv zeta in H. destruct H as [Hd ->].
  set (d := Nat.min 3 (digits_prefix s)) in *.
  set (f := fraction_len (drop d s)).
  set (u := suffix_len (drop (d + f) s)).
  destruct (digits_prefix_take s d ltac:(lia)) as [Hdl Hdd].
  destruct (fraction_len_shape (drop d s)) as [Hfl Hf].
  destruct (suffix_len_shape (drop (d + f) s)) as [Hul Hu].
  fold f in Hfl, Hf. fold u in Hul, Hu.
  assert (E : take (d + f + u) s
              = take d s ++ take f (drop d s) ++ take u (drop (d + f) s)).
  { rewrite <- Nat.add_assoc, <- take_take_drop. f_equal.
    rewrite <- take_take_drop. by rewrite drop_drop. }
  split; [lia |]. split.
  - pose proof (length_take s (d + f + u)) as Hlen.
    rewrite E, !length_app, Hdl, Hfl, Hul in Hlen. lia.
  - exists (take d s), (take f (drop d s)), (take u (drop (d + f) s)).
    split; [done |]. split; [lia |]. done.
Qed.


End MetricsFacts.

Section ScanFacts.

Import Generation.

(** Passing over [k] characters of a match is dropping them. *)
Lemma scan_skip (k pos : nat) (s : list ascii) :
  scan k pos s = scan 0 (pos + k) (drop k s).
Proof.
  revert k pos. induction s as [| c s IH]; intros k pos.
  - by destruct k.
  - destruct k as [| k]; simpl.
    + by rewrite Nat.add_0_r.
    + rewrite IH. f_equal. lia.
Qed.

(** Every reported span is a match of the pattern at its start. *)
Lemma scan_spec (skip pos : nat) (s : list ascii) (st en : nat) :
  In (st, en) (scan skip pos s) ->
  exists k, skip <= k /\ st = pos + k /\ st < en /\ en <= pos + length s /\
            match_len (drop k s) = Some (en - st).
Proof.
  revert skip pos. induction s as [| c s IH]; intros skip pos; simpl; [done |].
  destruct skip as [| skip].
  - destruct (match_len (c :: s)) as [n |] eqn:Hm.
    + intros [[= <- <-] | Hin].
      * destruct (match_len_shape _ _ Hm) as (Hn & Hlen & _). simpl in Hlen.
        exists 0. rewrite Nat.add_0_r. simpl.
        replace (pos + n - pos) with n by lia. repeat split; try lia. done.
      * destruct (IH _ _ Hin) as (k & Hk & -> & Hlt & Hen & Hml).
        exists (S k). simpl. repeat split; try lia.
        by replace (pos + S k) with (S pos + k) by lia.
    + intros Hin. destruct (IH _ _ Hin) as (k & Hk & -> & Hlt & Hen & Hml).
      exists (S k). simpl. repeat split; try lia.
      by replace (pos + S k) with (S pos + k) by lia.
  - intros Hin. destruct (IH _ _ Hin) as (k & Hk & -> & Hlt & Hen & Hml).
    exists (S k). simpl. repeat split; try lia.
    by replace (pos + S k) with (S pos + k) by lia.
Qed.




Lemma substring_chars (n m : nat) (s : string) :
  list_ascii_of_string (String.substring n m s) = take m (drop n (list_ascii_of_string s)).
Proof.
  revert n m. induction s as [| c s IH]; intros n m.
  - destruct n, m; done.
  - destruct n as [| n]; simpl.
    + destruct m as [| m]; [done |]. simpl. f_equal. apply (IH 0).
    + apply IH.
Qed.

Lemma length_chars (s : string) : length (list_ascii_of_string s) = String.length s.
Proof. induction s; simpl; congruence. Qed.

End ScanFacts.

Section MetricsClaims.

Import Generation.


(** A four-digit year comes out as two entries. *)
Example year_is_split :
  map value (_extract_metrics "In 2024 we grew 12.5% on 3 lines")
  = ["202"; "4"; "12.5%"; "3"].
Proof. vm_compute. reflexivity. Qed.

End MetricsClaims.

(** ** Seed derivation *)

Section SeedFacts.

Import Seed.

Lemma sep_free_cons (c : ascii) (s : string) :
  sep_free (String c s) = true <-> c <> "|"%char /\ sep_free s = true.
Proof.
  unfold sep_free. cbn [PyStr.contains String.prefix].
  destruct (ascii_dec "|" c) as [<- | Hne].
  - replace (String.prefix "" s) with true by (by destruct s).
    simpl. split; [done | by intros [? _]].
  - simpl. split; [intros H; split; [congruence | done] | by intros [_ ?]].
Qed.

(** A separator-free string is not cut by the separator. *)
Lemma sep_free_no_split (x y r : string) :
  sep_free x = true -> x <> y +:+ "|" +:+ r.
Proof.
  revert x. induction y as [| c y IH]; intros x Hx E; subst x.
  - apply sep_free_cons in Hx. by destruct Hx.
  - apply sep_free_cons in Hx. destruct Hx as [_ Hx]. by apply (IH _ Hx).
Qed.

(** Two separator-free heads followed by the separator: the heads and the
    rests agree. *)
Lemma sep_split_inj (x y a b : string) :
  sep_free x = true -> sep_free y = true ->
  x +:+ "|" +:+ a = y +:+ "|" +:+ b -> x = y /\ a = b.
Proof.
  revert y. induction x as [| c x IH]; intros y Hx Hy E.
  - destruct y as [| c' y]; simpl in E; [by injection E |].
    injection E as <- _. apply sep_free_cons in Hy. by destruct Hy.
  - destruct y as [| c' y]; simpl in E.
    + injection E as -> _. apply sep_free_cons in Hx. by destruct Hx.
    + injection E as <- E.
      apply sep_free_cons in Hx, Hy. destruct Hx as [_ Hx], Hy as [_ Hy].
      destruct (IH y Hx Hy E) as [-> ->]. done.
Qed.

Lemma join_sep_inj (l1 l2 : list string) :
  l1 <> [] -> l2 <> [] ->
  Forall (fun s => sep_free s = true) l1 -> Forall (fun s => sep_free s = true) l2 ->
  PyStr.join "|" l1 = PyStr.join "|" l2 -> l1 = l2.
Proof.
  revert l2. induction l1 as [| x l1 IH]; intros l2 Hn1 Hn2 H1 H2 E; [done |].
  destruct l2 as [| y l2]; [done |].
  inversion H1 as [| ? ? Hx H1' ]; inversion H2 as [| ? ? Hy H2']; subst.
  destruct l1 as [| x' l1], l2 as [| y' l2].
  - simpl in E. by subst.
  - exfalso. by apply (sep_free_no_split x y (PyStr.join "|" (y' :: l2)) Hx).
  - exfalso. by apply (sep_free_no_split y x (PyStr.join "|" (x' :: l1)) Hy).
  - change (x +:+ "|" +:+ PyStr.join "|" (x' :: l1)
            = y +:+ "|" +:+ PyStr.join "|" (y' :: l2)) in E.
    destruct (sep_split_inj _ _ _ _ Hx Hy E) as [-> E'].
    f_equal. by apply IH.
Qed.

End SeedFacts.

Section SeedClaims.

Import Seed.

(** C2, as worded (collision-free across splits), fails: the text ["a|b"]
    given as one part and the texts ["a"], ["b"] given as two parts have
    different canonical strings, the same joined string and the same seed.
    So have the empty tuple and the tuple of one empty string. *)
Lemma stable_seed_split_collision :
  (forall w : world,
     canonical_strings w [PStr "a|b"] <> canonical_strings w [PStr "a"; PStr "b"] /\
     joined w [PStr "a|b"] = joined w [PStr "a"; PStr "b"] /\
     _stable_seed w [PStr "a|b"] = _stable_seed w [PStr "a"; PStr "b"]) /\
  (forall w : world,
     canonical_strings w [] <> canonical_strings w [PStr ""] /\
     joined w [] = joined w [PStr ""] /\
     _stable_seed w [] = _stable_seed w [PStr ""]).
Proof. split; intros w; repeat split; done. Qed.

(** C2, as the code has it (seed derivation).  The canonical strings are
    joined with ["|"] and nothing is escaped.  Tuples with the same
    canonical strings have the same seed.  Two tuples, neither without a
    canonical string, none of whose canonical strings contains ["|"], have
    different joined strings as soon as their canonical strings differ. *)
Theorem joined_injective_without_separator (w : world) (p q : list part) :
  joined w p = PyStr.join "|" (canonical_strings w p) /\
  (canonical_strings w p = canonical_strings w q -> _stable_seed w p = _stable_seed w q) /\
  (Forall (fun s => sep_free s = true) (canonical_strings w p) ->
   Forall (fun s => sep_free s = true) (canonical_strings w q) ->
   canonical_strings w p <> [] -> canonical_strings w q <> [] ->
   canonical_strings w p <> canonical_strings w q ->
   joined w p <> joined w q).
Proof.
  split; [reflexivity |]. split.
  - intros E. unfold _stable_seed, joined. by rewrite E.
  - intros Hp Hq Hnp Hnq Hne E. apply Hne.
    by apply join_sep_inj.
Qed.

Lemma joined_injective_without_separator_witness :
  joined Samples.monday [PStr "a"; PNone; PStr "b"]
    <> joined Samples.monday [PStr "ab"; PInt 7].
Proof.
  apply (joined_injective_without_separator Samples.monday
           [PStr "a"; PNone; PStr "b"] [PStr "ab"; PInt 7]).
  - repeat constructor.
  - repeat constructor.
  - done.
  - done.
  - done.
Defined.

End SeedClaims.

(** ** Determinism of generation *)

Section DrawFacts.

Import PyRandom.

(** A computation is steady when more tries never change what it yields. *)
Local Notation "'steady' m" :=
  (forall (n1 n2 : nat) (g : rng) r,
     (n1 <= n2)%nat -> m n1 g = Some r -> m n2 g = Some r) (at level 10, m at level 9).


















End DrawFacts.

Section SeedWorld.

Import Seed.



End SeedWorld.

Section DeterminismClaims.

Import Samples.


(** A set among the parts of a seed, or inside one of them, makes the seed
    depend on the process: the set of the two strings ["SaaS"] and
    ["Pricing"] is printed in one order by a process and in the other order
    by another. *)
Example set_part_depends_on_process :
  (Seed.plain (PSet {["SaaS"; "Pricing"]}) = false /\
   Seed._stable_seed monday [PSet {["SaaS"; "Pricing"]}]
     <> Seed._stable_seed monday_restarted [PSet {["SaaS"; "Pricing"]}]) /\
  (Seed.plain (PDictSet "industries" {["SaaS"; "Pricing"]}) = false /\
   Seed._stable_seed monday [PDictSet "industries" {["SaaS"; "Pricing"]}]
     <> Seed._stable_seed monday_restarted [PDictSet "industries" {["SaaS"; "Pricing"]}]).
Proof.
  split; (split; [reflexivity |]); vm_compute; discriminate.
Qed.



(** The three generators do return on the sample request. *)
Example generators_return :
  Generation.generate_script monday request candidate_a 45
      "Friendly" "High-level" EmptyString tries <> None /\
  Generation.generate_transcript monday request candidate_a
      Samples.script_text "Friendly" "High-level" EmptyString tries <> None /\
  Generation.summarize_interview monday request candidate_a
      Samples.script_text Samples.transcript_text tries <> None.
Proof.
  assert (H : forall (A : Type) (o : option A),
            match o with Some _ => true | None => false end = true -> o <> None)
    by (intros A [a |] E; [discriminate | discriminate E]).
  split; [apply H; vm_compute; reflexivity |].
  split; [apply H; vm_compute; reflexivity |].
  apply H; vm_compute; reflexivity.
Qed.

End DeterminismClaims.

(** * Further properties *)

(** ** The scorer: credit, decomposition and range *)

Section CreditFacts.

Import PyNum Scoring.
Local Open Scope Q_scope.

Lemma of_len_pos (n : nat) : (1 <= n)%nat -> 0 < of_len n.
Proof.
  intros H. unfold of_len, Qlt, inject_Z. simpl. lia.
Qed.

Lemma of_len_le (a b : nat) : (a <= b)%nat -> of_len a <= of_len b.
Proof.
  intros H. unfold of_len, Qle, inject_Z. simpl. lia.
Qed.

(** The share of the requested tags that were found. *)
Lemma ratio_range (a b : nat) :
  (a <= b)%nat ->
  0 <= of_len a / of_len (Nat.max 1 b) <= 1 /\
  ((1 <= a)%nat -> 0 < of_len a / of_len (Nat.max 1 b)) /\
  (a = b -> (1 <= b)%nat -> of_len a / of_len (Nat.max 1 b) == 1).
Proof.
  intros Hab.
  assert (Hd : 0 < of_len (Nat.max 1 b)) by (apply of_len_pos; lia).
  assert (Ha : 0 <= of_len a) by (unfold of_len, Qle, inject_Z; simpl; lia).
  assert (Hle : of_len a <= of_len (Nat.max 1 b)) by (apply of_len_le; lia).
  split; [split |].
  - apply Qle_shift_div_l; [done | lra].
  - apply Qle_shift_div_r; [done | lra].
  - split.
    + intros H1. apply Qlt_shift_div_l; [done |].
      pose proof (of_len_pos a H1). lra.
    + intros -> Hb. rewrite Nat.max_r by lia.
      apply Qmult_inv_r. pose proof (of_len_pos b Hb). lra.
Qed.

Lemma partial_credit_range (cap : Q) (overlap wanted : gset string) :
  0 < cap -> overlap ⊆ wanted ->
  0 <= partial_credit cap overlap wanted <= cap /\
  (overlap <> ∅ -> 0 < partial_credit cap overlap wanted) /\
  (overlap = wanted -> wanted <> ∅ -> partial_credit cap overlap wanted == cap).
Proof.
  intros Hcap Hsub. unfold partial_credit.
  pose proof (subseteq_size _ _ Hsub) as Hsize.
  destruct (ratio_range _ _ Hsize) as ([Hlo Hhi] & Hpos & Hfull).
  set (r := of_len (size overlap) / of_len (Nat.max 1 (size wanted))) in *.
  assert (Hr : 0 <= cap * r <= cap) by nra.
  split; [| split].
  - destruct (py_min_cases cap (cap * r)) as [[_ ->] | [_ ->]]; lra.
  - intros Hne.
    assert (0 < r).
    { apply Hpos. destruct (size overlap) eqn:E; [| lia].
      by apply size_empty_iff, leibniz_equiv in E. }
    destruct (py_min_cases cap (cap * r)) as [[_ ->] | [_ ->]]; nra.
  - intros -> Hne.
    assert (E : r == 1).
    { apply Hfull; [done |]. destruct (size wanted) eqn:E; [| lia].
      by apply size_empty_iff, leibniz_equiv in E. }
    destruct (py_min_cases cap (cap * r)) as [[H ->] | [_ ->]]; [| done].
    rewrite E. ring.
Qed.

End CreditFacts.

(** ** Rounding and clamping keep the order *)

Section OrderFacts.

Import PyNum Scoring.
Local Open Scope Q_scope.

Lemma round_half_even_floor (q : Q) :
  round_half_even q = Qfloor q \/ round_half_even q = (Qfloor q + 1)%Z.
Proof.
  unfold round_half_even.
  destruct (Qcompare _ _); [destruct (Z.even _) | |]; auto.
Qed.

Lemma round_half_even_mono (p q : Q) :
  p <= q -> (round_half_even p <= round_half_even q)%Z.
Proof.
  intros Hpq.
  pose proof (Qfloor_resp_le _ _ Hpq) as Hf.
  destruct (Z.eq_dec (Qfloor p) (Qfloor q)) as [E | NE].
  - unfold round_half_even. rewrite E.
    assert (Hd : p - inject_Z (Qfloor q) <= q - inject_Z (Qfloor q)) by lra.
    destruct (Qcompare (p - inject_Z (Qfloor q)) (1 # 2)) eqn:E1;
      destruct (Qcompare (q - inject_Z (Qfloor q)) (1 # 2)) eqn:E2;
      first [apply Qeq_alt in E1 | apply Qlt_alt in E1 | apply Qgt_alt in E1];
      first [apply Qeq_alt in E2 | apply Qlt_alt in E2 | apply Qgt_alt in E2];
      first [lia | exfalso; lra | destruct (Z.even (Qfloor q)); lia].
  - destruct (round_half_even_floor p) as [-> | ->];
      destruct (round_half_even_floor q) as [-> | ->]; lia.
Qed.

Lemma py_round1_mono (p q : Q) : p <= q -> py_round1 p <= py_round1 q.
Proof.
  intros Hpq. unfold py_round1, Qle. simpl.
  pose proof (round_half_even_mono (p * 10) (q * 10) ltac:(lra)). lia.
Qed.

Lemma clamp_score_mono (p q : Q) : p <= q -> clamp_score p <= clamp_score q.
Proof.
  intros Hpq. pose proof (py_round1_mono p q Hpq) as Hr. unfold clamp_score.
  destruct (py_min_cases 100 (py_round1 p)) as [[? ->] | [? ->]];
    destruct (py_min_cases 100 (py_round1 q)) as [[? ->] | [? ->]];
    destruct (py_max_cases 0 (py_round1 p)) as [[? ?] | [? ?]];
    destruct (py_max_cases 0 (py_round1 q)) as [[? ?] | [? ?]];
    destruct (py_max_cases 0 100) as [[? ?] | [? ?]];
    try congruence; try lra;
    repeat match goal with H : py_max _ _ = _ |- _ => rewrite H; clear H end; lra.
Qed.

(** A total that is not positive is clamped to 0. *)
Lemma clamp_score_nonpos (q : Q) : q <= 0 -> clamp_score q == 0.
Proof.
  intros Hq. pose proof (clamp_score_mono q 0 Hq) as H.
  pose proof (clamp_score_bounds q) as B.
  change (clamp_score 0) with 0 in H. lra.
Qed.

(** The penalty grows with the rate. *)
Lemma rate_penalty_mono (r1 r2 budget : Z) :
  (r1 <= r2)%Z -> rate_penalty r1 budget <= rate_penalty r2 budget.
Proof.
  intros H. unfold rate_penalty.
  assert (Hd : 0 < inject_Z (Z.max 1 budget)) by (unfold Qlt, inject_Z; simpl; lia).
  assert (Hn : inject_Z (r1 - budget) <= inject_Z (r2 - budget))
    by (unfold Qle, inject_Z; simpl; lia).
  assert (Hq : inject_Z (r1 - budget) / inject_Z (Z.max 1 budget) <=
               inject_Z (r2 - budget) / inject_Z (Z.max 1 budget)).
  { apply Qle_shift_div_l; [done |]. unfold Qdiv.
    rewrite <- Qmult_assoc, (Qmult_comm (/ _)), Qmult_inv_r, Qmult_1_r by lra. done. }
  destruct (py_min_cases 1 (inject_Z (r1 - budget) / inject_Z (Z.max 1 budget)))
    as [[? ->] | [? ->]];
    destruct (py_min_cases 1 (inject_Z (r2 - budget) / inject_Z (Z.max 1 budget)))
    as [[? ->] | [? ->]]; lra.
Qed.

End OrderFacts.

Section SignalFacts.

Import PyNum Scoring.
Local Open Scope Q_scope.

(** What a signal adds when it starts from nothing. *)
Local Notation "'alone' sig" := (sig (0, [])) (at level 10, sig at level 9).

(** A signal adds to the total and appends to the reasons, whatever they
    hold. *)
Local Notation "'shifts' sig" :=
  (forall (score : Q) (reasons : list string),
     (sig (score, reasons)).1 == score + (alone sig).1 /\
     (sig (score, reasons)).2 = reasons ++ (alone sig).2) (at level 10, sig at level 9).

Ltac shift_done :=
  intros score reasons; cbn [fst snd]; repeat case_match;
  cbn [fst snd]; split; first [ring | rewrite ?app_nil_r; reflexivity].

Lemma industry_shift (c : criteria) (e : expert) : shifts (industry_signal c e).
Proof. unfold industry_signal; shift_done. Qed.

Lemma function_shift (c : criteria) (e : expert) : shifts (function_signal c e).
Proof. unfold function_signal; shift_done. Qed.

Lemma level_shift (c : criteria) (e : expert) : shifts (level_signal c e).
Proof. unfold level_signal; shift_done. Qed.

Lemma keyword_shift (c : criteria) (e : expert) : shifts (keyword_signal c e).
Proof. unfold keyword_signal; shift_done. Qed.

Lemma credential_shift (c : criteria) (e : expert) : shifts (credential_signal c e).
Proof. unfold credential_signal; shift_done. Qed.

Lemma profile_shift (c : criteria) (e : expert) : shifts (profile_signal c e).
Proof. unfold profile_signal; shift_done. Qed.

Lemma rate_shift (c : criteria) (e : expert) : shifts (rate_signal c e).
Proof. unfold rate_signal; shift_done. Qed.

Ltac range_done := cbn [fst snd length app]; split; [lra | lia].

Lemma industry_range (c : criteria) (e : expert) :
  -12 <= (alone (industry_signal c e)).1 <= 25 /\
  (length (alone (industry_signal c e)).2 <= 1)%nat.
Proof.
  unfold industry_signal.
  destruct (decide (wanted_set (industries c) = ∅)) as [He | Hne]; [range_done |].
  set (overlap := wanted_set (industries c) ∩ list_to_set (industryTags e)).
  destruct (partial_credit_range 25 overlap (wanted_set (industries c))) as (Hr & _ & _);
    [lra | apply intersection_subseteq_l |].
  destruct (decide (overlap = ∅)); range_done.
Qed.

Lemma function_range (c : criteria) (e : expert) :
  0 <= (alone (function_signal c e)).1 <= 25 /\
  (length (alone (function_signal c e)).2 <= 1)%nat.
Proof.
  unfold function_signal.
  destruct (decide (wanted_set (functions c) = ∅)) as [He | Hne]; [range_done |].
  set (overlap := wanted_set (functions c) ∩ list_to_set (functionTags e)).
  destruct (partial_credit_range 25 overlap (wanted_set (functions c))) as (Hr & _ & _);
    [lra | apply intersection_subseteq_l |].
  destruct (decide (overlap = ∅)); range_done.
Qed.

Lemma level_range (c : criteria) (e : expert) :
  0 <= (alone (level_signal c e)).1 <= 10 /\
  (length (alone (level_signal c e)).2 <= 1)%nat.
Proof.
  unfold level_signal. repeat case_match; range_done.
Qed.

Lemma keyword_range (c : criteria) (e : expert) :
  0 <= (alone (keyword_signal c e)).1 <= 30 /\
  (length (alone (keyword_signal c e)).2 <= 1)%nat.
Proof.
  unfold keyword_signal.
  destruct (decide (free_tokens c = ∅)) as [He | Hne]; [range_done |].
  set (overlap := free_tokens c ∩ expert_tokens e).
  destruct (partial_credit_range 30 overlap (free_tokens c)) as (Hr & _ & _);
    [lra | apply intersection_subseteq_l |].
  destruct (decide (overlap = ∅)); range_done.
Qed.

Lemma credential_range (c : criteria) (e : expert) :
  0 <= (alone (credential_signal c e)).1 <= 10 /\
  (length (alone (credential_signal c e)).2 <= 1)%nat.
Proof.
  unfold credential_signal. destruct (cred_hits c e); range_done.
Qed.

Lemma profile_range (c : criteria) (e : expert) :
  0 <= (alone (profile_signal c e)).1 <= 10 /\
  (length (alone (profile_signal c e)).2 <= 1)%nat.
Proof.
  unfold profile_signal.
  set (tokens := list_to_set (_tokenize (get_or falsy_str (profile_text c) EmptyString))
                 : gset string).
  destruct (decide (tokens = ∅)) as [He | Hne]; [range_done |].
  set (overlap := tokens ∩ expert_tokens e).
  destruct (partial_credit_range 10 overlap tokens) as (Hr & _ & _);
    [lra | apply intersection_subseteq_l |].
  destruct (decide (overlap = ∅)); range_done.
Qed.

(** Above the budget the penalty is positive and at most 10. *)
Lemma rate_penalty_range (rate budget : Z) :
  (budget < rate)%Z -> 0 < rate_penalty rate budget <= 10.
Proof.
  intros H. unfold rate_penalty.
  assert (Hn : 0 < inject_Z (rate - budget)) by (unfold Qlt, inject_Z; simpl; lia).
  assert (Hd : 0 < inject_Z (Z.max 1 budget)) by (unfold Qlt, inject_Z; simpl; lia).
  assert (Hr : 0 < inject_Z (rate - budget) / inject_Z (Z.max 1 budget)).
  { apply Qlt_shift_div_l; [done | lra]. }
  destruct (py_min_cases 1 (inject_Z (rate - budget) / inject_Z (Z.max 1 budget)))
    as [[H1 ->] | [H1 ->]]; lra.
Qed.

Lemma rate_range (c : criteria) (e : expert) :
  -10 <= (alone (rate_signal c e)).1 <= 0 /\
  (length (alone (rate_signal c e)).2 <= 1)%nat.
Proof.
  unfold rate_signal.
  destruct (Z.ltb_spec (effective_budget c) (ratePerHour e)) as [Hlt | Hge];
    [| range_done].
  pose proof (rate_penalty_range _ _ Hlt). range_done.
Qed.

(** The equations of the chain of signals in [raw_score]: each one
    shifts what the one before it returned. *)
Ltac signal_chain c e :=
  unfold raw_score;
  set (a1 := industry_signal c e (0, []));
  destruct (function_shift c e a1.1 a1.2) as [Hs2 Hr2];
  rewrite <- surjective_pairing in Hs2, Hr2; set (a2 := function_signal c e a1) in *;
  destruct (level_shift c e a2.1 a2.2) as [Hs3 Hr3];
  rewrite <- surjective_pairing in Hs3, Hr3; set (a3 := level_signal c e a2) in *;
  destruct (keyword_shift c e a3.1 a3.2) as [Hs4 Hr4];
  rewrite <- surjective_pairing in Hs4, Hr4; set (a4 := keyword_signal c e a3) in *;
  destruct (credential_shift c e a4.1 a4.2) as [Hs5 Hr5];
  rewrite <- surjective_pairing in Hs5, Hr5; set (a5 := credential_signal c e a4) in *;
  destruct (profile_shift c e a5.1 a5.2) as [Hs6 Hr6];
  rewrite <- surjective_pairing in Hs6, Hr6; set (a6 := profile_signal c e a5) in *;
  destruct (rate_shift c e a6.1 a6.2) as [Hs7 Hr7];
  rewrite <- surjective_pairing in Hs7, Hr7; set (a7 := rate_signal c e a6) in *.

(** The total and the reasons of [raw_score], signal by signal. *)
Lemma raw_score_parts (c : criteria) (e : expert) :
  (raw_score c e).1 ==
    (alone (industry_signal c e)).1 + (alone (function_signal c e)).1 +
    (alone (level_signal c e)).1 + (alone (keyword_signal c e)).1 +
    (alone (credential_signal c e)).1 + (alone (profile_signal c e)).1 +
    (alone (rate_signal c e)).1 /\
  (raw_score c e).2 =
    (alone (industry_signal c e)).2 ++ (alone (function_signal c e)).2 ++
    (alone (level_signal c e)).2 ++ (alone (keyword_signal c e)).2 ++
    (alone (credential_signal c e)).2 ++ (alone (profile_signal c e)).2 ++
    (alone (rate_signal c e)).2.
Proof.
  signal_chain c e. split.
  - rewrite Hs7, Hs6, Hs5, Hs4, Hs3, Hs2. ring.
  - rewrite Hr7, Hr6, Hr5, Hr4, Hr3, Hr2. rewrite <- !app_assoc. reflexivity.
Qed.

Lemma score_expert_fst (c : criteria) (e : expert) :
  (score_expert c e).1 = clamp_score (raw_score c e).1.
Proof. unfold score_expert. by destruct (raw_score c e). Qed.

Lemma score_expert_snd (c : criteria) (e : expert) :
  (score_expert c e).2 = (raw_score c e).2.
Proof. unfold score_expert. by destruct (raw_score c e). Qed.

(** What a signal appends does not depend on the total it is given, nor on
    the reasons given before. *)
Local Notation "'appends' sig" :=
  (forall (score : Q) (reasons : list string),
     (sig (score, reasons)).2 = reasons ++ (alone sig).2) (at level 10, sig at level 9).

(** X1: the reasons of [score_expert] are those of the seven signals, each
    taken on its own, in the order industry, function, level, keyword,
    credential, profile, rate; what a signal appends depends neither on the
    running total nor on the reasons collected before it. *)
Theorem reasons_in_signal_order (c : criteria) (e : expert) :
  (score_expert c e).2 =
    (alone (industry_signal c e)).2 ++ (alone (function_signal c e)).2 ++
    (alone (level_signal c e)).2 ++ (alone (keyword_signal c e)).2 ++
    (alone (credential_signal c e)).2 ++ (alone (profile_signal c e)).2 ++
    (alone (rate_signal c e)).2 /\
  appends (industry_signal c e) /\ appends (function_signal c e) /\
  appends (level_signal c e) /\ appends (keyword_signal c e) /\
  appends (credential_signal c e) /\ appends (profile_signal c e) /\
  appends (rate_signal c e).
Proof.
  split.
  - rewrite score_expert_snd. signal_chain c e.
    rewrite Hr7, Hr6, Hr5, Hr4, Hr3, Hr2. rewrite <- !app_assoc. reflexivity.
  - repeat split; intros score reasons.
    + exact (proj2 (industry_shift c e score reasons)).
    + exact (proj2 (function_shift c e score reasons)).
    + exact (proj2 (level_shift c e score reasons)).
    + exact (proj2 (keyword_shift c e score reasons)).
    + exact (proj2 (credential_shift c e score reasons)).
    + exact (proj2 (profile_shift c e score reasons)).
    + exact (proj2 (rate_shift c e score reasons)).
Qed.

(** X2: before rounding and clamping the total lies between -22 and 110, so
    both ends of the clamp are needed; at most seven reasons are given. *)
Theorem raw_score_range (c : criteria) (e : expert) :
  -22 <= (raw_score c e).1 <= 110 /\ (length (raw_score c e).2 <= 7)%nat.
Proof.
  destruct (raw_score_parts c e) as [Hs Hr].
  destruct (industry_range c e) as [B1 L1].
  destruct (function_range c e) as [B2 L2].
  destruct (level_range c e) as [B3 L3].
  destruct (keyword_range c e) as [B4 L4].
  destruct (credential_range c e) as [B5 L5].
  destruct (profile_range c e) as [B6 L6].
  destruct (rate_range c e) as [B7 L7].
  split.
  - rewrite Hs. lra.
  - rewrite Hr. rewrite !length_app. lia.
Qed.

(** What the rate signal gives on its own. *)
Lemma rate_alone (c : criteria) (e : expert) :
  (alone (rate_signal c e)).1 ==
    if (effective_budget c <? ratePerHour e)%Z
    then - rate_penalty (ratePerHour e) (effective_budget c) else 0.
Proof.
  unfold rate_signal. destruct (_ <? _)%Z; cbn [fst]; ring.
Qed.

(** X3: of two experts that differ only in their hourly rate (and in what
    the scorer does not read), the dearer one never gets the higher score. *)
Theorem dearer_expert_never_scores_higher (c : criteria) (e1 e2 : expert) :
  industryTags e1 = industryTags e2 ->
  functionTags e1 = functionTags e2 ->
  roleLevel e1 = roleLevel e2 ->
  expertiseSummary e1 = expertiseSummary e2 ->
  topicKeywords e1 = topicKeywords e2 ->
  credentials e1 = credentials e2 ->
  (ratePerHour e1 <= ratePerHour e2)%Z ->
  (score_expert c e2).1 <= (score_expert c e1).1.
Proof.
  intros Hi Hf Hl Hs Hk Hc Hr.
  rewrite !score_expert_fst. apply clamp_score_mono.
  destruct (raw_score_parts c e1) as [-> _].
  destruct (raw_score_parts c e2) as [-> _].
  assert (E1 : alone (industry_signal c e1) = alone (industry_signal c e2))
    by (unfold industry_signal; rewrite Hi; reflexivity).
  assert (E2 : alone (function_signal c e1) = alone (function_signal c e2))
    by (unfold function_signal; rewrite Hf; reflexivity).
  assert (E3 : alone (level_signal c e1) = alone (level_signal c e2))
    by (unfold level_signal; rewrite Hl; reflexivity).
  assert (E4 : alone (keyword_signal c e1) = alone (keyword_signal c e2))
    by (unfold keyword_signal, expert_tokens; rewrite Hs, Hk; reflexivity).
  assert (E5 : alone (credential_signal c e1) = alone (credential_signal c e2))
    by (unfold credential_signal, cred_hits, _flatten_credentials; rewrite Hc; reflexivity).
  assert (E6 : alone (profile_signal c e1) = alone (profile_signal c e2))
    by (unfold profile_signal, expert_tokens; rewrite Hs, Hk; reflexivity).
  rewrite E1, E2, E3, E4, E5, E6, !rate_alone.
  assert (alone_rate :
    (if (effective_budget c <? ratePerHour e2)%Z
     then - rate_penalty (ratePerHour e2) (effective_budget c) else 0) <=
    (if (effective_budget c <? ratePerHour e1)%Z
     then - rate_penalty (ratePerHour e1) (effective_budget c) else 0)).
  { destruct (Z.ltb_spec (effective_budget c) (ratePerHour e1)) as [H1 | H1];
      destruct (Z.ltb_spec (effective_budget c) (ratePerHour e2)) as [H2 | H2];
      try lia.
    - pose proof (rate_penalty_mono _ _ (effective_budget c) Hr). lra.
    - pose proof (rate_penalty_range _ _ H2). lra.
    - lra. }
  lra.
Qed.

Lemma dearer_expert_never_scores_higher_witness :
  (score_expert Samples.request Samples.candidate_c400).1 <=
  (score_expert Samples.request Samples.candidate_c).1.
Proof.
  apply dearer_expert_never_scores_higher; try reflexivity. simpl. lia.
Defined.

(** X4: a request that asks for nothing (no industries, functions or levels,
    and a free text and a profile text without a single token) scores every
    expert 0, whatever the rate; the only reason there can be is the one for
    a rate above the budget. *)
Theorem empty_request_scores_zero (c : criteria) (e : expert) :
  wanted_set (industries c) = ∅ ->
  wanted_set (functions c) = ∅ ->
  wanted_set (levels c) = ∅ ->
  _tokenize (get_or falsy_str (free_text c) "") = [] ->
  _tokenize (get_or falsy_str (profile_text c) "") = [] ->
  (score_expert c e).1 == 0 /\
  (score_expert c e).2 =
    if (effective_budget c <? ratePerHour e)%Z
    then ["Rate above budget; slight penalty applied."] else [].
Proof.
  intros Hi Hf Hl Ht Hp.
  assert (E1 : alone (industry_signal c e) = (0, [])).
  { unfold industry_signal. rewrite Hi. reflexivity. }
  assert (E2 : alone (function_signal c e) = (0, [])).
  { unfold function_signal. rewrite Hf. reflexivity. }
  assert (E3 : alone (level_signal c e) = (0, [])).
  { unfold level_signal. rewrite Hl. reflexivity. }
  assert (E4 : alone (keyword_signal c e) = (0, [])).
  { unfold keyword_signal, free_tokens. rewrite Ht. reflexivity. }
  assert (E5 : alone (credential_signal c e) = (0, [])).
  { unfold credential_signal, cred_hits, free_tokens. rewrite Ht. reflexivity. }
  assert (E6 : alone (profile_signal c e) = (0, [])).
  { unfold profile_signal. rewrite Hp. reflexivity. }
  destruct (raw_score_parts c e) as [Hs Hr].
  rewrite E1, E2, E3, E4, E5, E6 in Hs, Hr. cbn [fst snd app] in Hs, Hr.
  rewrite score_expert_fst, score_expert_snd, Hr. split.
  - apply clamp_score_nonpos. rewrite Hs.
    destruct (rate_range c e) as [B _]. lra.
  - unfold rate_signal. by destruct (_ <? _)%Z.
Qed.

Lemma empty_request_scores_zero_witness :
  (score_expert MoreSamples.request_empty Samples.candidate_b).1 == 0 /\
  (score_expert MoreSamples.request_empty Samples.candidate_b).2 =
    ["Rate above budget; slight penalty applied."].
Proof.
  apply (empty_request_scores_zero MoreSamples.request_empty Samples.candidate_b);
    reflexivity.
Defined.

(** The credit never decreases when more of the requested set is found. *)
Lemma partial_credit_mono (cap : Q) (found more wanted : gset string) :
  0 < cap -> found ⊆ more ->
  partial_credit cap found wanted <= partial_credit cap more wanted.
Proof.
  intros Hcap Hsub. unfold partial_credit.
  pose proof (subseteq_size _ _ Hsub) as Hsize.
  assert (Hd : 0 < of_len (Nat.max 1 (size wanted))) by (apply of_len_pos; lia).
  pose proof (of_len_le _ _ Hsize) as Hle.
  assert (Hr : of_len (size found) / of_len (Nat.max 1 (size wanted))
               <= of_len (size more) / of_len (Nat.max 1 (size wanted))).
  { apply Qle_shift_div_l; [done |].
    unfold Qdiv. rewrite <- Qmult_assoc, (Qmult_comm (/ _)), Qmult_inv_r by lra. lra. }
  revert Hr.
  generalize (of_len (size found) / of_len (Nat.max 1 (size wanted)))
             (of_len (size more) / of_len (Nat.max 1 (size wanted))).
  intros r1 r2 Hr.
  destruct (py_min_cases cap (cap * r1)) as [[H1 ->] | [H1 ->]];
    destruct (py_min_cases cap (cap * r2)) as [[H2 ->] | [H2 ->]]; nra.
Qed.

(** X5: the credit for an overlap, [min(cap, cap * (len(overlap) / max(1,
    len(wanted))))], is never negative and never above the cap, is positive
    as soon as one requested item is found, never decreases when more of the
    requested items are found, and is the whole cap when all of them are: 25
    for the industries, 30 for the tokens of the free text. *)
Theorem credit_grows_with_overlap (c : criteria) (e : expert) (cap : Q)
    (found more wanted : gset string) :
  0 < cap -> found ⊆ more -> more ⊆ wanted ->
  (0 <= partial_credit cap found wanted /\
   partial_credit cap found wanted <= partial_credit cap more wanted /\
   partial_credit cap more wanted <= cap) /\
  (found <> ∅ -> 0 < partial_credit cap found wanted) /\
  (wanted <> ∅ -> partial_credit cap wanted wanted == cap) /\
  (wanted_set (industries c) <> ∅ ->
   wanted_set (industries c) ⊆ list_to_set (industryTags e) ->
   (alone (industry_signal c e)).1 == 25) /\
  (free_tokens c <> ∅ -> free_tokens c ⊆ expert_tokens e ->
   (alone (keyword_signal c e)).1 == 30).
Proof.
  intros Hcap Hfm Hmw.
  assert (Hfw : found ⊆ wanted) by set_solver.
  destruct (partial_credit_range cap found wanted Hcap Hfw) as ([Hlo _] & Hpos & _).
  destruct (partial_credit_range cap more wanted Hcap Hmw) as ([_ Hhi] & _ & _).
  destruct (partial_credit_range cap wanted wanted Hcap) as (_ & _ & Hfull); [done |].
  split; [split; [done | split; [by apply partial_credit_mono | done]] |].
  split; [done |]. split; [by apply Hfull |]. split.
  - intros Hne Hsub. unfold industry_signal.
    destruct (decide (wanted_set (industries c) = ∅)); [done |].
    assert (E : wanted_set (industries c) ∩ list_to_set (industryTags e) =
                wanted_set (industries c)) by set_solver.
    rewrite E. destruct (decide (_ = ∅)); [done |]. cbn [fst].
    destruct (partial_credit_range 25 (wanted_set (industries c)) (wanted_set (industries c)))
      as (_ & _ & H25); [lra | done |].
    rewrite H25 by done. ring_simplify. reflexivity.
  - intros Hne Hsub. unfold keyword_signal.
    destruct (decide (free_tokens c = ∅)); [done |].
    assert (E : free_tokens c ∩ expert_tokens e = free_tokens c) by set_solver.
    rewrite E. destruct (decide (_ = ∅)); [done |]. cbn [fst].
    destruct (partial_credit_range 30 (free_tokens c) (free_tokens c))
      as (_ & _ & H30); [lra | done |].
    rewrite H30 by done. ring.
Qed.

Lemma credit_grows_with_overlap_witness :
  partial_credit 25 {["SaaS"]} {["SaaS"; "Retail"]}
    <= partial_credit 25 {["SaaS"; "Retail"]} {["SaaS"; "Retail"]} /\
  (alone (industry_signal Samples.request Samples.candidate_a)).1 == 25.
Proof.
  destruct (credit_grows_with_overlap Samples.request Samples.candidate_a 25
              {["SaaS"]} {["SaaS"; "Retail"]} {["SaaS"; "Retail"]})
    as ((_ & H1 & _) & _ & _ & H2 & _).
  - reflexivity.
  - set_solver.
  - set_solver.
  - split; [exact H1 |]. apply H2.
    + unfold wanted_set. cbn. set_solver.
    + unfold wanted_set. cbn. set_solver.
Defined.

End SignalFacts.

(** ** The tokenizer *)

Section TokenFacts.

Import PyStr.

Local Notation "'chars' s" := (list_ascii_of_string s) (at level 10, s at level 9).

Lemma chars_app (s t : string) : chars (s +:+ t) = chars s ++ chars t.
Proof. induction s as [| c s IH]; simpl; [done | by rewrite IH]. Qed.

(** Every run that [alnum_runs] yields is made of the characters of the run
    being read and of the letters and digits of the text. *)
Lemma alnum_runs_chars (P : ascii -> Prop) (s run t : string) :
  List.Forall P (chars run) ->
  List.Forall (fun c => is_alnum c = true -> P c) (chars s) ->
  In t (alnum_runs run s) ->
  t <> "" /\ List.Forall P (chars t).
Proof.
  revert run. induction s as [| c s IH]; intros run Hrun Hs Hin; simpl in *.
  - destruct run; [done |]. destruct Hin as [<- | []]. done.
  - inversion Hs as [| ? ? Hc Hs']; subst.
    destruct (is_alnum c) eqn:Ec.
    + apply (IH (run +:+ String c "")); [| done | done].
      rewrite chars_app. apply List.Forall_app. split; [done |].
      constructor; [by apply Hc | constructor].
    + destruct run as [| r run].
      * by apply (IH "").
      * destruct Hin as [<- | Hin]; [done |].
        apply (IH ""); [constructor | done | done].
Qed.

Lemma lower_char_not_upper (c : ascii) : is_upper (lower_char c) = false.
Proof. destruct c as [[] [] [] [] [] [] [] []]; vm_compute; reflexivity. Qed.

Lemma chars_lower (s : string) :
  List.Forall (fun c => is_upper c = false) (chars (lower s)).
Proof.
  induction s as [| c s IH]; simpl; constructor; [apply lower_char_not_upper | done].
Qed.

Lemma lower_fixed (s : string) :
  List.Forall (fun c => is_upper c = false) (chars s) -> lower s = s.
Proof.
  induction s as [| c s IH]; simpl; [done |].
  intros H. inversion H as [| ? ? Hc Hs]; subst.
  unfold lower_char. rewrite Hc. by rewrite IH.
Qed.

(** The runs read from a lower-cased text hold lower-case letters and
    digits only. *)
Lemma findall_lower_chars (text t : string) :
  In t (findall_alnum (lower text)) ->
  t <> "" /\ List.Forall (fun c => is_lower c || is_digit c = true) (chars t).
Proof.
  intros Hin. unfold findall_alnum in Hin.
  apply (alnum_runs_chars _ (lower text) "" t); [constructor | | done].
  eapply List.Forall_impl; [| apply chars_lower].
  intros c Hu Ha. unfold is_alnum in Ha. rewrite Hu in Ha.
  by rewrite orb_false_r in Ha.
Qed.

(** X6: every token that [_tokenize] returns is made of lower-case letters
    and digits, has at least three of them, is not a stop word and is left
    as it is by [lower]. *)
Theorem tokenize_tokens (text t : string) :
  In t (Scoring._tokenize text) ->
  List.Forall (fun c => is_lower c || is_digit c = true) (chars t) /\
  (3 <= String.length t)%nat /\
  (t ∉ Scoring.STOPWORDS) /\
  lower t = t.
Proof.
  intros Hin. unfold Scoring._tokenize in Hin.
  destruct text as [| c text]; [done |].
  apply filter_In in Hin. destruct Hin as [Hrun Hkeep].
  apply andb_prop in Hkeep. destruct Hkeep as [Hstop Hlen].
  destruct (findall_lower_chars _ _ Hrun) as [_ Hchars].
  split; [done |]. split; [by apply Nat.ltb_lt in Hlen |].
  split; [by apply negb_true_iff, bool_decide_eq_false in Hstop |].
  apply lower_fixed. eapply List.Forall_impl; [| exact Hchars].
  intros a Ha. unfold is_upper, is_lower, is_digit in *.
  destruct (65 <=? code a)%nat eqn:E1; destruct (code a <=? 90)%nat eqn:E2; try done.
  apply Nat.leb_le in E1, E2.
  apply orb_prop in Ha. destruct Ha as [Ha | Ha]; apply andb_prop in Ha;
    destruct Ha as [Ha1 Ha2]; apply Nat.leb_le in Ha1, Ha2; lia.
Qed.

Lemma tokenize_tokens_witness :
  (3 <= String.length "pricing")%nat /\ lower "pricing" = "pricing".
Proof.
  destruct (tokenize_tokens "SaaS Pricing and the packaging" "pricing")
    as (_ & H1 & _ & H2).
  - vm_compute. auto.
  - split; [exact H1 | exact H2].
Defined.

End TokenFacts.

(** ** Storing a ranking and reading it back *)

Section PersistenceFacts.

Import PyNum Ranking Persistence.
Local Open Scope Q_scope.

(** Sorting leaves a list alone that is in descending order already. *)
Lemma sort_by_score_desc_fixed (l : list ranked_entry) :
  Sorted score_ge l -> sort_by_score_desc l = l.
Proof.
  induction 1 as [| x l Hl IH Hhd]; [done |].
  unfold sort_by_score_desc in *. simpl. rewrite IH.
  destruct Hhd as [| y l' Hxy]; [done |]. simpl.
  unfold score_ge in Hxy. destruct (Qltb_spec (r_score x) (r_score y)); [lra | done].
Qed.

(** The dictionary of experts: under an id of the pool the last expert with
    that id, elsewhere what it held before. *)
Lemma expert_map_of_some (experts : list expert) (acc : gmap string expert) :
  Forall (fun e => is_Some (eid e)) experts ->
  exists m, expert_map_of experts acc = Some m /\
    (forall i, (forall e, In e experts -> eid e <> Some i) -> m !! i = acc !! i) /\
    (NoDup (map eid experts) ->
     forall e i, In e experts -> eid e = Some i -> m !! i = Some e).
Proof.
  intros H. revert acc. induction H as [| e l [j Hj] _ IH]; intros acc; simpl.
  - exists acc. done.
  - rewrite Hj. destruct (IH (<[j := e]> acc)) as (m & Hm & Hout & Hin).
    exists m. split; [done |]. split.
    + intros i Hi. rewrite Hout by (intros e' He'; apply Hi; by right).
      apply lookup_insert_ne. intros ->. by apply (Hi e); [left |].
    + intros Hnd e' i He' Hi. apply NoDup_cons in Hnd. destruct Hnd as [Hnotin Hnd].
      destruct He' as [<- | He']; [| by apply Hin].
      assert (i = j) as -> by congruence.
      rewrite Hout; [apply lookup_insert_eq |].
      intros e' He' E. apply Hnotin. rewrite <- E.
      apply list_elem_of_In. by apply in_map.
Qed.

(** The dictionary holds experts of the pool only, each under its id. *)
Lemma expert_map_of_sound (experts : list expert) (acc m : gmap string expert)
    (i : string) (e : expert) :
  expert_map_of experts acc = Some m -> m !! i = Some e ->
  (In e experts /\ eid e = Some i) \/ acc !! i = Some e.
Proof.
  revert acc. induction experts as [| e' l IH]; intros acc Hm Hi; simpl in Hm.
  - right. congruence.
  - destruct (eid e') as [j |] eqn:Hj; [| done].
    destruct (IH _ Hm Hi) as [[Hin Heid] | Hacc].
    + left. split; [by right | done].
    + destruct (decide (j = i)) as [-> | Hne].
      * rewrite lookup_insert_eq in Hacc. left. split; [left |]; congruence.
      * rewrite lookup_insert_ne in Hacc by done. by right.
Qed.

Lemma restore_sound (m : gmap string expert) (data : list stored_entry)
    (x : ranked_entry) :
  In x (restore m data) ->
  exists item i, In item data /\ s_id item = Some i /\ m !! i = Some (r_expert x) /\
    r_score x = default 0 (s_score item) /\
    r_reasons x = default [] (s_reasons item).
Proof.
  induction data as [| item rest IH]; simpl; [done |].
  destruct (s_id item) as [i |] eqn:Hid; simpl.
  - destruct (m !! i) as [e |] eqn:Hm.
    + intros [<- | Hin].
      * exists item, i. simpl. auto.
      * destruct (IH Hin) as (it & j & ? & ?). exists it, j. auto.
    + intros Hin. destruct (IH Hin) as (it & j & ? & ?). exists it, j. auto.
  - intros Hin. destruct (IH Hin) as (it & j & ? & ?). exists it, j. auto.
Qed.

Lemma restore_length (m : gmap string expert) (data : list stored_entry) :
  (length (restore m data) <= length data)%nat.
Proof.
  induction data as [| item rest IH]; simpl; [done |].
  destruct (s_id item ≫= _); simpl; lia.
Qed.

(** X7: a ranking in descending order over experts of a pool with distinct
    ids survives being stored and read back: [_serialize_ranked] succeeds
    and [_deserialize_ranked] of its result, against the same pool, is the
    ranking itself, entry for entry and in the same order. *)
Theorem ranking_round_trip (experts : list expert) (ranked : list ranked_entry) :
  Forall (fun e => is_Some (eid e)) experts ->
  NoDup (map eid experts) ->
  Forall (fun x => In (r_expert x) experts) ranked ->
  Sorted score_ge ranked ->
  exists data,
    _serialize_ranked ranked = Some data /\
    _deserialize_ranked (Some data) experts = Some ranked.
Proof.
  intros Hids Hnd Hin Hsorted.
  destruct (expert_map_of_some experts ∅ Hids) as (m & Hm & _ & Hlook).
  specialize (Hlook Hnd).
  assert (Hser : exists data, _serialize_ranked ranked = Some data /\
                              restore m data = ranked).
  { clear Hsorted. induction Hin as [| x l Hx _ (data & Hdata & Hrest)]; simpl.
    - by exists [].
    - rewrite List.Forall_forall in Hids. destruct (Hids _ Hx) as [i Hi].
      rewrite Hi, Hdata. eexists. split; [reflexivity |].
      simpl. rewrite (Hlook _ _ Hx Hi), Hrest. by destruct x. }
  destruct Hser as (data & Hdata & Hrest).
  exists data. split; [done |].
  unfold _deserialize_ranked. rewrite Hm. simpl.
  by rewrite Hrest, sort_by_score_desc_fixed.
Qed.

Lemma ranking_round_trip_witness :
  exists data,
    _serialize_ranked (rank_experts Samples.request Samples.pool) = Some data /\
    _deserialize_ranked (Some data) Samples.pool =
      Some (rank_experts Samples.request Samples.pool).
Proof.
  apply ranking_round_trip.
  - repeat constructor; eexists; reflexivity.
  - apply (bool_decide_unpack _). vm_compute. exact I.
  - apply List.Forall_forall. intros x Hx. unfold rank_experts in Hx.
    apply (Permutation_in _ (sort_by_score_desc_perm _)) in Hx.
    apply in_map_iff in Hx. destruct Hx as (e & <- & He).
    by rewrite rank_entry_expert.
  - apply StronglySorted_Sorted, sort_by_score_desc_strongly_sorted.
Defined.

(** X8: reading a stored ranking back never invents anything: every entry of
    the result carries an expert of the pool, found under the id of a stored
    entry whose score and reasons it has (0 and no reasons where the stored
    entry lacks them); stored entries with no id or an unknown id are
    dropped, so the result is no longer than what was stored; and the result
    is in descending order of score, whatever order was stored. *)
Theorem deserialize_is_sound (serialized : option (list stored_entry))
    (experts : list expert) (out : list ranked_entry) :
  _deserialize_ranked serialized experts = Some out ->
  Forall (fun x =>
            In (r_expert x) experts /\
            exists item, In item (default [] serialized) /\
              s_id item = eid (r_expert x) /\
              r_score x = default 0 (s_score item) /\
              r_reasons x = default [] (s_reasons item)) out /\
  (length out <= length (default [] serialized))%nat /\
  StronglySorted score_ge out.
Proof.
  unfold _deserialize_ranked.
  destruct (expert_map_of experts ∅) as [m |] eqn:Hm; [| done].
  intros [= <-]. split; [| split].
  - apply List.Forall_forall. intros x Hx.
    apply (Permutation_in _ (sort_by_score_desc_perm _)) in Hx.
    destruct (restore_sound _ _ _ Hx) as (item & i & Hitem & Hid & Hlook & Hs & Hr).
    destruct (expert_map_of_sound _ _ _ _ _ Hm Hlook) as [[Hin Heid] | Hempty].
    + split; [done |]. exists item. rewrite Heid. auto.
    + by rewrite lookup_empty in Hempty.
  - rewrite (Permutation_length (sort_by_score_desc_perm _)). apply restore_length.
  - apply sort_by_score_desc_strongly_sorted.
Qed.

Lemma deserialize_is_sound_witness :
  exists out,
    _deserialize_ranked
      (Some [ {| s_id := Some "exp-c"; s_score := Some 10; s_reasons := None |};
              {| s_id := Some "exp-gone"; s_score := Some 90; s_reasons := Some [] |};
              {| s_id := None; s_score := Some 50; s_reasons := Some [] |};
              {| s_id := Some "exp-a"; s_score := Some 80; s_reasons := Some [] |} ])
      Samples.pool = Some out /\
    (length out <= 4)%nat /\ StronglySorted score_ge out.
Proof.
  destruct (_deserialize_ranked _ Samples.pool) as [out |] eqn:E;
    [| vm_compute in E; discriminate E].
  exists out. split; [reflexivity |].
  destruct (deserialize_is_sound _ _ _ E) as (_ & Hlen & Hsorted).
  split; [exact Hlen | exact Hsorted].
Defined.

End PersistenceFacts.

(** ** The history bonus and the agencies' mentions *)

Section SynthesisFacts.

Import PyNum Ranking Synthesis.

(** What one stored interview adds to the bonus of an expert. *)
Local Notation "'gain' e item" :=
  (2 * overlap_count (list_to_set (industryTags e)) (h_industries item) +
   2 * overlap_count (list_to_set (functionTags e)) (h_functions item) +
   overlap_count (list_to_set (map PyStr.lower (topicKeywords e)))
     (map PyStr.lower (h_topics item)))%Z
  (at level 10, e at level 9, item at level 9).

Lemma overlap_count_nonneg (tags : gset string) (others : list string) :
  (0 <= overlap_count tags others)%Z.
Proof. unfold overlap_count. lia. Qed.

Lemma overlap_count_empty (others : list string) : overlap_count ∅ others = 0%Z.
Proof.
  unfold overlap_count.
  replace (∅ ∩ list_to_set others : gset string) with (∅ : gset string);
    [done | symmetry; apply (left_absorb_L _ _)].
Qed.

(** The loop of [_history_bonus] adds up the gains. *)
Lemma history_loop_sum (e : expert) (hist : list history_item) (b : Z) :
  foldl (fun bonus item =>
           bonus + 2 * overlap_count (list_to_set (industryTags e)) (h_industries item)
                 + 2 * overlap_count (list_to_set (functionTags e)) (h_functions item)
                 + overlap_count (list_to_set (map PyStr.lower (topicKeywords e)))
                     (map PyStr.lower (h_topics item)))%Z b hist
  = (b + foldr (fun item s => gain e item + s) 0 hist)%Z.
Proof.
  revert b. induction hist as [| item hist IH]; intros b; simpl; [lia |].
  rewrite IH. lia.
Qed.

Lemma gains_nonneg (e : expert) (hist : list history_item) :
  (0 <= foldr (fun item s => gain e item + s) 0 hist)%Z.
Proof.
  induction hist as [| item hist IH]; simpl; [lia |].
  pose proof (overlap_count_nonneg (list_to_set (industryTags e)) (h_industries item)).
  pose proof (overlap_count_nonneg (list_to_set (functionTags e)) (h_functions item)).
  pose proof (overlap_count_nonneg (list_to_set (map PyStr.lower (topicKeywords e)))
                (map PyStr.lower (h_topics item))).
  lia.
Qed.

Lemma gains_shift (e : expert) (l : list history_item) (b : Z) :
  foldr (fun item s => gain e item + s)%Z b l =
    (b + foldr (fun item s => gain e item + s) 0 l)%Z.
Proof.
  revert b. induction l as [| item l IH]; intros b; simpl; [lia |]. rewrite IH. lia.
Qed.

Lemma history_bonus_sum (e : expert) (hist : list history_item) :
  _history_bonus e hist =
    Z.min 10 (foldr (fun item s => gain e item + s) 0 hist)%Z.
Proof.
  unfold _history_bonus. destruct hist as [| item hist]; [done |].
  by rewrite history_loop_sum.
Qed.

(** X9: the history bonus lies between 0 and 10; more history never makes it
    smaller; and it is 0 for an expert without tags and keywords, and when
    there is no history. *)
Theorem history_bonus_range (e : expert) (hist more : list history_item) :
  (0 <= _history_bonus e hist <= 10)%Z /\
  (_history_bonus e hist <= _history_bonus e (hist ++ more))%Z /\
  (industryTags e = [] -> functionTags e = [] -> topicKeywords e = [] ->
   _history_bonus e hist = 0%Z) /\
  _history_bonus e [] = 0%Z.
Proof.
  rewrite !history_bonus_sum.
  pose proof (gains_nonneg e hist) as H1.
  split; [lia |]. split; [| split; [| done]].
  - rewrite foldr_app.
    pose proof (gains_nonneg e more) as H2.
    rewrite (gains_shift e hist (foldr _ _ more)). lia.
  - intros Hi Hf Hk. rewrite Hi, Hf, Hk. simpl.
    assert (foldr (fun item s =>
                     2 * overlap_count ∅ (h_industries item) +
                     2 * overlap_count ∅ (h_functions item) +
                     overlap_count ∅ (map PyStr.lower (h_topics item)) + s) 0 hist = 0)%Z
      as ->; [| done].
    clear H1. induction hist as [| item l IH]; simpl; [done |].
    rewrite IH, !overlap_count_empty. done.
Qed.

(** The recommendations of all agencies, each with its agency, in the order
    the loops of [_synthesize_recommendations] visit them. *)
Local Notation "'visits' ags" :=
  (concat (map (fun a => map (pair a) (recommended_experts a)) ags))
  (at level 10, ags at level 9).

Local Notation "'names' i" :=
  (fun v : agency_response * recommendation => bool_decide (rec_id v.2 = Some i))
  (at level 10, i at level 9).

Local Notation "'worded' v" :=
  (str_opt (agency_name v.1) +:+ ": " +:+ str_opt (fit_reason v.2))
  (at level 10, v at level 9).

Lemma note_recommendation_spec (a : agency_response) (m : mentions_t)
    (rec : recommendation) (i : string) :
  i <> "" ->
  let m' := note_recommendation a m rec in
  default 0%Z (m'.1 !! i) =
    (default 0 (m.1 !! i) + Z.of_nat (length (List.filter (names i) [(a, rec)])))%Z /\
  default [] (m'.2 !! i) =
    default [] (m.2 !! i) ++ map (fun v => worded v) (List.filter (names i) [(a, rec)]) /\
  (m.1 !! "" = None -> m'.1 !! "" = None).
Proof.
  intros Hi. destruct m as [cnt rsn]. unfold note_recommendation. simpl.
  destruct (rec_id rec) as [[| ch j] |] eqn:Hrec; simpl.
  - rewrite bool_decide_eq_false_2 by congruence. simpl.
    rewrite app_nil_r. split; [lia | done].
  - destruct (decide (String ch j = i)) as [<- | Hne].
    + rewrite bool_decide_eq_true_2 by done. simpl.
      rewrite !lookup_insert_eq. simpl. split; [lia |]. split; [done |].
      intros H. by rewrite lookup_insert_ne.
    + rewrite bool_decide_eq_false_2 by congruence. simpl.
      rewrite !lookup_insert_ne by done. rewrite app_nil_r.
      split; [lia |]. split; [done |]. done.
  - rewrite app_nil_r. split; [lia | done].
Qed.

Lemma note_all_spec (a : agency_response) (recs : list recommendation)
    (m : mentions_t) (i : string) :
  i <> "" ->
  let m' := foldl (note_recommendation a) m recs in
  default 0%Z (m'.1 !! i) =
    (default 0 (m.1 !! i) +
     Z.of_nat (length (List.filter (names i) (map (pair a) recs))))%Z /\
  default [] (m'.2 !! i) =
    default [] (m.2 !! i) ++
    map (fun v => worded v) (List.filter (names i) (map (pair a) recs)) /\
  (m.1 !! "" = None -> m'.1 !! "" = None).
Proof.
  intros Hi. revert m. induction recs as [| rec recs IH]; intros m; simpl.
  - rewrite app_nil_r. split; [lia | done].
  - destruct (IH (note_recommendation a m rec)) as (H1 & H2 & H3).
    destruct (note_recommendation_spec a m rec i Hi) as (G1 & G2 & G3).
    simpl in G1, G2. rewrite H1, H2, G1, G2.
    destruct (bool_decide (rec_id rec = Some i)); simpl.
    + split; [lia |]. split; [by rewrite <- app_assoc | auto].
    + rewrite app_nil_r. split; [lia |]. split; [done | auto].
Qed.

Lemma collect_from_spec (ags : list agency_response) (m : mentions_t) (i : string) :
  i <> "" ->
  let m' := foldl (fun m a => foldl (note_recommendation a) m (recommended_experts a))
                  m ags in
  default 0%Z (m'.1 !! i) =
    (default 0 (m.1 !! i) + Z.of_nat (length (List.filter (names i) (visits ags))))%Z /\
  default [] (m'.2 !! i) =
    default [] (m.2 !! i) ++ map (fun v => worded v) (List.filter (names i) (visits ags)) /\
  (m.1 !! "" = None -> m'.1 !! "" = None).
Proof.
  intros Hi. revert m. induction ags as [| a ags IH]; intros m; simpl.
  - rewrite app_nil_r. split; [lia | done].
  - destruct (IH (foldl (note_recommendation a) m (recommended_experts a)))
      as (H1 & H2 & H3).
    destruct (note_all_spec a (recommended_experts a) m i Hi) as (G1 & G2 & G3).
    simpl in G1, G2. rewrite H1, H2, G1, G2.
    rewrite List.filter_app, length_app, map_app.
    split; [lia |]. split; [by rewrite <- app_assoc | auto].
Qed.

(** X10: after the loop over the agency responses, the number of mentions
    kept for an expert id is the number of recommendations, over all
    agencies, that name it, and the reasons kept for it are those
    recommendations worded as ["agency: fit reason"], in the order of the
    responses; recommendations without an id, or with an empty one, are
    counted for nobody. *)
Theorem mentions_are_counted (ags : list agency_response) (i : string) :
  i <> "" ->
  default 0%Z ((collect_mentions ags).1 !! i) =
    Z.of_nat (length (List.filter (names i) (visits ags))) /\
  default [] ((collect_mentions ags).2 !! i) =
    map (fun v => worded v) (List.filter (names i) (visits ags)) /\
  (collect_mentions ags).1 !! "" = None.
Proof.
  intros Hi. unfold collect_mentions.
  destruct (collect_from_spec ags (∅, ∅) i Hi) as (H1 & H2 & H3).
  cbn [fst snd] in H1, H2, H3. rewrite lookup_empty in H1. rewrite lookup_empty in H2.
  cbn [default] in H1, H2. rewrite H1, H2.
  split; [lia |]. split; [done |]. apply H3, lookup_empty.
Qed.

Lemma mentions_are_counted_witness :
  default 0%Z ((collect_mentions Samples.agencies).1 !! "exp-b") = 2%Z /\
  default [] ((collect_mentions Samples.agencies).2 !! "exp-b") =
    ["NEXUS: Strong match on industry and function."; "PRIME: None"].
Proof.
  destruct (mentions_are_counted Samples.agencies "exp-b") as (H1 & H2 & _); [done |].
  rewrite H1, H2. split; reflexivity.
Defined.

End SynthesisFacts.

(** ** Synthesis on top of the base ranking *)

Section SynthesisOrder.

Import PyNum Ranking Synthesis.
Local Open Scope Q_scope.

(** A whole number of tenths between 0 and 100 is left alone by the clamp. *)
Lemma clamp_score_fixed (k : Z) :
  (0 <= k <= 1000)%Z -> Scoring.clamp_score (k # 10) == k # 10.
Proof.
  intros Hk. unfold Scoring.clamp_score.
  assert (E : py_round1 (k # 10) = k # 10).
  { unfold py_round1, round_half_even.
    assert (Hf : Qfloor ((k # 10) * 10) = k).
    { unfold Qmult, Qfloor. simpl. apply Z.div_mul. lia. }
    rewrite Hf.
    assert (Hd : (k # 10) * 10 - inject_Z k == 0).
    { unfold Qeq, Qminus, Qplus, Qmult, Qopp, inject_Z. simpl. lia. }
    destruct (Qcompare _ _) eqn:Ec; [| done |].
    - apply Qeq_alt in Ec. lra.
    - apply Qgt_alt in Ec. lra. }
  rewrite E.
  assert (B : 0 <= k # 10 <= 100) by (unfold Qle; simpl; lia).
  destruct (py_min_cases 100 (k # 10)) as [[? ->] | [? ->]];
    [destruct (py_max_cases 0 (k # 10)) as [[? ->] | [? ->]]; lra |].
  destruct (py_max_cases 0 100) as [[? ->] | [? ->]]; lra.
Qed.

(** Adding a bonus between 0 and 25 to a clamped score and clamping again
    gives at least the score and at most 25 more. *)
Lemma clamp_score_bonus (s d : Q) :
  0 <= d <= 25 ->
  Scoring.clamp_score s <= Scoring.clamp_score (Scoring.clamp_score s + d) /\
  Scoring.clamp_score (Scoring.clamp_score s + d) <= Scoring.clamp_score s + 25.
Proof.
  intros Hd. destruct (clamp_score_tenths s) as (k & Hk & Ek).
  pose proof (clamp_score_fixed k Hk) as Hfix.
  split.
  - rewrite Ek at 1. rewrite <- Hfix.
    apply clamp_score_mono. lra.
  - destruct (Z_le_gt_dec (k + 250) 1000) as [Hle | Hgt].
    + pose proof (clamp_score_fixed (k + 250) ltac:(lia)) as Hfix'.
      assert (E : (k + 250) # 10 == (k # 10) + 25).
      { unfold Qeq, Qplus. simpl. lia. }
      rewrite Ek at 2. rewrite <- E, <- Hfix'.
      apply clamp_score_mono. lra.
    + pose proof (clamp_score_bounds (Scoring.clamp_score s + d)) as B.
      assert (100 < (k # 10) + 25) by (unfold Qlt, Qplus; simpl; lia). lra.
Qed.

Lemma rank_entry_score (c : criteria) (e : expert) :
  r_score (rank_entry c e) = (Scoring.score_expert c e).1.
Proof. unfold rank_entry. by destruct (Scoring.score_expert c e). Qed.

(** With distinct ids, the dictionary of base scores holds every ranked
    entry's score under its expert's id. *)
Lemma base_scores_of_lookup (ranked : list ranked_entry) (acc bs : gmap string Q) :
  NoDup (map (fun item => eid (r_expert item)) ranked) ->
  base_scores_of ranked acc = Some bs ->
  (forall item i, In item ranked -> eid (r_expert item) = Some i ->
                  bs !! i = Some (r_score item)) /\
  (forall i, (forall item, In item ranked -> eid (r_expert item) <> Some i) ->
             bs !! i = acc !! i).
Proof.
  revert acc. induction ranked as [| x l IH]; intros acc Hnd Hbs; simpl in *.
  - split; [done |]. intros i _. congruence.
  - destruct (eid (r_expert x)) as [j |] eqn:Hj; [| done].
    apply NoDup_cons in Hnd. destruct Hnd as [Hnotin Hnd].
    destruct (IH _ Hnd Hbs) as [Hin Hout]. split.
    + intros item i [<- | Hitem] Hi; [| by apply (Hin item)].
      assert (i = j) as -> by congruence.
      rewrite Hout; [apply lookup_insert_eq |].
      intros item Hitem E. apply Hnotin. rewrite <- E.
      apply list_elem_of_In. by apply (in_map (fun item => eid (r_expert item))).
    + intros i Hi. rewrite Hout by (intros item Hitem; apply Hi; by right).
      apply lookup_insert_ne. intros ->. by apply (Hi x); [left |].
Qed.

(** Every compiled entry is the entry of an expert of the pool. *)
Lemma compile_all_sound (m : mentions_t) (bs : gmap string Q)
    (hist : list history_item) (experts : list expert) (compiled : list ranked_entry) :
  compile_all m bs hist experts = Some compiled ->
  forall x, In x compiled ->
    exists e i, In e experts /\ eid e = Some i /\ x = compile_entry m bs hist e i.
Proof.
  revert compiled. induction experts as [| e l IH]; intros compiled H x Hx; simpl in H.
  - injection H as <-. done.
  - destruct (eid e) as [i |] eqn:Hi; [| done].
    destruct (compile_all m bs hist l) as [rest |]; [| done].
    injection H as <-. destruct Hx as [<- | Hx].
    + exists e, i. split; [by left | done].
    + destruct (IH rest eq_refl x Hx) as (e' & j & ? & ? & ?).
      exists e', j. split; [by right | done].
Qed.

Lemma compile_entry_expert (m : mentions_t) (bs : gmap string Q)
    (hist : list history_item) (e : expert) (i : string) :
  r_expert (compile_entry m bs hist e i) = e.
Proof. unfold compile_entry. by destruct m. Qed.

Lemma compile_entry_reasons (m : mentions_t) (bs : gmap string Q)
    (hist : list history_item) (e : expert) (i : string) :
  r_reasons (compile_entry m bs hist e i) <> [].
Proof.
  unfold compile_entry. destruct m as [cnt rsn]. simpl.
  destruct (_ =? 0)%Z; destruct (_ =? 0)%Z; simpl; try done;
    by destruct (default [] (rsn !! i)).
Qed.

Lemma compile_entry_score (m : mentions_t) (bs : gmap string Q)
    (hist : list history_item) (e : expert) (i : string) :
  r_score (compile_entry m bs hist e i) =
    Scoring.clamp_score
      (default 0 (bs !! i) + inject_Z (Z.min 15 (5 * default 0%Z (m.1 !! i))) +
       inject_Z (_history_bonus e hist)).
Proof. unfold compile_entry. by destruct m. Qed.

(** The number of mentions kept for an id is never negative. *)
Lemma mentions_nonneg (ags : list agency_response) (i : string) :
  (0 <= default 0 ((collect_mentions ags).1 !! i))%Z.
Proof.
  destruct (decide (i = "")) as [-> | Hi].
  - destruct (collect_from_spec ags (∅, ∅) "x" ltac:(done)) as (_ & _ & H).
    unfold collect_mentions. rewrite H; [done | apply lookup_empty].
  - destruct (collect_from_spec ags (∅, ∅) i Hi) as (H & _ & _).
    unfold collect_mentions. cbn [fst] in H. rewrite H, lookup_empty. simpl. lia.
Qed.

(** X11: synthesis on top of [rank_experts], for a pool with distinct ids:
    every entry of the result is the entry of an expert of the pool, its
    score is at least the expert's own score from [score_expert] and at most
    25 more (never above 100), and it has at least one reason: the agency
    and history bonuses never cost an expert anything. *)
Theorem synthesis_never_lowers (c : criteria) (experts : list expert)
    (ags : list agency_response) (hist : list history_item) (out : list ranked_entry) :
  NoDup (map eid experts) ->
  _synthesize_recommendations c experts (rank_experts c experts) ags hist = Some out ->
  Forall (fun x =>
            In (r_expert x) experts /\
            (Scoring.score_expert c (r_expert x)).1 <= r_score x /\
            r_score x <= (Scoring.score_expert c (r_expert x)).1 + 25 /\
            r_score x <= 100 /\
            r_reasons x <> []) out.
Proof.
  intros Hnd Hout. unfold _synthesize_recommendations in Hout.
  destruct (base_scores_of (rank_experts c experts) ∅) as [bs |] eqn:Hbs; [| done].
  destruct (compile_all _ bs hist experts) as [compiled |] eqn:Hc; [| done].
  injection Hout as <-.
  assert (Hperm : Permutation (rank_experts c experts) (map (rank_entry c) experts))
    by apply sort_by_score_desc_perm.
  assert (Hnd' : NoDup (map (fun item => eid (r_expert item)) (rank_experts c experts))).
  { rewrite Hperm, map_map. erewrite map_ext; [exact Hnd |].
    intros e. simpl. by rewrite rank_entry_expert. }
  destruct (base_scores_of_lookup _ _ _ Hnd' Hbs) as [Hlook _].
  apply List.Forall_forall. intros x Hx.
  apply (Permutation_in _ (sort_by_score_desc_perm _)) in Hx.
  destruct (compile_all_sound _ _ _ _ _ Hc x Hx) as (e & i & He & Hi & ->).
  rewrite compile_entry_expert.
  split; [done |].
  assert (Hbase : bs !! i = Some (Scoring.score_expert c e).1).
  { rewrite <- rank_entry_score. apply Hlook.
    - apply (Permutation_in _ (Permutation_sym Hperm)). by apply in_map.
    - by rewrite rank_entry_expert. }
  pose proof (compile_entry_reasons (collect_mentions ags) bs hist e i) as Hreasons.
  pose proof (mentions_nonneg ags i) as Hcnt.
  rewrite compile_entry_score, Hbase. simpl default.
  clear Hx Hc Hlook Hnd' Hperm Hbs Hbase.
  assert (Hab : (0 <= Z.min 15 (5 * default 0 ((collect_mentions ags).1 !! i)) <= 15)%Z)
    by lia.
  assert (Hhb : (0 <= _history_bonus e hist <= 10)%Z).
  { rewrite history_bonus_sum. pose proof (gains_nonneg e hist). lia. }
  revert Hab Hhb.
  generalize (Z.min 15 (5 * default 0%Z ((collect_mentions ags).1 !! i))).
  generalize (_history_bonus e hist).
  intros hb ab Hab Hhb.
  assert (Hd : 0 <= inject_Z ab + inject_Z hb <= 25).
  { rewrite <- inject_Z_plus. unfold Qle, inject_Z. simpl. lia. }
  rewrite score_expert_fst.
  destruct (clamp_score_bonus (Scoring.raw_score c e).1 _ Hd) as [Hlo Hhi].
  revert Hlo Hhi. generalize (Scoring.clamp_score (Scoring.raw_score c e).1).
  intros S Hlo Hhi.
  assert (M1 : Scoring.clamp_score (S + inject_Z ab + inject_Z hb) <=
               Scoring.clamp_score (S + (inject_Z ab + inject_Z hb)))
    by (apply clamp_score_mono; lra).
  assert (M2 : Scoring.clamp_score (S + (inject_Z ab + inject_Z hb)) <=
               Scoring.clamp_score (S + inject_Z ab + inject_Z hb))
    by (apply clamp_score_mono; lra).
  pose proof (clamp_score_bounds (S + inject_Z ab + inject_Z hb)) as B.
  split; [lra |]. split; [lra |]. split; [lra | done].
Qed.

Lemma synthesis_never_lowers_witness :
  exists out,
    _synthesize_recommendations Samples.request Samples.pool
      (rank_experts Samples.request Samples.pool) Samples.agencies Samples.history
      = Some out /\
    Forall (fun x => (Scoring.score_expert Samples.request (r_expert x)).1 <= r_score x) out.
Proof.
  destruct (_synthesize_recommendations _ _ _ _ _) as [out |] eqn:E;
    [| vm_compute in E; discriminate E].
  exists out. split; [reflexivity |].
  eapply List.Forall_impl;
    [| apply (synthesis_never_lowers Samples.request Samples.pool
                Samples.agencies Samples.history out);
       [apply (bool_decide_unpack _); vm_compute; exact I | exact E]].
  intros x (_ & H & _). exact H.
Defined.

End SynthesisOrder.

(** ** The seed *)

Section SeedRange.

Import Seed.
Local Open Scope Z_scope.

Lemma hex_value_hex_digit (n : Z) :
  0 <= n < 16 -> hex_value (MD5.hex_digit n) = n.
Proof.
  intros H. destruct n as [| p | p]; [reflexivity | | lia].
  do 4 (try (destruct p as [p | p |]; try lia; try reflexivity)).
Qed.

Lemma byte_digits (b : Z) :
  0 <= b < 256 -> 0 <= b / 16 < 16 /\ 0 <= b mod 16 < 16.
Proof.
  intros H. split.
  - split; [apply Z.div_pos; lia | apply Z.div_lt_upper_bound; lia].
  - apply Z.mod_pos_bound. lia.
Qed.

Lemma low_byte (n : Z) : 0 <= Z.land n 0xff < 256.
Proof.
  change 0xff with (Z.ones 8). rewrite Z.land_ones by lia.
  apply Z.mod_pos_bound. lia.
Qed.

(** X12: the seed is a number of 48 bits: it is read from the first twelve
    hexadecimal digits of the digest. *)
Theorem stable_seed_range (w : world) (parts : list part) :
  0 <= _stable_seed w parts < 2 ^ 48.
Proof.
  unfold _stable_seed, MD5.hexdigest, MD5.digest.
  destruct (MD5.process _ _ _) as [[[A B] C] D].
  cbn [MD5.le_bytes app MD5.hex_of_bytes PyStr.slice Nat.sub String.substring].
  unfold int16.
  cbn [list_ascii_of_string foldl].
  pose proof (low_byte A) as H0.
  pose proof (low_byte (Z.shiftr A 8)) as H1.
  pose proof (low_byte (Z.shiftr (Z.shiftr A 8) 8)) as H2.
  pose proof (low_byte (Z.shiftr (Z.shiftr (Z.shiftr A 8) 8) 8)) as H3.
  pose proof (low_byte B) as H4.
  pose proof (low_byte (Z.shiftr B 8)) as H5.
  revert H0 H1 H2 H3 H4 H5.
  generalize (Z.land A 0xff) (Z.land (Z.shiftr A 8) 0xff)
    (Z.land (Z.shiftr (Z.shiftr A 8) 8) 0xff)
    (Z.land (Z.shiftr (Z.shiftr (Z.shiftr A 8) 8) 8) 0xff)
    (Z.land B 0xff) (Z.land (Z.shiftr B 8) 0xff).
  intros b0 b1 b2 b3 b4 b5 H0 H1 H2 H3 H4 H5.
  destruct (byte_digits b0 H0) as [? ?]. destruct (byte_digits b1 H1) as [? ?].
  destruct (byte_digits b2 H2) as [? ?]. destruct (byte_digits b3 H3) as [? ?].
  destruct (byte_digits b4 H4) as [? ?]. destruct (byte_digits b5 H5) as [? ?].
  rewrite !hex_value_hex_digit by done.
  lia.
Qed.

End SeedRange.

(** ** The generator: what every draw guarantees *)

Section GeneratorFacts.

Import PyRandom.
Local Open Scope Z_scope.

(** The state words are never negative. *)
Local Notation "'sound' g" := (Forall (fun w => 0 <= w) (mt g)) (at level 10, g at level 9).

Lemma word_nonneg (st : list Z) (i : nat) :
  Forall (fun w => 0 <= w) st -> 0 <= word st i.
Proof.
  intros H. unfold word. revert i. induction H as [| w l Hw _ IH]; intros [| i]; simpl; auto; lia.
Qed.

Lemma mask32_nonneg (x : Z) : 0 <= mask32 x.
Proof. unfold mask32. apply Z.land_nonneg. right. lia. Qed.

Lemma init_genrand_from_nonneg (k i : nat) (prev : Z) :
  Forall (fun w => 0 <= w) (init_genrand_from k i prev).
Proof.
  revert i prev. induction k as [| k IH]; intros i prev; simpl; constructor;
    [apply mask32_nonneg | apply IH].
Qed.

Lemma wrap_nonneg (st : list Z) (i : nat) :
  Forall (fun w => 0 <= w) st -> Forall (fun w => 0 <= w) (wrap st i).1.
Proof.
  intros H. unfold wrap. destruct (N <=? i)%nat; simpl; [| done].
  apply Forall_insert; [done | by apply word_nonneg].
Qed.

Lemma key_loop_nonneg (k : nat) (key st : list Z) (i j : nat) :
  Forall (fun w => 0 <= w) st -> Forall (fun w => 0 <= w) (key_loop k key st i j).1.
Proof.
  revert st i j. induction k as [| k IH]; intros st i j H; simpl; [done |].
  match goal with |- context [wrap ?s ?n] =>
    pose proof (wrap_nonneg s n) as Hw; destruct (wrap s n) as [st' i'] end.
  apply IH, Hw. apply Forall_insert; [done | apply mask32_nonneg].
Qed.

Lemma final_loop_nonneg (k : nat) (st : list Z) (i : nat) :
  Forall (fun w => 0 <= w) st -> Forall (fun w => 0 <= w) (final_loop k st i).
Proof.
  revert st i. induction k as [| k IH]; intros st i H; simpl; [done |].
  match goal with |- context [wrap ?s ?n] =>
    pose proof (wrap_nonneg s n) as Hw; destruct (wrap s n) as [st' i'] end.
  apply IH, Hw. apply Forall_insert; [done | apply mask32_nonneg].
Qed.

(** A fresh generator is sound. *)
Lemma Random_sound (seed : Z) : sound (Random seed).
Proof.
  unfold Random, init_by_array. cbn [mt].
  match goal with |- context [key_loop ?k ?key ?s ?i ?j] =>
    pose proof (key_loop_nonneg k key s i j) as Hk;
    destruct (key_loop k key s i j) as [st i'] end.
  apply Forall_insert; [| lia]. apply final_loop_nonneg, Hk.
  unfold init_genrand. constructor; [apply mask32_nonneg | apply init_genrand_from_nonneg].
Qed.

Lemma twist_at_nonneg (st : list Z) (kk : nat) :
  Forall (fun w => 0 <= w) st -> Forall (fun w => 0 <= w) (twist_at st kk).
Proof.
  intros H. unfold twist_at. apply Forall_insert; [done |].
  pose proof (word_nonneg st kk H). pose proof (word_nonneg st ((kk + 1) mod N) H).
  pose proof (word_nonneg st ((kk + M) mod N) H).
  set (y := Z.lor _ _).
  assert (0 <= y).
  { unfold y. apply Z.lor_nonneg. split; apply Z.land_nonneg; auto. }
  apply Z.lxor_nonneg. split; intros _.
  - destruct (Z.odd y); unfold MATRIX_A; lia.
  - apply Z.lxor_nonneg. split; intros _; [by apply Z.shiftr_nonneg | done].
Qed.

Lemma twist_nonneg (st : list Z) :
  Forall (fun w => 0 <= w) st -> Forall (fun w => 0 <= w) (twist st).
Proof.
  unfold twist. generalize (seq 0 N). intros l. revert st.
  induction l as [| k l IH]; intros st H; simpl; [done |].
  apply IH. by apply twist_at_nonneg.
Qed.

Lemma temper_nonneg (y : Z) : 0 <= y -> 0 <= temper y.
Proof.
  intros H. unfold temper.
  assert (forall a b, 0 <= a -> 0 <= b -> 0 <= Z.lxor a b) as Hx.
  { intros a b Ha Hb. apply Z.lxor_nonneg. tauto. }
  assert (forall a c, 0 <= c -> 0 <= Z.land a c) as Hl.
  { intros a c Hc. apply Z.land_nonneg. auto. }
  repeat first [apply Hx | apply Hl | apply Z.shiftr_nonneg | done | lia].
Qed.

Lemma genrand_uint32_sound (g : rng) :
  sound g -> 0 <= (genrand_uint32 g).1 /\ sound (genrand_uint32 g).2.
Proof.
  intros H. unfold genrand_uint32.
  destruct (N <=? mti g)%nat; cbn [fst snd mt].
  - pose proof (twist_nonneg _ H) as Ht.
    split; [apply temper_nonneg, word_nonneg, Ht | exact Ht].
  - split; [apply temper_nonneg, word_nonneg, H | exact H].
Qed.

Lemma getrandbits_sound (k : Z) (g : rng) :
  sound g -> 0 <= (getrandbits k g).1 /\ sound (getrandbits k g).2.
Proof.
  intros H. unfold getrandbits.
  destruct (genrand_uint32_sound g H) as [Hy Hg].
  destruct (genrand_uint32 g) as [y g']. cbn [fst snd] in *.
  split; [by apply Z.shiftr_nonneg | done].
Qed.

(** A draw [m] on a sound generator, when it returns, whatever the number
    of tries, returns a value that satisfies [P] and leaves the generator
    sound. *)
Local Notation "'yields' m P" :=
  (forall tries g a g', sound g -> m tries g = Some (a, g') -> P a /\ sound g')
  (at level 10, m at level 9, P at level 9).

Lemma yields_ret {A : Type} (a : A) (P : A -> Prop) : P a -> yields (ret a) P.
Proof. intros Ha tries g a' g' Hg [= <- <-]. done. Qed.

Lemma yields_bind {A B : Type} (m : draw A) (k : A -> draw B)
    (P : A -> Prop) (Q : B -> Prop) :
  yields m P -> (forall a, P a -> yields (k a) Q) -> yields (bind m k) Q.
Proof.
  intros Hm Hk tries g b g' Hg Hrun. unfold bind in Hrun.
  destruct (m tries g) as [[a g1] |] eqn:E; [| done].
  destruct (Hm _ _ _ _ Hg E) as [Ha Hg1]. by apply (Hk a Ha tries g1).
Qed.

Lemma yields_weaken {A : Type} (m : draw A) (P Q : A -> Prop) :
  yields m P -> (forall a, P a -> Q a) -> yields m Q.
Proof. intros Hm HPQ tries g a g' Hg Hrun. destruct (Hm _ _ _ _ Hg Hrun). auto. Qed.

Lemma randbelow_yields (n : Z) : yields (randbelow n) (fun r => 0 <= r < n).
Proof.
  unfold randbelow. generalize (bit_length n). intros k tries.
  induction tries as [| tries IH]; intros g r g' Hg Hrun;
    cbn [randbelow_loop] in Hrun; [done |].
  destruct (getrandbits_sound k g Hg) as [Hr Hg1].
  destruct (getrandbits k g) as [r1 g1]. cbn [fst snd] in *.
  destruct (Z.ltb_spec r1 n).
  - simplify_eq. split; [lia | done].
  - by apply (IH g1).
Qed.

Lemma randint_yields (a b : Z) : yields (randint a b) (fun r => a <= r <= b).
Proof.
  unfold randint. eapply yields_bind; [apply randbelow_yields |].
  intros r Hr. apply yields_ret. cbv beta in *. lia.
Qed.

Lemma insert_perm {A : Type} (l : list A) (i : nat) (x y : A) :
  l !! i = Some y -> <[i := x]> l ≡ₚ x :: delete i l.
Proof.
  revert i. induction l as [| a l IH]; intros [| i] H; simpl in *; try done.
  rewrite (IH i H). apply Permutation_swap.
Qed.

(** Exchanging two items rearranges the list. *)
Lemma swap_perm {A : Type} (x : list A) (i j : nat) : swap x i j ≡ₚ x.
Proof.
  unfold swap. destruct (x !! i) as [xi |] eqn:Hi; [| done].
  destruct (x !! j) as [xj |] eqn:Hj; [| done].
  revert i j Hi Hj. induction x as [| a l IH]; intros [| i] [| j] Hi Hj;
    simpl in *; try done.
  - by simplify_eq.
  - simplify_eq. rewrite (insert_perm l j xi xj Hj).
    rewrite (delete_Permutation l j xj Hj) at 2. apply Permutation_swap.
  - simplify_eq. rewrite (insert_perm l i xj xi Hi).
    rewrite (delete_Permutation l i xi Hi) at 2. apply Permutation_swap.
  - by rewrite (IH i j Hi Hj).
Qed.

Lemma shuffle_from_perm {A : Type} (n : nat) (x y : list A) (tries : nat) (g g' : rng) :
  shuffle_from n x tries g = Some (y, g') -> y ≡ₚ x.
Proof.
  revert x g. induction n as [| n IH]; intros x g H.
  - by injection H as <- _.
  - cbn [shuffle_from] in H. unfold bind in H.
    destruct (randbelow _ tries g) as [[j g1] |]; [| done].
    rewrite (IH _ _ H). apply swap_perm.
Qed.

Lemma shuffle_from_yields {A : Type} (n : nat) (x : list A) :
  yields (shuffle_from n x) (fun y => y ≡ₚ x).
Proof.
  revert x. induction n as [| n IH]; intros x.
  - by apply yields_ret.
  - cbn [shuffle_from]. eapply yields_bind; [apply randbelow_yields |].
    intros j _. eapply yields_weaken; [apply IH |].
    intros y Hy. cbv beta in *. by rewrite Hy, swap_perm.
Qed.

(** [shuffle] returns a rearrangement of its argument. *)
Lemma shuffle_yields {A : Type} (x : list A) : yields (shuffle x) (fun y => y ≡ₚ x).
Proof. apply shuffle_from_yields. Qed.

Lemma mapM_yields {A B : Type} (f : A -> draw B) (P : A -> B -> Prop) (l : list A) :
  (forall a, yields (f a) (P a)) ->
  yields (Generation.mapM f l) (fun bs => Forall2 P l bs).
Proof.
  intros Hf. induction l as [| a l IH]; cbn [Generation.mapM].
  - apply yields_ret. constructor.
  - eapply yields_bind; [apply Hf |]. intros b Hb.
    eapply yields_bind; [apply IH |]. intros bs Hbs.
    apply yields_ret. by constructor.
Qed.

(** A shuffled prefix: between [lo] and [hi] items of the list (as many as
    there are, if fewer), all different if the list's are. *)
Lemma shuffled_prefix_yields (xs : list string) (lo hi : Z) :
  yields (Generation.shuffled_prefix xs lo hi)
    (fun ys => ys ⊆ xs /\ (NoDup xs -> NoDup ys) /\
               exists n, lo <= n <= hi /\ length ys = Nat.min (Z.to_nat n) (length xs)).
Proof.
  unfold Generation.shuffled_prefix.
  eapply yields_bind; [apply shuffle_yields |]. intros ys Hys.
  eapply yields_bind; [apply randint_yields |]. intros n Hn.
  apply yields_ret. cbv beta in *. split; [| split].
  - rewrite <- Hys. apply subseteq_take.
  - intros Hnd. rewrite <- Hys in Hnd.
    rewrite <- (take_drop (Z.to_nat n) ys) in Hnd. by apply NoDup_app in Hnd as [? _].
  - exists n. split; [done |]. by rewrite length_take, (Permutation_length Hys).
Qed.

(** *** Themes *)

Lemma mem_spec (x : string) (l : list string) : PyStr.mem x l = true <-> x ∈ l.
Proof.
  unfold PyStr.mem. rewrite existsb_exists. split.
  - intros (y & Hy & E). apply String.eqb_eq in E. subst. by apply list_elem_of_In.
  - intros H. exists x. split; [by apply list_elem_of_In | apply String.eqb_refl].
Qed.

(** [append_new] adds the items that are not there yet, and only those. *)
Lemma append_new_spec (items themes : list string) :
  (forall t, t ∈ Generation.append_new themes items <-> t ∈ themes \/ t ∈ items) /\
  (NoDup themes -> NoDup (Generation.append_new themes items)).
Proof.
  unfold Generation.append_new. revert themes.
  induction items as [| item items IH]; intros themes; simpl.
  - split; [| done]. intros t. rewrite elem_of_nil. tauto.
  - destruct (PyStr.mem item themes) eqn:E.
    + apply mem_spec in E. destruct (IH themes) as [H1 H2]. split; [| done].
      intros t. rewrite H1, elem_of_cons. split; [tauto |].
      intros [? | [-> | ?]]; tauto.
    + assert (item ∉ themes) as Hnot.
      { intros H. apply mem_spec in H. congruence. }
      destruct (IH (themes ++ [item])) as [H1 H2]. split.
      * intros t. rewrite H1, elem_of_app, list_elem_of_singleton, elem_of_cons. tauto.
      * intros Hnd. apply H2. apply NoDup_app. split; [done |].
        split; [| apply NoDup_singleton].
        intros t Ht Ht'. apply list_elem_of_singleton in Ht'. by subst.
Qed.

(** X13: every list of themes that [_pick_themes] returns, whatever the
    state of the generator and however many tries its shuffle takes, holds
    at most [max_themes] of the candidates, a rearrangement of all of them
    when there are no more than that; every theme is a requested function, a
    requested industry, a token of the free text or a topic keyword of the
    expert; and no theme comes twice unless a function is requested twice.
    When there is at most one candidate, [_pick_themes] returns it without
    a draw. *)
Theorem pick_themes_sound (c : criteria) (e : expert) (max_themes : nat)
    (tries : nat) (g : rng) :
  let wanted_functions := get_or falsy_list (functions c) [] in
  let wanted_industries := get_or falsy_list (industries c) [] in
  let tokens := Generation._tokenize (Generation.free_text_or_empty c) in
  let candidates :=
    Generation.append_new
      (Generation.append_new
         (Generation.append_new wanted_functions wanted_industries) tokens)
      (topicKeywords e) in
  (forall (themes : list string) (g' : rng),
     Generation._pick_themes c e max_themes tries g = Some (themes, g') ->
     (exists shuffled, shuffled ≡ₚ candidates /\ themes = take max_themes shuffled) /\
     (forall t, t ∈ themes ->
        t ∈ wanted_functions \/ t ∈ wanted_industries \/ t ∈ tokens \/
        t ∈ topicKeywords e) /\
     (NoDup wanted_functions -> NoDup themes)) /\
  ((length candidates <= 1)%nat ->
   Generation._pick_themes c e max_themes tries g = Some (take max_themes candidates, g)).
Proof.
  cbv zeta. split.
  - intros themes g' H. unfold Generation._pick_themes, bind in H.
    destruct (shuffle _ tries g) as [[shuffled g1] |] eqn:Hs; [| done].
    injection H as <- <-.
    apply shuffle_from_perm in Hs.
    split; [by exists shuffled |].
    destruct (append_new_spec (get_or falsy_list (industries c) [])
                (get_or falsy_list (functions c) [])) as [E1 N1].
    destruct (append_new_spec (Generation._tokenize (Generation.free_text_or_empty c))
                (Generation.append_new (get_or falsy_list (functions c) [])
                   (get_or falsy_list (industries c) []))) as [E2 N2].
    destruct (append_new_spec (topicKeywords e)
                (Generation.append_new
                   (Generation.append_new (get_or falsy_list (functions c) [])
                      (get_or falsy_list (industries c) []))
                   (Generation._tokenize (Generation.free_text_or_empty c)))) as [E3 N3].
    split.
    + intros t Ht. apply subseteq_take in Ht. rewrite Hs in Ht.
      apply E3 in Ht. rewrite E2, E1 in Ht. tauto.
    + intros Hnd. apply N1, N2, N3 in Hnd. rewrite <- Hs in Hnd.
      rewrite <- (take_drop max_themes shuffled) in Hnd.
      by apply NoDup_app in Hnd as [? _].
  - intros Hlen. unfold Generation._pick_themes, bind, shuffle.
    replace (length _ - 1)%nat with 0%nat by lia. reflexivity.
Qed.

Lemma pick_themes_sound_witness :
  exists themes,
    option_map fst
      (Generation._pick_themes Samples.request Samples.candidate_a 4
         Samples.tries (Random 7))
      = Some themes /\
    NoDup themes.
Proof.
  destruct (Generation._pick_themes _ _ _ _ _) as [[themes g'] |] eqn:E;
    [| vm_compute in E; discriminate E].
  exists themes. split; [reflexivity |].
  apply (proj1 (pick_themes_sound _ _ _ _ _) _ _ E). apply NoDup_singleton.
Defined.

Lemma pick_themes_yields (c : criteria) (e : expert) (max_themes : nat) :
  yields (Generation._pick_themes c e max_themes)
    (fun themes => (length themes <= max_themes)%nat).
Proof.
  unfold Generation._pick_themes.
  eapply yields_bind; [apply shuffle_yields |]. intros ys _.
  apply yields_ret. rewrite length_take. lia.
Qed.

(** *** The summary *)

Ltac distinct_strings :=
  repeat (apply NoDup_cons_2;
          [intros Hsame; rewrite ?elem_of_cons, ?elem_of_nil in Hsame;
           decompose [or] Hsame; try discriminate; done |]);
  apply NoDup_nil_2.

Lemma theme_insight_yields (theme : string) :
  yields (Generation.theme_insight theme)
    (fun ins => Generation.i_theme ins = theme /\
                (2 <= length (Generation.i_bullets ins) <= 3)%nat /\
                NoDup (Generation.i_bullets ins)).
Proof.
  unfold Generation.theme_insight.
  eapply yields_bind; [apply shuffled_prefix_yields |].
  intros ys (_ & Hnd & n & Hn & Hlen). apply yields_ret.
  cbn [Generation.i_theme Generation.i_bullets length] in *.
  split; [done |]. split; [lia |]. apply Hnd. distinct_strings.
Qed.

(** X14: whatever the day, the process and the texts, and however many
    tries it takes, a summary that
    [summarize_interview] returns has 5 to 7 executive bullets, 3
    credibility bullets, one insight for each topic of its tags (at most 5)
    with 2 or 3 bullets, 3 or 4 open questions and 3 or 4 next steps, none
    of them repeated; its metrics are those of [_extract_metrics] on the
    transcript, and its industry, function and level tags are the
    request's. *)
Theorem summary_is_well_formed (w : world) (c : criteria) (e : expert)
    (script_text transcript_text : string) (tries : nat) (s : Generation.summary) :
  Generation.summarize_interview w c e script_text transcript_text tries = Some s ->
  (5 <= length (Generation.executive_summary s) <= 7)%nat /\
  NoDup (Generation.executive_summary s) /\
  length (Generation.credibility_bullets s) = 3%nat /\
  (length (Generation.insights_by_theme s) <= 5)%nat /\
  map Generation.i_theme (Generation.insights_by_theme s) =
    Generation.t_topics (Generation.tags s) /\
  Forall (fun ins => (2 <= length (Generation.i_bullets ins) <= 3)%nat /\
                     NoDup (Generation.i_bullets ins))
         (Generation.insights_by_theme s) /\
  (3 <= length (Generation.open_questions s) <= 4)%nat /\
  NoDup (Generation.open_questions s) /\
  (3 <= length (Generation.next_steps s) <= 4)%nat /\
  NoDup (Generation.next_steps s) /\
  Generation.metrics s = Generation._extract_metrics transcript_text /\
  Generation.t_industries (Generation.tags s) = get_or falsy_list (industries c) [] /\
  Generation.t_functions (Generation.tags s) = get_or falsy_list (functions c) [] /\
  Generation.t_levels (Generation.tags s) = get_or falsy_list (levels c) [].
Proof.
  unfold Generation.summarize_interview, Generation.run. intros H.
  destruct (Generation.summary_body c e transcript_text tries (Random _))
    as [[s' g'] |] eqn:E; [| done].
  injection H as ->. pattern s.
  match goal with |- ?P s =>
    enough (Hy : yields (Generation.summary_body c e transcript_text) P)
      by exact (proj1 (Hy _ _ _ _ (Random_sound _) E))
  end.
  clear. unfold Generation.summary_body.
  eapply yields_bind; [apply pick_themes_yields |]. intros themes Hthemes.
  eapply yields_bind; [apply shuffled_prefix_yields |].
  intros exec (_ & Hnd1 & n1 & Hn1 & Hl1).
  eapply yields_bind; [apply (mapM_yields _ _ themes theme_insight_yields) |].
  intros insights Hins.
  eapply yields_bind; [apply shuffled_prefix_yields |].
  intros questions (_ & Hnd2 & n2 & Hn2 & Hl2).
  eapply yields_bind; [apply shuffled_prefix_yields |].
  intros steps (_ & Hnd3 & n3 & Hn3 & Hl3).
  apply yields_ret.
  cbn [Generation.executive_summary Generation.credibility_bullets
       Generation.insights_by_theme Generation.open_questions Generation.next_steps
       Generation.metrics Generation.tags Generation.t_industries
       Generation.t_functions Generation.t_levels Generation.t_topics length] in *.
  split; [lia |]. split; [apply Hnd1; distinct_strings |]. split; [done |].
  split; [rewrite <- (Forall2_length _ _ _ Hins); done |].
  split.
  { clear -Hins. induction Hins as [| t i ts ins [Ht _] _ IH]; simpl; [done |].
    by rewrite Ht, IH. }
  split.
  { clear -Hins. induction Hins as [| t i ts ins [_ Hi] _ IH]; constructor; done. }
  split; [lia |]. split; [apply Hnd2; distinct_strings |].
  split; [lia |]. split; [apply Hnd3; distinct_strings |]. done.
Qed.

Lemma summary_is_well_formed_witness :
  exists s,
    Generation.summarize_interview Samples.monday
      Samples.request Samples.candidate_a Samples.script_text Samples.transcript_text
      Samples.tries = Some s /\
    (5 <= length (Generation.executive_summary s) <= 7)%nat.
Proof.
  destruct (Generation.summarize_interview _ _ _ _ _ _) as [s |] eqn:E;
    [| vm_compute in E; discriminate E].
  exists s. split; [reflexivity |].
  exact (proj1 (summary_is_well_formed _ _ _ _ _ _ _ E)).
Defined.

(** *** The script *)

Lemma main_section_yields (depth theme : string) :
  yields (Generation.main_section depth theme)
    (fun s => Generation.s_theme s = theme /\
              length (Generation.s_questions s) =
                (if String.eqb depth "High-level" then 3 else 5)%nat /\
              length (Generation.s_followups s) = 2%nat /\
              NoDup (Generation.s_questions s) /\ NoDup (Generation.s_followups s)).
Proof.
  unfold Generation.main_section.
  eapply yields_bind; [apply shuffle_yields |]. intros qs Hqs.
  eapply yields_bind; [apply shuffle_yields |]. intros fs Hfs.
  apply yields_ret.
  cbn [Generation.s_theme Generation.s_questions Generation.s_followups].
  pose proof (Permutation_length Hqs) as Lq. pose proof (Permutation_length Hfs) as Lf.
  cbn [length] in Lq, Lf.
  assert (Nq : NoDup qs) by (rewrite Hqs; distinct_strings).
  assert (Nf : NoDup fs) by (rewrite Hfs; distinct_strings).
  split; [done |]. split; [rewrite length_take; destruct (String.eqb _ _); lia |].
  split; [rewrite length_take; lia |]. split.
  - rewrite <- (take_drop (if String.eqb depth "High-level" then 3 else 5)%nat qs) in Nq.
    by apply NoDup_app in Nq as [? _].
  - rewrite <- (take_drop 2 fs) in Nf. by apply NoDup_app in Nf as [? _].
Qed.

Lemma refine_themes_spec (refine_text : string) (themes : list string) :
  (length themes <= 4)%nat ->
  (length (Generation.refine_themes refine_text themes) <= 4)%nat /\
  (refine_text <> "" ->
   exists rest, Generation.refine_themes refine_text themes =
                PyStr.capitalize (PyStr.strip refine_text) :: rest).
Proof.
  intros H. unfold Generation.refine_themes.
  destruct refine_text as [| ch r]; [split; [done | by intros []] |].
  split; [rewrite length_take; lia |]. intros _. simpl. eauto.
Qed.

(** X15: whatever the process and however many tries it takes, a script
    that [generate_script] returns is laid out as the title,
    3 to 5 objectives, 6 to 9 qualification questions, at most 4 themed
    sections and 3 to 5 wrap-up questions, none repeated within its list;
    every section has 3 questions at depth ["High-level"] and 5 otherwise,
    and 2 follow-ups; and a refinement text, when given, is the theme of
    the first section, stripped and capitalized. *)
Theorem script_is_well_formed (w : world) (c : criteria) (e : expert)
    (length_minutes : Z) (tone depth refine_text : string) (tries : nat) (text : string) :
  Generation.generate_script w c e length_minutes tone depth refine_text tries = Some text ->
  exists objectives questions sections wrap_up,
    text =
      Generation.lines
        (["# Expert Interview Script: " +:+ Generation.str_opt (ename e); "";
          "## Interview Objective"] ++
         map (fun obj => "- " +:+ obj) objectives ++
         [""; "## 1) Filtering / Qualification (first 8-10 min)"] ++
         map (fun q => "- Q: " +:+ q) questions ++
         ["- Red flags to watch: lack of direct ownership, outdated experience, or compliance gaps.";
          "- Follow-ups: clarify scope, recency, and avoided topics.";
          "";
          "## 2) Main Business Topics"] ++
         concat (map Generation.section_lines sections) ++
         ["## 3) Wrap-up"] ++
         map (fun q => "- Q: " +:+ q) wrap_up ++
         ["- Request metrics or artifacts (clean, non-confidential).";
          "- Suggested next experts: peer function lead, adjacent industry operator.";
          "- Compliance reminder: avoid confidential or MNPI details."]) /\
    (3 <= length objectives <= 5)%nat /\ NoDup objectives /\
    (6 <= length questions <= 9)%nat /\ NoDup questions /\
    (length sections <= 4)%nat /\
    Forall (fun s =>
              length (Generation.s_questions s) =
                (if String.eqb depth "High-level" then 3 else 5)%nat /\
              length (Generation.s_followups s) = 2%nat /\
              NoDup (Generation.s_questions s) /\ NoDup (Generation.s_followups s))
           sections /\
    (3 <= length wrap_up <= 5)%nat /\ NoDup wrap_up /\
    (refine_text <> "" ->
     exists rest, map Generation.s_theme sections =
                  PyStr.capitalize (PyStr.strip refine_text) :: rest).
Proof.
  unfold Generation.generate_script, Generation.run. intros H.
  destruct (Generation.script_body c e depth refine_text tries (Random _))
    as [[text' g'] |] eqn:E; [| done].
  injection H as ->. pattern text.
  match goal with |- ?P text =>
    enough (Hy : yields (Generation.script_body c e depth refine_text) P)
      by exact (proj1 (Hy _ _ _ _ (Random_sound _) E))
  end.
  clear. unfold Generation.script_body.
  eapply yields_bind; [apply shuffled_prefix_yields |].
  intros objectives (_ & Hnd1 & n1 & Hn1 & Hl1).
  eapply yields_bind; [apply (pick_themes_yields c e 4) |]. intros themes Hthemes.
  destruct (refine_themes_spec refine_text themes Hthemes) as [Hlen Hfirst].
  eapply yields_bind; [apply shuffled_prefix_yields |].
  intros questions (_ & Hnd2 & n2 & Hn2 & Hl2).
  eapply yields_bind;
    [apply (mapM_yields _ _ (Generation.refine_themes refine_text themes)
              (main_section_yields depth)) |].
  intros sections Hsections.
  eapply yields_bind; [apply shuffled_prefix_yields |].
  intros wrap_up (_ & Hnd3 & n3 & Hn3 & Hl3).
  apply yields_ret.
  exists objectives, questions, sections, wrap_up.
  cbn [length] in *.
  split; [reflexivity |].
  split; [lia |]. split; [apply Hnd1; distinct_strings |].
  split; [lia |]. split; [apply Hnd2; distinct_strings |].
  split; [by rewrite <- (Forall2_length _ _ _ Hsections) |].
  assert (Hmap : map Generation.s_theme sections =
                 Generation.refine_themes refine_text themes).
  { clear -Hsections. induction Hsections as [| t s ts ss [Ht _] _ IH]; simpl; [done |].
    by rewrite Ht, IH. }
  split.
  { clear -Hsections. induction Hsections as [| t s ts ss [_ Hs] _ IH]; constructor; done. }
  split; [lia |]. split; [apply Hnd3; distinct_strings |].
  intros Hne. rewrite Hmap. by apply Hfirst.
Qed.

Lemma script_is_well_formed_witness :
  exists text sections,
    Generation.generate_script Samples.monday Samples.request Samples.candidate_a 45
      "Friendly" "High-level" "  unit economics" Samples.tries = Some text /\
    (length sections <= 4)%nat /\
    exists rest, map Generation.s_theme sections = "Unit economics" :: rest.
Proof.
  destruct (Generation.generate_script _ _ _ _ _ _ _ _) as [text |] eqn:E;
    [| vm_compute in E; discriminate E].
  destruct (script_is_well_formed _ _ _ _ _ _ _ _ _ E)
    as (objectives & questions & sections & wrap_up & _ & _ & _ & _ & _ & Hlen & _ & _ & _ & Hfirst).
  exists text, sections. split; [reflexivity |]. split; [exact Hlen |].
  apply Hfirst. discriminate.
Defined.

(** *** The transcript *)

Lemma choice_yields {A : Type} (d : A) (items : list A) :
  yields (choice d items) (fun a => In a items).
Proof.
  unfold choice. eapply yields_bind; [apply randbelow_yields |].
  intros i Hi. apply yields_ret. cbv beta in Hi.
  apply nth_In. lia.
Qed.

Lemma random_below_0_4_yields : yields random_below_0_4 (fun _ => True).
Proof.
  intros tries g b g' Hg H. split; [done |].
  unfold random_below_0_4, bind, random_numerator in H.
  destruct (genrand_uint32_sound g Hg) as [_ Hg1].
  destruct (genrand_uint32 g) as [a g1]. cbn [snd] in Hg1.
  destruct (genrand_uint32_sound g1 Hg1) as [_ Hg2].
  destruct (genrand_uint32 g1) as [a2 g2]. cbn [snd] in Hg2.
  by injection H as _ <-.
Qed.

(** One exchange: a question on the theme, an answer with its two figures
    and, sometimes, a request for clarification with its reply. *)
Local Notation "'exchange' theme ls" :=
  (exists q a n1 n2 tail,
     ls = [q theme; a n1 n2] ++ tail /\
     In q Generation.q_templates /\ In a Generation.a_templates /\
     5 <= n1 <= 25 /\ n1 + 5 <= n2 <= n1 + 20 /\
     (tail = [] \/
      tail = ["Consultant: Can you clarify the constraint behind that?";
              "Expert: Constraints were usually resource bandwidth and change management; we kept efforts scoped to non-confidential data."]))
  (at level 10, theme at level 9, ls at level 9).

Lemma turn_yields (theme : string) :
  yields (Generation.turn theme) (fun ls => exchange theme ls).
Proof.
  unfold Generation.turn.
  eapply yields_bind; [apply choice_yields |]. intros q Hq.
  eapply yields_bind; [apply randint_yields |]. intros n1 Hn1.
  eapply yields_bind; [apply randint_yields |]. intros d Hd.
  eapply yields_bind; [apply choice_yields |]. intros a Ha.
  eapply yields_bind; [apply random_below_0_4_yields |]. intros clarify _.
  apply yields_ret. cbv beta in *.
  exists q, a, n1, (n1 + d). eexists. split; [reflexivity |].
  split; [done |]. split; [done |]. split; [lia |]. split; [lia |].
  destruct clarify; auto.
Qed.

(** X16: whatever the process and however many tries it takes, a
    transcript that [generate_transcript] returns opens with the
    line the tone calls for, if any, then the two introductory lines; it has
    a block for each of at most 4 themes, of 2 exchanges at depth
    ["High-level"] and 3 otherwise, each a question and an answer from the
    templates, possibly followed by the clarification pair; the two
    figures of an exchange lie between 5 and 25 and between 5 and 20 above
    the first; and it closes with the two lines on caveats. *)
Theorem transcript_is_well_formed (w : world) (c : criteria) (e : expert)
    (script_text tone depth refine_text : string) (tries : nat) (text : string) :
  Generation.generate_transcript w c e script_text tone depth refine_text tries = Some text ->
  exists themes blocks,
    text =
      Generation.lines
        ((if String.eqb tone "Friendly"
          then ["Consultant: Appreciate you taking the time to share your experience."]
          else if String.eqb tone "Assertive"
          then ["Consultant: We will keep this focused and time-boxed."]
          else []) ++
         [ "Consultant: Thanks for joining today. We will keep this high level and avoid confidential specifics.";
           "Expert: Happy to help. I'll stay within compliance boundaries: "
           +:+ PyStr.join ", " (complianceFlags e) +:+ "." ] ++ [""] ++
         concat blocks ++
         [ "Consultant: Any final caveats or compliance reminders?";
           "Expert: Yes, please avoid confidential client info and MNPI; I can provide generalized patterns and illustrative figures only." ]) /\
    (length themes <= 4)%nat /\
    (refine_text <> "" ->
     exists rest, themes = PyStr.capitalize (PyStr.strip refine_text) :: rest) /\
    Forall2 (fun theme block =>
               exists turns,
                 block = concat turns ++ [""] /\
                 length turns = (if String.eqb depth "High-level" then 2 else 3)%nat /\
                 Forall (fun ls => exchange theme ls) turns)
            themes blocks.
Proof.
  unfold Generation.generate_transcript, Generation.run. intros H.
  destruct (Generation.transcript_body c e tone depth refine_text tries (Random _))
    as [[text' g'] |] eqn:E; [| done].
  injection H as ->. pattern text.
  match goal with |- ?P text =>
    enough (Hy : yields (Generation.transcript_body c e tone depth refine_text) P)
      by exact (proj1 (Hy _ _ _ _ (Random_sound _) E))
  end.
  clear. unfold Generation.transcript_body.
  eapply yields_bind; [apply (pick_themes_yields c e 4) |]. intros picked Hpicked.
  destruct (refine_themes_spec refine_text picked Hpicked) as [Hlen Hfirst].
  eapply yields_bind.
  { apply (mapM_yields _
             (fun theme block =>
                exists turns,
                  block = concat turns ++ [""] /\
                  length turns = (if String.eqb depth "High-level" then 2 else 3)%nat /\
                  Forall (fun ls => exchange theme ls) turns)).
    intros theme. unfold Generation.theme_turns.
    eapply yields_bind; [apply (mapM_yields _ (fun _ ls => exchange theme ls)) |].
    - intros _. apply turn_yields.
    - intros turns Hturns. apply yields_ret. exists turns.
      split; [done |]. split.
      + rewrite <- (Forall2_length _ _ _ Hturns), length_seq. done.
      + clear -Hturns. induction Hturns; constructor; done. }
  intros blocks Hblocks. apply yields_ret.
  exists (Generation.refine_themes refine_text picked), blocks.
  split; [by destruct (String.eqb tone "Friendly"), (String.eqb tone "Assertive") |].
  split; [done |]. split; [done |]. done.
Qed.

Lemma transcript_is_well_formed_witness :
  exists (text : string) (themes : list string),
    Generation.generate_transcript Samples.monday Samples.request Samples.candidate_a
      Samples.script_text "Friendly" "High-level" "" Samples.tries = Some text /\
    (length themes <= 4)%nat.
Proof.
  destruct (Generation.generate_transcript _ _ _ _ _ _ _ _) as [text |] eqn:E;
    [| vm_compute in E; discriminate E].
  destruct (transcript_is_well_formed _ _ _ _ _ _ _ _ _ E) as (themes & blocks & _ & Hlen & _).
  exists text, themes. split; [reflexivity | exact Hlen].
Defined.

End GeneratorFacts.

(** ** The context of a metric *)

Section MetricContext.

Import Generation PyStr.

Local Notation "'chars' s" := (list_ascii_of_string s) (at level 10, s at level 9).

Lemma append_cons (c : ascii) (s t : string) : String c s +:+ t = String c (s +:+ t).
Proof. reflexivity. Qed.

Lemma append_nil (t : string) : "" +:+ t = t.
Proof. reflexivity. Qed.

Lemma string_of_chars_app (x y : list ascii) :
  string_of_list_ascii (x ++ y) = string_of_list_ascii x +:+ string_of_list_ascii y.
Proof. induction x as [| c x IH]; simpl; [done | by rewrite IH]. Qed.

Lemma take_plus {A : Type} (l : list A) (n m : nat) :
  take (n + m) l = take n l ++ take m (drop n l).
Proof.
  revert l. induction n as [| n IH]; intros [| a l]; simpl; try done.
  - by destruct m.
  - by rewrite IH.
Qed.

Lemma slice_chars (a b : nat) (s : string) :
  slice a b s = string_of_list_ascii (take (b - a) (drop a (chars s))).
Proof.
  unfold slice. by rewrite <- substring_chars, string_of_list_ascii_of_string.
Qed.

(** A slice is made of its parts. *)
Lemma slice_split (s : string) (a b c d : nat) :
  a <= b -> b <= c -> c <= d ->
  slice a d s = slice a b s +:+ slice b c s +:+ slice c d s.
Proof.
  intros Hab Hbc Hcd. rewrite !slice_chars, <- !string_of_chars_app. f_equal.
  replace (d - a) with ((b - a) + ((c - b) + (d - c))) by lia.
  rewrite !take_plus, !drop_drop.
  by replace (a + (b - a)) with b by lia; replace (b + (c - b)) with c by lia.
Qed.

Lemma length_string_of_chars (l : list ascii) :
  String.length (string_of_list_ascii l) = length l.
Proof. induction l as [| c l IH]; simpl; [done | by rewrite IH]. Qed.

Lemma length_slice (a b : nat) (s : string) :
  String.length (slice a b s) = Nat.min (b - a) (String.length s - a).
Proof.
  by rewrite slice_chars, length_string_of_chars, length_take, length_drop, length_chars.
Qed.

Lemma length_append (s t : string) :
  String.length (s +:+ t) = String.length s + String.length t.
Proof. induction s as [| c s IH]; simpl; [done | by rewrite IH]. Qed.

Lemma replace_newlines_app (x y : string) :
  replace_newlines (x +:+ y) = replace_newlines x +:+ replace_newlines y.
Proof. induction x as [| c x IH]; simpl; [done | by rewrite IH]. Qed.

Lemma replace_newlines_fixed (v : string) :
  Forall (fun c => Ascii.eqb c newline = false) (chars v) -> replace_newlines v = v.
Proof.
  induction v as [| c v IH]; simpl; [done |].
  intros H. inversion H as [| ? ? Hc Hv]; subst. by rewrite Hc, IH.
Qed.

Lemma length_replace_newlines (s : string) :
  String.length (replace_newlines s) = String.length s.
Proof. induction s as [| c s IH]; simpl; [done | by rewrite IH]. Qed.

Lemma replace_newlines_clean (s : string) :
  Forall (fun c => Ascii.eqb c newline = false) (chars (replace_newlines s)).
Proof.
  induction s as [| c s IH]; simpl; constructor; [| done].
  destruct (Ascii.eqb c newline) eqn:E; [reflexivity | done].
Qed.

(** [lstrip] leaves a tail of the string, [rstrip] a head. *)
Lemma lstrip_tail (s : string) : exists p, s = p +:+ lstrip s.
Proof.
  induction s as [| c s [p Hp]]; simpl; [by exists "" |].
  destruct (is_space c).
  - exists (String c p). rewrite append_cons. by f_equal.
  - by exists "".
Qed.

Lemma rstrip_head (s : string) : exists q, s = rstrip s +:+ q.
Proof.
  induction s as [| c s [q Hq]]; simpl; [by exists "" |].
  destruct (rstrip s) as [| r rs] eqn:E.
  - destruct (is_space c).
    + exists (String c s). done.
    + exists q. rewrite append_cons. f_equal. exact Hq.
  - exists q. rewrite append_cons. f_equal. exact Hq.
Qed.

(** Stripping stops at a character that is not white space. *)
Lemma lstrip_keeps (a v b : string) (c : ascii) :
  is_space c = false ->
  exists a', lstrip (a +:+ String c v +:+ b) = a' +:+ String c v +:+ b.
Proof.
  intros Hc. induction a as [| x a [a' IH]]; simpl.
  - rewrite Hc. by exists "".
  - destruct (is_space x); [by exists a' |]. by exists (String x a).
Qed.

Lemma rstrip_keeps (p q : string) (c : ascii) :
  is_space c = false -> rstrip (p +:+ String c q) = p +:+ String c (rstrip q).
Proof.
  intros Hc. induction p as [| x p IH]; simpl.
  - rewrite Hc. by destruct (rstrip q).
  - rewrite IH. by destruct p.
Qed.

Lemma append_assoc (x y z : string) : (x +:+ y) +:+ z = x +:+ (y +:+ z).
Proof. induction x as [| c x IH]; [done | by rewrite !append_cons, IH]. Qed.

Lemma prefix_append (t b : string) : String.prefix t (t +:+ b) = true.
Proof.
  induction t as [| c t IH]; [by destruct b |].
  rewrite append_cons. simpl. destruct (ascii_dec c c); [done | congruence].
Qed.

Lemma contains_append (a t b : string) : contains t (a +:+ t +:+ b) = true.
Proof.
  induction a as [| x a IH].
  - rewrite append_nil. pose proof (prefix_append t b) as H.
    destruct (t +:+ b); cbn [contains]; by rewrite H.
  - rewrite append_cons. cbn [contains]. rewrite IH. apply orb_true_r.
Qed.

(** The characters of a value: digits, the dot and the four suffixes.  None
    is white space or a line break. *)
Lemma value_char_plain (c : ascii) :
  is_digit c || Ascii.eqb c "." || is_suffix_char c = true ->
  is_space c = false /\ Ascii.eqb c newline = false.
Proof. destruct c as [[] [] [] [] [] [] [] []]; vm_compute; intros H; done. Qed.

Lemma value_shape_chars (v : list ascii) :
  value_shape v ->
  v <> [] /\ Forall (fun c => is_digit c || Ascii.eqb c "." || is_suffix_char c = true) v.
Proof.
  intros (d & f & u & -> & Hd & Hdig & Hf & Hu). split.
  - destruct d; [simpl in Hd; lia | done].
  - apply Forall_app. split; [| apply Forall_app; split].
    + eapply Forall_impl; [exact Hdig |]. intros c Hc. simpl in Hc. by rewrite Hc.
    + destruct Hf as [-> | (f' & -> & _ & Hf')]; constructor.
      * done.
      * eapply Forall_impl; [exact Hf' |]. intros c Hc. simpl in Hc. by rewrite Hc.
    + destruct Hu as [-> | (c & -> & Hc)]; repeat constructor.
      rewrite Hc. apply orb_true_r.
Qed.

Lemma string_last (s : string) :
  s <> "" -> exists p c, s = p +:+ String c "" /\ In c (chars s).
Proof.
  induction s as [| x s IH]; [done |]. intros _.
  destruct s as [| y s].
  - exists "", x. split; [done | by left].
  - destruct IH as (p & c & Hp & Hc); [done |].
    exists (String x p), c. rewrite append_cons, <- Hp. split; [done | by right].
Qed.

(** What [strip] returns sits inside its argument. *)
Lemma strip_inside (s : string) : exists p q, s = p +:+ strip s +:+ q.
Proof.
  unfold strip. destruct (lstrip_tail s) as [p Hp].
  destruct (rstrip_head (lstrip s)) as [q Hq].
  exists p, q. by rewrite <- Hq.
Qed.

(** [strip] does not cut into a piece that begins and ends with characters
    that are not white space. *)
Lemma strip_keeps (a v b : string) :
  v <> "" -> Forall (fun c => is_space c = false) (chars v) ->
  exists a' b', strip (a +:+ v +:+ b) = a' +:+ v +:+ b'.
Proof.
  intros Hne Hv. unfold strip.
  destruct (string_last v Hne) as (p & c2 & Hp & Hc2).
  assert (Hsp : is_space c2 = false).
  { rewrite List.Forall_forall in Hv. by apply Hv. }
  destruct v as [| c1 v1]; [done |].
  assert (Hc1 : is_space c1 = false) by (by inversion Hv).
  destruct (lstrip_keeps a v1 b c1 Hc1) as [a' ->].
  exists a', (rstrip b).
  assert (E : a' +:+ String c1 v1 +:+ b = (a' +:+ p) +:+ String c2 b).
  { rewrite Hp, !append_assoc. reflexivity. }
  rewrite E, (rstrip_keeps _ _ _ Hsp), Hp, !append_assoc. reflexivity.
Qed.

Lemma chars_append (s t : string) : chars (s +:+ t) = chars s ++ chars t.
Proof. induction s as [| c s IH]; [done |]. rewrite append_cons. simpl. by rewrite IH. Qed.

(** X17: the context of a metric contains its value, is at most 80
    characters longer than it (40 on each side), and holds no line feed,
    the one character that [_extract_metrics] replaces by a space; and
    every value is non-empty. *)
Theorem metric_context_holds_value (text : string) (m : metric) :
  In m (_extract_metrics text) ->
  value m <> "" /\
  contains (value m) (context m) = true /\
  String.length (context m) <= String.length (value m) + 80 /\
  Forall (fun c => c <> newline) (chars (context m)).
Proof.
  intros Hm.
  assert (Hin : exists st en, In (st, en) (finditer text) /\ m = metric_at text (st, en)).
  { unfold _extract_metrics in Hm. destruct text; [done |].
    apply in_map_iff in Hm. destruct Hm as ([st en] & <- & Hin). eauto. }
  destruct Hin as (st & en & Hin & ->).
  destruct (scan_spec _ _ _ _ _ Hin) as (k & _ & Hk & Hlt & Hen & Hml).
  simpl in Hk. subst k. rewrite length_chars in Hen. simpl in Hen.
  destruct (match_len_shape _ _ Hml) as (_ & _ & Hshape).
  apply value_shape_chars in Hshape. destruct Hshape as [Hne Hplain].
  cbn [metric_at value context].
  set (start := st - 40). set (stop := Nat.min (String.length text) (en + 40)).
  set (V := slice st en text).
  assert (HV : chars V = take (en - st) (drop st (chars text))).
  { unfold V, slice. apply substring_chars. }
  rewrite <- HV in Hne, Hplain.
  assert (Hsplit : slice start stop text =
                   slice start st text +:+ V +:+ slice en stop text).
  { apply slice_split; unfold start, stop; lia. }
  assert (HlenV : String.length V = en - st).
  { unfold V. rewrite length_slice. lia. }
  clearbody V.
  assert (HVne : V <> "") by (intros E; apply Hne; by rewrite E).
  assert (Hclean : Forall (fun c => Ascii.eqb c newline = false) (chars V)).
  { eapply Forall_impl; [exact Hplain |]. intros c Hc.
    by destruct (value_char_plain c Hc). }
  assert (Hrepl : replace_newlines (slice start stop text) =
                  replace_newlines (slice start st text) +:+ V +:+
                  replace_newlines (slice en stop text)).
  { by rewrite Hsplit, !replace_newlines_app, (replace_newlines_fixed V). }
  split; [done |]. split; [| split].
  - rewrite Hrepl.
    destruct (strip_keeps (replace_newlines (slice start st text)) V
                (replace_newlines (slice en stop text)) HVne) as (a' & b' & ->).
    + eapply Forall_impl; [exact Hplain |]. intros c Hc.
      by destruct (value_char_plain c Hc).
    + apply contains_append.
  - destruct (strip_inside (replace_newlines (slice start stop text))) as (p & q & Hpq).
    apply (f_equal String.length) in Hpq.
    rewrite !length_append, length_replace_newlines, length_slice in Hpq.
    unfold start, stop in *. lia.
  - destruct (strip_inside (replace_newlines (slice start stop text))) as (p & q & Hpq).
    pose proof (replace_newlines_clean (slice start stop text)) as Hc.
    rewrite Hpq, !chars_append in Hc.
    apply Forall_app in Hc as [_ Hc]. apply Forall_app in Hc as [Hc _].
    eapply Forall_impl; [exact Hc |]. intros c E ->. by rewrite Ascii.eqb_refl in E.
Qed.

Lemma metric_context_holds_value_witness :
  Forall (fun m => contains (value m) (context m) = true)
         (_extract_metrics Samples.transcript_text).
Proof.
  apply List.Forall_forall. intros m Hm.
  by destruct (metric_context_holds_value Samples.transcript_text m Hm) as (_ & H & _).
Defined.

(** Only the line feed is replaced: a carriage return inside the window
    stays in the context. *)
Example carriage_return_stays :
  map context (_extract_metrics ("up" +:+ String (ascii_of_nat 13) "90% of it"))
    = ["up" +:+ String (ascii_of_nat 13) "90% of it"].
Proof. vm_compute. reflexivity. Qed.

End MetricContext.

(** ** The terms of a profile *)

Section ProfileFacts.

Import Profile.
Local Open Scope Z_scope.

(** How often [k] occurs among the tokens. *)
Local Notation "'times' k tokens" :=
  (Z.of_nat (length (List.filter (String.eqb k) tokens)))
  (at level 10, k at level 9, tokens at level 9).

Local Notation "'more_often' a b" := (b.2 <= a.2) (at level 10, a at level 9, b at level 9).

Lemma times_snoc (k t : string) (tokens : list string) :
  times k (tokens ++ [t]) = times k tokens + (if String.eqb k t then 1 else 0).
Proof.
  rewrite List.filter_app, length_app. simpl. destruct (String.eqb k t); simpl; lia.
Qed.

Lemma times_absent (k : string) (tokens : list string) :
  ~ In k tokens -> times k tokens = 0.
Proof.
  induction tokens as [| t l IH]; simpl; [done |]. intros H.
  destruct (String.eqb_spec k t) as [-> | _]; [destruct H; by left |].
  apply IH. intros Hin. apply H. by right.
Qed.

Lemma bump_keys (t : string) (counts : list (string * Z)) :
  (In t (map fst counts) /\ map fst (bump t counts) = map fst counts) \/
  (~ In t (map fst counts) /\ map fst (bump t counts) = map fst counts ++ [t]).
Proof.
  induction counts as [| [k n] rest IH]; simpl; [right; split; auto |].
  destruct (String.eqb_spec k t) as [-> | Hne]; simpl; [left; split; auto |].
  destruct IH as [[Hin ->] | [Hnot ->]]; [left; split; auto |].
  right. split; [| done]. intros [? | ?]; done.
Qed.

Lemma bump_in (t k : string) (n : Z) (counts : list (string * Z)) :
  NoDup (map fst counts) -> In (k, n) (bump t counts) ->
  (k <> t /\ In (k, n) counts) \/
  (k = t /\ (In (t, n - 1) counts \/ (n = 1 /\ ~ In t (map fst counts)))).
Proof.
  induction counts as [| [k0 n0] rest IH]; simpl; intros Hnd Hin.
  - destruct Hin as [[= <- <-] | []]. right. split; [done |]. right. split; [done | tauto].
  - apply NoDup_cons in Hnd. destruct Hnd as [Hk0 Hnd].
    destruct (String.eqb_spec k0 t) as [-> | Hne]; simpl in Hin.
    + destruct Hin as [[= <- <-] | Hin].
      * right. split; [done |]. left. left. f_equal. lia.
      * destruct (decide (k = t)) as [-> | Hkt]; [| left; split; [done | by right]].
        destruct Hk0. apply list_elem_of_In. by apply (in_map fst _ (t, n)).
    + destruct Hin as [[= <- <-] | Hin]; [left; split; [done | by left] |].
      destruct (IH Hnd Hin) as [[? ?] | [-> [? | [-> Hnot]]]].
      * left. split; [done | by right].
      * right. split; [done |]. left. by right.
      * right. split; [done |]. right. split; [done |]. intros [? | ?]; done.
Qed.

(** The dictionary of counts: one key for each different token, in the
    order of first occurrence, with the number of its occurrences. *)
Lemma count_tokens_spec (tokens : list string) :
  NoDup (map fst (count_tokens tokens)) /\
  (forall k n, In (k, n) (count_tokens tokens) -> n = times k tokens /\ In k tokens) /\
  (forall k, In k tokens -> In k (map fst (count_tokens tokens))).
Proof.
  induction tokens as [| t tokens (Hnd & Hval & Hkey)] using rev_ind.
  - split; [constructor |]. split; [intros k n [] | intros k []].
  - unfold count_tokens in *. rewrite foldl_app. simpl.
    set (counts := foldl _ _ tokens) in *.
    split; [| split].
    + destruct (bump_keys t counts) as [[_ ->] | [Hnot ->]]; [done |].
      apply NoDup_app. split; [done |]. split; [| apply NoDup_singleton].
      intros x Hx Hx'. apply list_elem_of_singleton in Hx'. subst.
      by apply list_elem_of_In in Hx.
    + intros k n Hin. rewrite times_snoc, in_app_iff.
      destruct (bump_in _ _ _ _ Hnd Hin) as [[Hne Hk] | [-> [Hk | [-> Hnot]]]].
      * destruct (Hval _ _ Hk) as [-> ?].
        destruct (String.eqb_spec k t); [done |]. split; [lia | auto].
      * destruct (Hval _ _ Hk) as [E ?]. rewrite String.eqb_refl.
        split; [lia | auto].
      * rewrite String.eqb_refl, times_absent; [split; [lia | simpl; auto] |].
        intros H. by apply Hnot, Hkey.
    + intros k Hk. apply in_app_iff in Hk.
      destruct (bump_keys t counts) as [[Hin ->] | [Hnot ->]].
      * destruct Hk as [Hk | [<- | []]]; [by apply Hkey | done].
      * apply in_app_iff. destruct Hk as [Hk | [<- | []]]; [left; by apply Hkey |].
        right. by left.
Qed.

Lemma insert_by_count_perm (x : string * Z) (l : list (string * Z)) :
  insert_by_count x l ≡ₚ x :: l.
Proof.
  induction l as [| y l IH]; simpl; [done |].
  destruct (x.2 <? y.2); [| done]. rewrite IH. apply Permutation_swap.
Qed.

Lemma sort_by_count_desc_perm (l : list (string * Z)) : sort_by_count_desc l ≡ₚ l.
Proof.
  induction l as [| x l IH]; simpl; [done |].
  by rewrite insert_by_count_perm, IH.
Qed.

Lemma insert_by_count_sorted (x : string * Z) (l : list (string * Z)) :
  Sorted (fun a b => more_often a b) l ->
  Sorted (fun a b => more_often a b) (insert_by_count x l).
Proof.
  induction 1 as [| y l Hs IH Hhd]; simpl; [repeat constructor |].
  destruct (Z.ltb_spec x.2 y.2) as [Hlt | Hge].
  - constructor; [exact IH |].
    destruct l as [| z l]; simpl; [constructor; lia |].
    destruct (x.2 <? z.2); constructor; [| lia]. by inversion Hhd.
  - constructor; [by constructor |]. constructor. lia.
Qed.

Lemma sort_by_count_desc_sorted (l : list (string * Z)) :
  StronglySorted (fun a b => more_often a b) (sort_by_count_desc l).
Proof.
  apply Sorted_StronglySorted; [intros x y z; lia |].
  induction l as [| x l IH]; simpl; [constructor | by apply insert_by_count_sorted].
Qed.

Lemma StronglySorted_take {A : Type} (R : A -> A -> Prop) (n : nat) (l : list A) :
  StronglySorted R l -> StronglySorted R (take n l).
Proof.
  intros H. revert n. induction H as [| x l Hs IH Hall]; intros [| n]; simpl;
    try constructor; [apply IH |].
  rewrite List.Forall_forall in *. intros y Hy. apply Hall.
  apply list_elem_of_In. apply list_elem_of_In in Hy. by apply subseteq_take in Hy.
Qed.

(** X18: the terms of a profile are at most [max_terms] different tokens of
    the text, the most frequent first: no term occurs less often in the
    text than a term after it, or than a token that was left out. *)
Theorem profile_terms_by_frequency (text : string) (max_terms : nat) :
  let terms := _summarize_profile_text text max_terms in
  let tokens := profile_tokens text in
  (length terms <= max_terms)%nat /\
  NoDup terms /\
  (forall t, In t terms -> In t tokens) /\
  StronglySorted (fun a b => times b tokens <= times a tokens) terms /\
  (forall t u, In t terms -> In u tokens -> ~ In u terms ->
               times u tokens <= times t tokens) /\
  ((length (count_tokens tokens) <= max_terms)%nat ->
   forall u, In u tokens -> In u terms).
Proof.
  cbv zeta. unfold _summarize_profile_text.
  destruct text as [| c0 text0].
  { simpl. split; [lia |]. split; [constructor |]. split; [done |].
    split; [constructor |]. split; [done |]. intros _ u []. }
  set (text := String c0 text0). set (tokens := profile_tokens text).
  destruct (count_tokens_spec tokens) as (Hnd & Hval & Hkey).
  set (counts := count_tokens tokens) in *.
  pose proof (sort_by_count_desc_perm counts) as Hperm.
  pose proof (sort_by_count_desc_sorted counts) as Hsorted.
  set (ranked := sort_by_count_desc counts) in *.
  assert (Hranked : forall k n, In (k, n) ranked -> n = times k tokens /\ In k tokens).
  { intros k n Hin. apply Hval. apply list_elem_of_In. rewrite <- Hperm.
    by apply list_elem_of_In. }
  assert (Hndr : NoDup (map fst ranked)) by (by rewrite Hperm).
  split; [rewrite length_map, length_take; lia |].
  split.
  { rewrite <- (take_drop max_terms ranked), map_app in Hndr.
    by apply NoDup_app in Hndr as [? _]. }
  split.
  { intros t Ht. apply in_map_iff in Ht. destruct Ht as ([k n] & <- & Hin).
    apply list_elem_of_In, subseteq_take, list_elem_of_In in Hin.
    by destruct (Hranked _ _ Hin). }
  split.
  { pose proof (StronglySorted_take _ max_terms _ Hsorted) as Hs.
    assert (Hsub : forall x, In x (take max_terms ranked) -> In x ranked).
    { intros x Hx. by apply list_elem_of_In, subseteq_take, list_elem_of_In in Hx. }
    revert Hs Hsub. generalize (take max_terms ranked). intros l Hs Hsub.
    induction Hs as [| [k n] l Hs IH Hall]; simpl; constructor.
    - apply IH. intros x Hx. apply Hsub. by right.
    - rewrite List.Forall_forall in *. intros t Ht.
      apply in_map_iff in Ht. destruct Ht as ([k' n'] & <- & Hin).
      specialize (Hall _ Hin). simpl in *.
      destruct (Hranked k n (Hsub _ (or_introl eq_refl))) as [<- _].
      destruct (Hranked k' n' (Hsub _ (or_intror Hin))) as [<- _]. done. }
  split.
  { intros t u Ht Hu Hnot.
    apply in_map_iff in Ht. destruct Ht as ([k n] & <- & Hin). simpl.
    assert (Hu' : In u (map fst ranked)).
    { apply list_elem_of_In. rewrite Hperm. apply list_elem_of_In. by apply Hkey. }
    apply in_map_iff in Hu'. destruct Hu' as ([k' n'] & <- & Hin'). simpl in *.
    rewrite <- (take_drop max_terms ranked) in Hin', Hsorted.
    apply in_app_iff in Hin'. destruct Hin' as [Hin' | Hin'].
    { destruct Hnot. apply in_map_iff. by exists (k', n'). }
    assert (Hle : n' <= n).
    { clear -Hsorted Hin Hin'. revert Hsorted Hin.
      generalize (take max_terms ranked) (drop max_terms ranked) Hin'.
      intros l1 l2 H2 Hs H1. induction l1 as [| x l1 IH]; [done |].
      simpl in Hs. apply StronglySorted_inv in Hs. destruct Hs as [Hs Hall].
      destruct H1 as [-> | H1]; [| by apply IH].
      rewrite List.Forall_forall in Hall.
      apply (Hall (k', n')). apply in_app_iff. by right. }
    assert (In (k, n) ranked).
    { apply list_elem_of_In. apply list_elem_of_In in Hin. by apply subseteq_take in Hin. }
    assert (In (k', n') ranked).
    { apply list_elem_of_In. apply list_elem_of_In in Hin'.
      by apply (subseteq_drop max_terms) in Hin'. }
    destruct (Hranked k n) as [<- _]; [done |].
    destruct (Hranked k' n') as [<- _]; done. }
  intros Hlen u Hu.
  rewrite take_ge by (rewrite (Permutation_length Hperm); done).
  apply list_elem_of_In. rewrite Hperm. apply list_elem_of_In. by apply Hkey.
Qed.

End ProfileFacts.

(** ** The credential text, entry by entry *)

Section CredentialEntries.

Import PyNum PyStr Scoring.

Local Notation "'chars' s" := (list_ascii_of_string s) (at level 10, s at level 9).

Local Notation "'entries' e" :=
  (cred_parts (education (credentials e)) ++ cred_parts (formerCompanies (credentials e)) ++
   cred_parts (notableProjects (credentials e)) ++ cred_parts (publications (credentials e)))
  (at level 10, e at level 9).

Lemma prefix_extend (t s b : string) :
  String.prefix t s = true -> String.prefix t (s +:+ b) = true.
Proof.
  revert s. induction t as [| c t IH]; intros s H; [by destruct (s +:+ b) |].
  destruct s as [| x s]; [done |]. rewrite append_cons. simpl in *.
  destruct (ascii_dec c x); [by apply IH | done].
Qed.

Lemma contains_nil (s : string) : contains "" s = true.
Proof. by destruct s. Qed.

Lemma contains_extend_r (t s b : string) :
  contains t s = true -> contains t (s +:+ b) = true.
Proof.
  induction s as [| x s IH]; cbn [contains]; intros H.
  - rewrite orb_false_r in H. destruct t; [apply contains_nil | done].
  - rewrite append_cons. cbn [contains].
    apply orb_prop in H. destruct H as [H | H].
    + pose proof (prefix_extend _ (String x s) b H) as P.
      rewrite append_cons in P. by rewrite P.
    + rewrite (IH H). apply orb_true_r.
Qed.

Lemma contains_extend_l (t a s : string) :
  contains t s = true -> contains t (a +:+ s) = true.
Proof.
  intros H. induction a as [| x a IH]; [done |].
  rewrite append_cons. cbn [contains]. rewrite IH. apply orb_true_r.
Qed.

(** A text without blanks that begins a text with a blank in it ends before
    the blank. *)
Lemma prefix_before_blank (t u v : string) :
  Forall (fun c => c <> " "%char) (chars t) ->
  String.prefix t (u +:+ String " " v) = true -> String.prefix t u = true.
Proof.
  revert u. induction t as [| c t IH]; intros u Ht H; [by destruct u |].
  inversion Ht as [| ? ? Hc Ht']; subst.
  destruct u as [| x u].
  - rewrite append_nil in H. simpl in H. destruct (ascii_dec c " "); done.
  - rewrite append_cons in H. simpl in *.
    destruct (ascii_dec c x); [by apply IH | done].
Qed.

Lemma contains_across_blank (t u v : string) :
  t <> "" -> Forall (fun c => c <> " "%char) (chars t) ->
  contains t (u +:+ String " " v) = true ->
  contains t u = true \/ contains t v = true.
Proof.
  intros Hne Ht. induction u as [| x u IH].
  - rewrite append_nil. cbn [contains]. intros H.
    apply orb_prop in H. destruct H as [H | H]; [| by right].
    destruct t as [| c t]; [done |]. inversion Ht; subst. simpl in H.
    destruct (ascii_dec c " "); done.
  - rewrite append_cons. cbn [contains]. intros H.
    apply orb_prop in H. destruct H as [H | H].
    + left. rewrite <- append_cons in H.
      by rewrite (prefix_before_blank _ _ _ Ht H).
    + destruct (IH H) as [H' | H']; [left | by right].
      rewrite H'. apply orb_true_r.
Qed.

(** A text without blanks occurs in a blank-separated join exactly when it
    occurs in one of the parts. *)
Lemma contains_join (t : string) (parts : list string) :
  t <> "" -> Forall (fun c => c <> " "%char) (chars t) ->
  contains t (join " " parts) = true <-> exists p, In p parts /\ contains t p = true.
Proof.
  intros Hne Ht. induction parts as [| p parts IH].
  - simpl. split; [| by intros (p & [] & _)].
    intros H. rewrite orb_false_r in H. by destruct t.
  - destruct parts as [| q parts].
    + simpl. split; [intros H; exists p; auto |]. by intros (p' & [<- | []] & H).
    + change (join " " (p :: q :: parts)) with (p +:+ String " " (join " " (q :: parts))).
      split.
      * intros H. destruct (contains_across_blank _ _ _ Hne Ht H) as [H' | H'].
        -- exists p. split; [by left | done].
        -- apply IH in H'. destruct H' as (p' & Hp' & H'). exists p'. split; [by right | done].
      * intros (p' & [<- | Hp'] & H).
        -- by apply contains_extend_r.
        -- assert (Hrest : contains t (join " " (q :: parts)) = true)
             by (apply IH; by exists p').
           apply (contains_extend_l _ (p +:+ " ")) in Hrest.
           by rewrite append_assoc in Hrest.
Qed.

Lemma lower_append (s t : string) : lower (s +:+ t) = lower s +:+ lower t.
Proof. induction s as [| c s IH]; [done |]. rewrite append_cons. simpl. by rewrite IH. Qed.

Lemma lower_join (parts : list string) :
  lower (join " " parts) = join " " (map lower parts).
Proof.
  induction parts as [| p parts IH]; [done |].
  destruct parts as [| q parts]; [done |].
  change (join " " (p :: q :: parts)) with (p +:+ " " +:+ join " " (q :: parts)).
  rewrite !lower_append, IH. done.
Qed.

(** X19: the credential signal gives its 10 points exactly when some token
    of the free text occurs in one of the expert's credential entries
    (education, former companies, notable projects, publications), case
    ignored: a match never straddles two entries. *)
Theorem credential_credit_by_entry (c : criteria) (e : expert)
    (score : Q) (reasons : list string) :
  ((credential_signal c e (score, reasons)).1 == score + 10)%Q <->
  exists t p, t ∈ free_tokens c /\ In p (entries e) /\ contains t (lower p) = true.
Proof.
  assert (Hhit : cred_hits c e <> [] <->
            exists t p, t ∈ free_tokens c /\ In p (entries e) /\ contains t (lower p) = true).
  { unfold cred_hits, _flatten_credentials. rewrite lower_join. split.
    - intros H. destruct (List.filter _ _) as [| t hits] eqn:E; [done |].
      assert (Hin : In t (List.filter
                (fun t => contains t (join " " (map lower (entries e))))
                (elements (free_tokens c)))) by (rewrite E; by left).
      apply filter_In in Hin. destruct Hin as [Hel Hc].
      apply list_elem_of_In, elem_of_elements in Hel.
      assert (Htok : In t (_tokenize (get_or falsy_str (free_text c) ""))).
      { apply list_elem_of_In. by apply elem_of_list_to_set in Hel. }
      unfold _tokenize in Htok. destruct (get_or _ _ _) as [| c0 s0]; [done |].
      apply filter_In in Htok. destruct Htok as [Hrun _].
      destruct (findall_lower_chars _ _ Hrun) as [Hne Hplain].
      apply contains_join in Hc; [| done |].
      + destruct Hc as (p' & Hp' & Hc). apply in_map_iff in Hp'.
        destruct Hp' as (p & <- & Hp). by exists t, p.
      + eapply Forall_impl; [exact Hplain |]. intros a Ha ->. done.
    - intros (t & p & Hel & Hp & Hc) E.
      assert (Hin : In t (List.filter
                (fun t => contains t (join " " (map lower (entries e))))
                (elements (free_tokens c)))); [| by rewrite E in Hin].
      apply filter_In. split; [by apply list_elem_of_In, elem_of_elements |].
      assert (Htok : In t (_tokenize (get_or falsy_str (free_text c) ""))).
      { apply list_elem_of_In. by apply elem_of_list_to_set in Hel. }
      unfold _tokenize in Htok. destruct (get_or _ _ _) as [| c0 s0]; [done |].
      apply filter_In in Htok. destruct Htok as [Hrun _].
      destruct (findall_lower_chars _ _ Hrun) as [Hne Hplain].
      apply contains_join; [done | |].
      + eapply Forall_impl; [exact Hplain |]. intros a Ha ->. done.
      + exists (lower p). split; [by apply in_map | done]. }
  rewrite <- Hhit. unfold credential_signal.
  destruct (cred_hits c e) as [| h hs]; cbn [fst].
  - split; [intros H; exfalso; lra | done].
  - split; [done | intros _; reflexivity].
Qed.

End CredentialEntries.
